(** * celloapi2: the Cello result reader and query helper, verified

    A shallow embedding of [cello_api/celloapi.py]: the relaxed-format
    reader [_fix_input_json], the result aggregator [CelloResult] (table
    loading, netlist name resolution, repressor scoring, log score
    extraction) and the sensor-file pruning of [CelloQuery].

    Conventions of the embedding.
    - A Python [str] is a [string]; a [dict] with string keys is an
      insertion-ordered association list ([dict]); a [list] is a [list].
    - An exception is a value of [exn]; a computation that may raise has
      type [result A].  The module's own [raise RuntimeError(...)]
      statements are [RuntimeError msg]; everything else is raised by the
      interpreter or a library on the module's behalf.
    - The file system is a finite map from paths to the text that a
      text-mode [read()] of that path returns.
    - Library calls whose code is not part of the module ([yaml.load],
      [json.dump], [numpy.genfromtxt], [float], [math.log]) are parameters. *)

From Stdlib Require Import ZArith Ascii String List Uint63 PrimFloat SpecFloat FloatOps Lia.
From Stdlib Require Import Reals Lra.
From stdpp Require Import base option list strings pretty gmap.

Local Open Scope Z_scope.
#[local] Set Warnings "-register-all,-clear-no-such-hyp".

(** ** Exceptions and the error monad *)

Inductive exn : Type :=
| RuntimeError (msg : string)
| ValueError
| ZeroDivisionError
| IndexError
| KeyError (key : string)
| TypeError
| AttributeError
| FileNotFoundError (path : string)
| YAMLError.

Inductive result (A : Type) : Type :=
| Ok (a : A)
| Raise (e : exn).

Arguments Ok {A} a.
Arguments Raise {A} e.

#[global] Instance result_ret : MRet result := λ A a, Ok a.
#[global] Instance result_bind : MBind result := λ A B f m,
  match m with
  | Ok a => f a
  | Raise e => Raise e
  end.
#[global] Instance result_fmap : FMap result := λ A B f m,
  match m with
  | Ok a => Ok (f a)
  | Raise e => Raise e
  end.

(** [raised m] holds when the computation ended in an exception. *)
Definition raised {A} (m : result A) : bool :=
  match m with
  | Ok _ => false
  | Raise _ => true
  end.

(** An exception that the module raises itself, by a [raise] statement. *)
Definition is_RuntimeError (e : exn) : bool :=
  match e with
  | RuntimeError _ => true
  | _ => false
  end.

(** ** Python's [str] methods used by the module *)

Module Str.

Definition tab : ascii := "009"%char.
Definition newline : ascii := "010"%char.
Definition comma : ascii := ","%char.
Definition space : ascii := " "%char.
Definition underscore : ascii := "_"%char.
Definition dollar : ascii := "$"%char.
Definition dquote : ascii := "034"%char.

Definition len (s : string) : Z := Z.of_nat (String.length s).

(** [s.replace(c, "")] for a one-character [c]. *)
Fixpoint remove_char (c : ascii) (s : string) : string :=
  match s with
  | EmptyString => EmptyString
  | String a s' =>
      if Ascii.eqb a c then remove_char c s' else String a (remove_char c s')
  end.

(** [c in s] for a one-character [c]. *)
Fixpoint has_char (c : ascii) (s : string) : bool :=
  match s with
  | EmptyString => false
  | String a s' => Ascii.eqb a c || has_char c s'
  end.

(** [s.rfind(c)]: the highest index holding [c], or [-1]. *)
Fixpoint rfind (c : ascii) (s : string) : Z :=
  match s with
  | EmptyString => -1
  | String a s' =>
      let r := rfind c s' in
      if 0 <=? r then r + 1
      else if Ascii.eqb a c then 0 else -1
  end.

Fixpoint take (n : nat) (s : string) : string :=
  match n, s with
  | S n', String a s' => String a (take n' s')
  | _, _ => EmptyString
  end.

(** [s[:i]] with Python's treatment of negative and oversized bounds. *)
Definition slice_to (s : string) (i : Z) : string :=
  let j := if i <? 0 then Z.max 0 (i + len s) else i in
  take (Z.to_nat j) s.

(** [s.startswith(p)] *)
Fixpoint startswith (p s : string) : bool :=
  match p, s with
  | EmptyString, _ => true
  | String _ _, EmptyString => false
  | String a p', String b s' => Ascii.eqb a b && startswith p' s'
  end.

(** [sub in s] *)
Fixpoint contains (sub s : string) : bool :=
  startswith sub s ||
  match s with
  | EmptyString => false
  | String _ s' => contains sub s'
  end.

(** [s.split(sep)] for a one-character separator: never empty. *)
Fixpoint split (sep : ascii) (s : string) : list string :=
  match s with
  | EmptyString => [EmptyString]
  | String a s' =>
      if Ascii.eqb a sep then EmptyString :: split sep s'
      else match split sep s' with
           | [] => [String a EmptyString]
           | w :: ws => String a w :: ws
           end
  end.

(** The lines a text-mode file object yields: each keeps its newline. *)
Fixpoint lines (s : string) : list string :=
  match s with
  | EmptyString => []
  | String a s' =>
      if Ascii.eqb a newline then String a EmptyString :: lines s'
      else match lines s' with
           | [] => [String a EmptyString]
           | l :: ls => String a l :: ls
           end
  end.

(** [s[0]] *)
Definition first_char (s : string) : result ascii :=
  match s with
  | EmptyString => Raise IndexError
  | String a _ => Ok a
  end.

(** [s.endswith(suf)] *)
Fixpoint endswith (suf s : string) : bool :=
  String.eqb suf s ||
  match s with
  | EmptyString => false
  | String _ s' => endswith suf s'
  end.

(** [Some r] when [s = p ++ r]. *)
Fixpoint strip_prefix (p s : string) : option string :=
  match p, s with
  | EmptyString, _ => Some s
  | String _ _, EmptyString => None
  | String a p', String b s' =>
      if Ascii.eqb a b then strip_prefix p' s' else None
  end.

End Str.

(** [l[0]] and [l[-1]] on a list. *)
Definition list_first {A} (l : list A) : result A :=
  match l with
  | [] => Raise IndexError
  | x :: _ => Ok x
  end.

Definition list_last {A} (l : list A) : result A :=
  match last l with
  | None => Raise IndexError
  | Some x => Ok x
  end.

(** ** Dictionaries with string keys

    Python dictionaries keep insertion order; [d[k] = v] overwrites in
    place when [k] is present and appends otherwise. *)

Definition dict (V : Type) : Type := list (string * V).

Definition dict_keys {V} (d : dict V) : list string := d.*1.

Fixpoint dict_get {V} (d : dict V) (k : string) : option V :=
  match d with
  | [] => None
  | (k', v) :: d' => if String.eqb k' k then Some v else dict_get d' k
  end.

(** [d[k]] *)
Definition dict_getitem {V} (d : dict V) (k : string) : result V :=
  match dict_get d k with
  | Some v => Ok v
  | None => Raise (KeyError k)
  end.

(** [d[k] = v] *)
Fixpoint dict_setitem {V} (d : dict V) (k : string) (v : V) : dict V :=
  match d with
  | [] => [(k, v)]
  | (k', v') :: d' =>
      if String.eqb k' k then (k', v) :: d' else (k', v') :: dict_setitem d' k v
  end.

(** [k in d] *)
Definition dict_has {V} (d : dict V) (k : string) : bool :=
  match dict_get d k with
  | Some _ => true
  | None => false
  end.

(** [a.keys() == b.keys()]: key views compare as sets, by size and then
    containment of every key of [a] in [b]. *)
Definition keys_eq {V W} (a : dict V) (b : dict W) : bool :=
  (length a =? length b)%nat && forallb (dict_has b) (dict_keys a).

(** A dictionary value never holds a key twice. *)
Definition dict_wf {V} (d : dict V) : Prop := NoDup (dict_keys d).

(** ** Documents: what [yaml.load] returns and [json.dump] writes *)

Inductive value : Type :=
| VNone
| VBool (b : bool)
| VInt (z : Z)
| VFloat (f : float)
| VStr (s : string)
| VList (l : list value)
| VDict (d : list (string * value)).

(** [float == int], exactly: a finite binary64 is [±m·2^e]. *)
Definition float_eq_int (f : float) (z : Z) : bool :=
  match Prim2SF f with
  | S754_zero _ => z =? 0
  | S754_finite s m e =>
      let n := if s then Z.neg m else Z.pos m in
      if 0 <=? e then z =? n * 2 ^ e else z * 2 ^ (- e) =? n
  | _ => false
  end.

Definition int_of_bool (b : bool) : Z := if b then 1 else 0.

(** Python's [==] on documents.  Numbers compare by value across [bool],
    [int] and [float]; lists compare element by element; dictionaries
    compare as mappings, whatever the order of their keys. *)
Fixpoint py_eq (a b : value) {struct a} : bool :=
  let fix list_eq (l1 l2 : list value) {struct l1} : bool :=
    match l1, l2 with
    | [], [] => true
    | x :: l1', y :: l2' => py_eq x y && list_eq l1' l2'
    | _, _ => false
    end in
  let fix items_in (d1 d2 : list (string * value)) {struct d1} : bool :=
    match d1 with
    | [] => true
    | (k, v) :: d1' =>
        match dict_get d2 k with
        | Some w => py_eq v w && items_in d1' d2
        | None => false
        end
    end in
  match a, b with
  | VNone, VNone => true
  | VBool x, VBool y => Bool.eqb x y
  | VBool x, VInt z | VInt z, VBool x => int_of_bool x =? z
  | VBool x, VFloat f | VFloat f, VBool x => float_eq_int f (int_of_bool x)
  | VInt x, VInt y => x =? y
  | VInt z, VFloat f | VFloat f, VInt z => float_eq_int f z
  | VFloat f, VFloat g => PrimFloat.eqb f g
  | VStr s, VStr t => String.eqb s t
  | VList l1, VList l2 => list_eq l1 l2
  | VDict d1, VDict d2 => (length d1 =? length d2)%nat && items_in d1 d2
  | _, _ => false
  end.

(** [v == s] for a string [s], and [v in l] for a list of strings. *)
Definition eq_str (v : value) (s : string) : bool := py_eq v (VStr s).

Definition in_strs (v : value) (l : list string) : bool :=
  existsb (λ s, py_eq (VStr s) v) l.

(** [v[k]] for a string subscript [k]: only a mapping accepts it. *)
Definition getitem (v : value) (k : string) : result value :=
  match v with
  | VDict d => dict_getitem d k
  | _ => Raise TypeError
  end.

(** [for x in v]: the items a [for] loop visits. *)
Definition iterate (v : value) : result (list value) :=
  match v with
  | VList l => Ok l
  | VDict d => Ok (VStr <$> dict_keys d)
  | VStr s => Ok ((λ c, VStr (String c EmptyString)) <$> list_ascii_of_string s)
  | _ => Raise TypeError
  end.

(** ** The file system and [glob] *)

(** A file system: path ↦ text. *)
Abbreviation filesystem := (gmap string string).

(** [open(path).read()] *)
Definition open_read (fs : filesystem) (path : string) : result string :=
  match fs !! path with
  | Some text => Ok text
  | None => Raise (FileNotFoundError path)
  end.

(** Does [path] match the pattern [dir/*suffix]?  The star stands for any
    run of characters inside one path component, and never for a leading
    dot.  ([dir] itself is taken literally.) *)
Definition glob_match (dir suffix path : string) : bool :=
  match Str.strip_prefix (dir +:+ "/") path with
  | None => false
  | Some name =>
      negb (Str.has_char "/"%char name)
      && negb (Str.startswith "." name)
      && Str.endswith suffix name
  end.

(** [glob.glob(f"{dir}/*{suffix}")] *)
Definition glob (fs : filesystem) (dir suffix : string) : list string :=
  List.filter (glob_match dir suffix) (map_to_list fs).*1.

(** ** Library calls *)

(** The arithmetic of the items of an activity row: [a < b], [a / b] and
    [math.log(a)]. *)
Class Numeric (num : Type) : Type := {
  num_lt : num → num → bool;
  num_truediv : num → num → result num;
  math_log : num → result num;
}.

(** [float(s)] *)
Abbreviation float_parser num := (string → result num).

(** [yaml.load(text, Loader=yaml.FullLoader)] and [json.dump(data, f)]. *)
Class Codec : Type := {
  yaml_load : string → result value;
  json_dumps : value → string;
}.

(** What [numpy.genfromtxt(path, delimiter=",", dtype=None)] returns: an
    array of records, one per row of the file, the label field first, then
    the fields of the type numpy inferred for the file.  numpy squeezes
    the array before it returns it: a file with a single row gives an
    array of dimension 0, which holds the record but cannot be iterated. *)
Inductive ndarray (V : Type) : Type :=
| Array0d (record : string * list V)
| Array1d (records : list (string * list V)).

Arguments Array0d {V} record.
Arguments Array1d {V} records.

(** [numpy.genfromtxt] on the text of a file. *)
Abbreviation table V := (string → result (ndarray V)).

(** ** 4.1 The relaxed-format reader *)

(** What [_fix_input_json] does to the text between [read()] and
    [yaml.load]. *)
Definition fix_text (final_trailing_comma : bool) (text : string) : string :=
  let dirty_data := Str.remove_char Str.tab text in
  if final_trailing_comma then
    let idx := Str.rfind Str.comma dirty_data in
    Str.slice_to dirty_data idx
  else dirty_data.

Definition _fix_input_json `{Codec} (fs : filesystem) (input_fp : string)
    (final_trailing_comma : bool) : result value :=
  dirty_data ← open_read fs input_fp;
  yaml_load (fix_text final_trailing_comma dirty_data).

(** ** 4.2 - 4.6 [CelloResult] *)

Definition msg_unable_csv (filename : string) : string :=
  "Unable to find " +:+ filename +:+ ".csv. Please check output directory.".
Definition msg_multiple : string :=
  "Found multiple results matching pattern. Please investigate.".
Definition msg_unable_netlist : string :=
  "Unable to find Output Netlist. Please check output directory.".
Definition msg_mismatch : string :=
  "Logic and Activity Output do not match. Please investigate.".
Definition msg_no_score : string :=
  "Unable to locate Circuit Score in log.log. Please investigate.".

(** [for row in input_activity]: the records of the array, in order;
    [TypeError] ("iteration over a 0-d array") for an array of dimension 0. *)
Definition iter_array {V} (input_activity : ndarray V)
    : result (list (string * list V)) :=
  match input_activity with
  | Array0d _ => Raise TypeError
  | Array1d records => Ok records
  end.

(** [mapping_keys = {}; for row in rows: mapping_keys[row[0]] = row[1:]] *)
Definition rows_to_dict {V} (rows : list (string * list V)) : dict (list V) :=
  fold_left (λ mapping_keys row, dict_setitem mapping_keys row.1 row.2) rows [].

Definition _parse_result_csv {V} (genfromtxt : table V) (fs : filesystem)
    (output_dir filename : string) : result (dict (list V)) :=
  let in_file := glob fs output_dir ("_" +:+ filename +:+ ".csv") in
  if bool_decide (in_file = []) then Raise (RuntimeError (msg_unable_csv filename))
  else if negb (Z.of_nat (length in_file) - 1 =? 0) then Raise (RuntimeError msg_multiple)
  else
    path ← list_first in_file;
    text ← open_read fs path;
    input_activity ← genfromtxt text;
    rows ← iter_array input_activity;
    Ok (rows_to_dict rows).

(** The inner loop of the name resolver:
    [for node in data["nodes"]: if key == node["name"]: out_mapping[key] = node["deviceName"]] *)
Fixpoint resolve_key (key : string) (nodes : list value)
    (out_mapping : dict value) : result (dict value) :=
  match nodes with
  | [] => Ok out_mapping
  | node :: rest =>
      name ← getitem node "name";
      if eq_str name key then
        device ← getitem node "deviceName";
        resolve_key key rest (dict_setitem out_mapping key device)
      else resolve_key key rest out_mapping
  end.

(** The outer loop: [for key in repressor_keys: ...] *)
Fixpoint resolve_keys (data : value) (keys : list string)
    (out_mapping : dict value) : result (dict value) :=
  match keys with
  | [] => Ok out_mapping
  | key :: rest =>
      nodes ← getitem data "nodes";
      items ← iterate nodes;
      out_mapping' ← resolve_key key items out_mapping;
      resolve_keys data rest out_mapping'
  end.

Definition _map_symbolic_representation_to_true_name `{Codec} {V}
    (fs : filesystem) (output_dir : string) (logic_dict : dict V)
    : result (dict value) :=
  let in_file := glob fs output_dir "_outputNetlist.json" in
  if bool_decide (in_file = []) then Raise (RuntimeError msg_unable_netlist)
  else if negb (Z.of_nat (length in_file) - 1 =? 0) then Raise (RuntimeError msg_multiple)
  else
    path ← list_first in_file;
    data ← _fix_input_json fs path true;
    resolve_keys data (dict_keys logic_dict) [].

(** *** 4.4 Scoring *)

(** [[i for idx, i in enumerate(activity_values) if truth_table[idx]]] when
    [want] is [true], and the same with [if not truth_table[idx]] when
    [want] is [false].  [truth_table[idx]] raises past the end of the row. *)
Fixpoint select {num} (want : bool) (truth_table : list bool) (idx : nat)
    (activity_values : list num) : result (list num) :=
  match activity_values with
  | [] => Ok []
  | i :: rest =>
      match truth_table !! idx with
      | None => Raise IndexError
      | Some t =>
          picked ← select want truth_table (S idx) rest;
          Ok (if Bool.eqb t want then i :: picked else picked)
      end
  end.

(** The builtins [min] and [max] on a list: the first item is the running
    answer, replaced by a later item only when that one is strictly
    smaller (for [max]: strictly larger). *)
Definition py_min {num} `{!Numeric num} (l : list num) : result num :=
  match l with
  | [] => Raise ValueError
  | x :: rest =>
      Ok (fold_left (λ best item, if num_lt item best then item else best) rest x)
  end.

Definition py_max {num} `{!Numeric num} (l : list num) : result num :=
  match l with
  | [] => Raise ValueError
  | x :: rest =>
      Ok (fold_left (λ best item, if num_lt best item then item else best) rest x)
  end.

(** [lambda x: x[0] == "$"] *)
Definition is_repressor (x : string) : result bool :=
  c ← Str.first_char x;
  Ok (Ascii.eqb c Str.dollar).

(** [list(filter(lambda x: x[0] == "$", keys))] *)
Fixpoint filter_repressors (keys : list string) : result (list string) :=
  match keys with
  | [] => Ok []
  | x :: rest =>
      b ← is_repressor x;
      kept ← filter_repressors rest;
      Ok (if (b : bool) then x :: kept else kept)
  end.

(** The body of the scoring loop for one key. *)
Definition score_key {num} `{!Numeric num} (logic_dict : dict (list bool))
    (activity_dict : dict (list num)) (r_key : string) : result num :=
  truth_table ← dict_getitem logic_dict r_key;
  activity_values ← dict_getitem activity_dict r_key;
  on_values ← select true truth_table 0 activity_values;
  low_on ← py_min on_values;
  off_values ← select false truth_table 0 activity_values;
  high_off ← py_max off_values;
  ratio ← num_truediv low_on high_off;
  math_log ratio.

Fixpoint score_loop {num} `{!Numeric num} (logic_dict : dict (list bool))
    (activity_dict : dict (list num)) (repressor_keys : list string)
    (score_dict : dict num) : result (dict num) :=
  match repressor_keys with
  | [] => Ok score_dict
  | r_key :: rest =>
      score ← score_key logic_dict activity_dict r_key;
      score_loop logic_dict activity_dict rest (dict_setitem score_dict r_key score)
  end.

Definition score_repressors {num} `{!Numeric num} (logic_dict : dict (list bool))
    (activity_dict : dict (list num)) : result (dict num) :=
  if negb (keys_eq logic_dict activity_dict) then Raise (RuntimeError msg_mismatch)
  else
    repressor_keys ← filter_repressors (dict_keys logic_dict);
    score_loop logic_dict activity_dict repressor_keys [].

(** *** 4.5 The circuit score of the log *)

Definition marker : string := "SimulatedAnnealing - Score:".

(** [for line in input_file: if marker in line: return float(line.split(" ")[-1])],
    then the [raise] after the loop. *)
Fixpoint scan_log {num} (py_float : float_parser num) (lines : list string)
    : result num :=
  match lines with
  | [] => Raise (RuntimeError msg_no_score)
  | line :: rest =>
      if Str.contains marker line then
        token ← list_last (Str.split Str.space line);
        py_float token
      else scan_log py_float rest
  end.

Definition _parse_log_file {num} (py_float : float_parser num)
    (fs : filesystem) (output_dir : string) : result num :=
  let in_file := glob fs output_dir ".log" in
  if negb (Z.of_nat (length in_file) - 1 =? 0) then Raise (RuntimeError msg_multiple)
  else
    path ← list_first in_file;
    text ← open_read fs path;
    scan_log py_float (Str.lines text).

(** *** 4.6 The aggregate *)

Record CelloResult (num : Type) : Type := {
  output_dir : string;
  logic_dict : dict (list bool);
  activity_dict : dict (list num);
  part_names : dict value;
  repressor_scores : dict num;
  circuit_score : num;
}.

Arguments output_dir {num} _.
Arguments logic_dict {num} _.
Arguments activity_dict {num} _.
Arguments part_names {num} _.
Arguments repressor_scores {num} _.
Arguments circuit_score {num} _.

(** [CelloResult.__init__]: the five loads in the order of the source;
    the first exception ends the construction. *)
Definition CelloResult_init `{Codec} {num} `{!Numeric num}
    (genfromtxt_logic : table bool) (genfromtxt_activity : table num)
    (py_float : float_parser num)
    (fs : filesystem) (results_dir : string) : result (CelloResult num) :=
  logic ← _parse_result_csv genfromtxt_logic fs results_dir "logic";
  activity ← _parse_result_csv genfromtxt_activity fs results_dir "activity";
  names ← _map_symbolic_representation_to_true_name fs results_dir logic;
  scores ← score_repressors logic activity;
  circuit ← _parse_log_file py_float fs results_dir;
  Ok {| output_dir := results_dir; logic_dict := logic; activity_dict := activity;
        part_names := names; repressor_scores := scores; circuit_score := circuit |}.

(** ** Binary64 numbers

    The rows of a table come out of numpy, so the items of an activity row
    are [numpy.float64] scalars: [<] and [/] are IEEE 754 operations, and a
    division by zero yields an infinity or a NaN rather than an exception.
    [math.log] raises [ValueError] outside its domain and passes [+inf]
    and NaN through; its value on a positive finite number is the C
    library's, an argument here. *)
Definition float64 (libm_log : float → float) : Numeric float := {|
  num_lt := PrimFloat.ltb;
  num_truediv := λ a b, Ok (PrimFloat.div a b);
  math_log := λ a,
    if PrimFloat.ltb 0%float a
    then Ok (if PrimFloat.eqb a infinity then a else libm_log a)
    else if PrimFloat.is_nan a then Ok a
    else Raise ValueError;
|}.

(** ** [CelloQuery] *)

Record CelloQuery : Type := {
  input_directory : option string;
  output_directory : option string;
  verilog_file : option string;
  compiler_options : option string;
  input_ucf : option string;
  input_sensors : option string;
  output_device : option string;
  logging : bool;
}.

(** An attribute inside an f-string: [None] prints as its name. *)
Definition fmt (attr : option string) : string := default "None" attr.

(** [f"{self.input_directory}/{name}"] *)
Definition in_input_directory (q : CelloQuery) (name : string) : string :=
  fmt (input_directory q) +:+ "/" +:+ name.

(** [raw_name.split("_")[0]] *)
Definition signal_of_name (raw_name : value) : result string :=
  match raw_name with
  | VStr s => list_first (Str.split Str.underscore s)
  | _ => Raise AttributeError
  end.

(** The loop of [get_input_signals] over the rows of the document. *)
Fixpoint collect_signals (rows : list value) (name_list : list string)
    : result (list string) :=
  match rows with
  | [] => Ok name_list
  | row :: rest =>
      collection ← getitem row "collection";
      if eq_str collection "input_sensors" then
        raw_name ← getitem row "name";
        signal ← signal_of_name raw_name;
        collect_signals rest (name_list ++ [signal])
      else collect_signals rest name_list
  end.

(** [get_input_signals] on the loaded document. *)
Definition signals_of (data : value) : result (list string) :=
  rows ← iterate data;
  collect_signals rows [].

Definition get_input_signals `{Codec} (q : CelloQuery) (fs : filesystem)
    : result (list string) :=
  data ← _fix_input_json fs (in_input_directory q (fmt (input_sensors q))) false;
  signals_of data.

(** [l.remove(row)] for the row read at index [i]: the first item that is
    that very row or equals it goes. *)
Fixpoint list_remove (row : value) (i : nat) (l : list value) {struct l}
    : list value :=
  match l with
  | [] => []
  | x :: l' =>
      match i with
      | O => l'
      | S i' => if py_eq x row then l' else x :: list_remove row i' l'
      end
  end.

(** [for row in in_data: ...] with [in_data.remove(row)] in its body.  A
    list iterator is an index into the live list: it reads [in_data[i]],
    moves to [i + 1] and stops once [i] is past the current end.  Each
    turn advances [i] and the list never grows, so [fuel] turns are enough
    when [fuel] is the length of the list the loop starts with. *)
Fixpoint prune_loop (query_list : list string) (target_collection : string)
    (fuel i : nat) (in_data : list value) : result (list value) :=
  match fuel with
  | O => Ok in_data
  | S fuel' =>
      match in_data !! i with
      | None => Ok in_data
      | Some row =>
          collection ← getitem row "collection";
          if eq_str collection target_collection then
            name ← getitem row "name";
            if negb (in_strs name query_list) then
              prune_loop query_list target_collection fuel' (S i)
                (list_remove row i in_data)
            else prune_loop query_list target_collection fuel' (S i) in_data
          else prune_loop query_list target_collection fuel' (S i) in_data
      end
  end.

(** The nested helper of [set_input_signals].  On a document that is not a
    list the loop visits keys or characters, and subscripting the first
    of them with ["collection"] is a [TypeError]. *)
Definition _prune_other_sensors (suffix target_collection : string)
    (in_data : value) (in_signals : list string) : result value :=
  let query_list := (λ sig, sig +:+ suffix) <$> in_signals in
  match in_data with
  | VList rows =>
      VList <$> prune_loop query_list target_collection (length rows) 0 rows
  | _ =>
      items ← iterate in_data;
      match items with
      | [] => Ok in_data
      | row :: _ => _ ← getitem row "collection"; Raise TypeError
      end
  end.

(** The three pruning passes of [set_input_signals]. *)
Definition prune (data : value) (input_signals : list string) : result value :=
  data ← _prune_other_sensors "_sensor" "input_sensors" data input_signals;
  data ← _prune_other_sensors "_sensor_model" "models" data input_signals;
  _prune_other_sensors "_sensor_structure" "structures" data input_signals.

(** [for signal in input_signals: if signal not in available: raise ...] *)
Fixpoint check_signals (available_input_signals input_signals : list string)
    : result unit :=
  match input_signals with
  | [] => Ok ()
  | signal :: rest =>
      if negb (existsb (String.eqb signal) available_input_signals) then
        Raise (RuntimeError
                 ("Cannot set " +:+ signal +:+ ", not present in available signals "))
      else check_signals available_input_signals rest
  end.

(** What a method can change: the query object and the files. *)
Definition world : Type := CelloQuery * filesystem.

(** A method body: it ends in a value or an exception and leaves a world
    behind.  An exception does not undo the effects that came before it. *)
Definition action (A : Type) : Type := world → result A * world.

#[global] Instance action_ret : MRet action := λ A a w, (Ok a, w).
#[global] Instance action_bind : MBind action := λ A B f m w,
  match m w with
  | (Ok a, w') => f a w'
  | (Raise e, w') => (Raise e, w')
  end.

(** A step that only reads the query and the files. *)
Definition reading {A} (f : CelloQuery → filesystem → result A) : action A :=
  λ w, (f w.1 w.2, w).

(** [with open(path, "w") as out_file: out_file.write(text)] *)
Definition write_file (path text : string) : action unit :=
  λ w, (Ok (), (w.1, <[path := text]> w.2)).

Definition with_input_sensors (q : CelloQuery) (name : string) : CelloQuery :=
  {| input_directory := input_directory q;
     output_directory := output_directory q;
     verilog_file := verilog_file q;
     compiler_options := compiler_options q;
     input_ucf := input_ucf q;
     input_sensors := Some name;
     output_device := output_device q;
     logging := logging q |}.

(** [self.input_sensors = name] *)
Definition set_input_sensors (name : string) : action unit :=
  λ w, (Ok (), (with_input_sensors w.1 name, w.2)).

Definition set_input_signals `{Codec} (input_signals : list string)
    (output_filename : string) (mutate : bool) : action string :=
  available_input_signals ← reading get_input_signals;
  _ ← reading (λ _ _, check_signals available_input_signals input_signals);
  data ← reading (λ q fs,
            _fix_input_json fs (in_input_directory q (fmt (input_sensors q))) false);
  data ← reading (λ _ _, prune data input_signals);
  path ← reading (λ q _, Ok (in_input_directory q output_filename));
  _ ← write_file path (json_dumps data);
  _ ← (if mutate then set_input_sensors output_filename else mret ());
  mret output_filename.

(** ** Exact real numbers

    The arithmetic of Python's own [float], read over the reals: [a / b]
    raises [ZeroDivisionError] when [b] is zero and [math.log] raises
    [ValueError] outside its domain.  It gives the formula of a score its
    mathematical value. *)
Definition real : Numeric R := {|
  num_lt := λ a b, if Rlt_dec a b then true else false;
  num_truediv := λ a b,
    if Req_dec_T b 0 then Raise ZeroDivisionError else Ok (a / b)%R;
  math_log := λ a, if Rlt_dec 0 a then Ok (ln a) else Raise ValueError;
|}.

(** ** [get_part_map]

    [{v: k for k, v in self.part_names.items()}]: a dictionary whose keys
    are the documents that were the values.  A key must be hashable, which
    lists and mappings are not; keys are compared with [==], and assigning
    under a key that is already there keeps the old key and replaces its
    value. *)

Definition hashable (v : value) : bool :=
  match v with
  | VList _ | VDict _ => false
  | _ => true
  end.

Definition vdict : Type := list (value * string).

Fixpoint vdict_get (d : vdict) (k : value) : option string :=
  match d with
  | [] => None
  | (k', x) :: d' => if py_eq k' k then Some x else vdict_get d' k
  end.

Fixpoint vdict_setitem (d : vdict) (k : value) (x : string) : vdict :=
  match d with
  | [] => [(k, x)]
  | (k', x') :: d' =>
      if py_eq k' k then (k', x) :: d' else (k', x') :: vdict_setitem d' k x
  end.

Fixpoint invert_items (items : dict value) (acc : vdict) : result vdict :=
  match items with
  | [] => Ok acc
  | (k, v) :: rest =>
      if hashable v then invert_items rest (vdict_setitem acc v k)
      else Raise TypeError
  end.

Definition get_part_map (part_names : dict value) : result vdict :=
  invert_items part_names [].

(** ** The output directory: prior results and the container

    [check_for_prior_results], [archive_prior_results] and [get_results]
    look at directories as well as files, create a directory and move
    entries, so their disk maps a path to a file or a directory.  An entry
    stands under the path by which the program names it: the paths of
    these methods are [f"{self.output_directory}/{name}"]. *)

Inductive entry : Type :=
| File (text : string)
| Directory.

Abbreviation disk := (gmap string entry).

(** [glob.glob(f"{dir}/*{suffix}")], files and directories alike. *)
Definition glob_entries (d : disk) (dir suffix : string) : list string :=
  List.filter (glob_match dir suffix) (map_to_list d).*1.

(** How a call ends that can also fail in the operating system. *)
Inductive failure : Type :=
| Python (e : exn)
| OSError (errno path : string)
| ShutilError (msg : string).

Inductive ending (A : Type) : Type :=
| Returns (a : A)
| Raises (e : failure).

Arguments Returns {A} a.
Arguments Raises {A} e.

Module Path.

Definition slash : ascii := "/"%char.

(** [s.rstrip(c)] for a one-character [c]. *)
Fixpoint rstrip (c : ascii) (s : string) : string :=
  match s with
  | EmptyString => EmptyString
  | String a s' =>
      match rstrip c s' with
      | EmptyString => if Ascii.eqb a c then EmptyString else String a EmptyString
      | r => String a r
      end
  end.

(** [shutil._basename]: [os.path.basename(path.rstrip("/"))], the text
    after the last slash of the stripped path. *)
Definition basename (path : string) : string :=
  default EmptyString (last (Str.split slash (rstrip slash path))).

(** The directory a path lies in: the text before its last slash. *)
Definition parent (path : string) : string :=
  Str.take (Z.to_nat (Str.rfind slash path)) path.

(** [Some rest] when [path] names [root] itself or something below it:
    [path = root ++ rest] with [rest] empty or starting with a slash. *)
Definition below (root path : string) : option string :=
  match Str.strip_prefix root path with
  | Some rest =>
      if bool_decide (rest = EmptyString) || Str.startswith "/" rest
      then Some rest else None
  | None => None
  end.

(** Where [path] is after [src] was renamed to [dst]. *)
Definition rekey (src dst path : string) : string :=
  match below src path with
  | Some rest => dst +:+ rest
  | None => path
  end.

End Path.

(** [os.mkdir(path)] *)
Definition os_mkdir (path : string) (d : disk) : ending unit * disk :=
  match d !! Path.parent path with
  | None => (Raises (Python (FileNotFoundError path)), d)
  | Some (File _) => (Raises (OSError "ENOTDIR" path), d)
  | Some Directory =>
      match d !! path with
      | Some _ => (Raises (OSError "EEXIST" path), d)
      | None => (Returns (), <[path := Directory]> d)
      end
  end.

(** The disk after [src], with all that lies below it, became [dst]. *)
Definition rename_tree (src dst : string) (d : disk) : disk :=
  list_to_map ((λ kv : string * entry, (Path.rekey src dst kv.1, kv.2))
                 <$> map_to_list d).

(** [os.rename(src, dst)] on one file system.  [shutil.move] calls it with
    a [dst] that does not exist whenever it moves into a directory; the
    other cases follow POSIX: a file replaces a file, a directory is not
    moved below itself nor over an entry. *)
Definition os_rename (src dst : string) (d : disk) : ending unit * disk :=
  match d !! src with
  | None => (Raises (Python (FileNotFoundError src)), d)
  | Some e =>
      if String.eqb src dst then (Returns (), d)
      else if bool_decide (is_Some (Path.below src dst))
      then (Raises (OSError "EINVAL" src), d)
      else
        match d !! dst, e with
        | None, _ => (Returns (), rename_tree src dst d)
        | Some (File _), File _ => (Returns (), rename_tree src dst (delete dst d))
        | Some (File _), Directory => (Raises (OSError "ENOTDIR" dst), d)
        | Some Directory, File _ => (Raises (OSError "EISDIR" dst), d)
        | Some Directory, Directory => (Raises (OSError "ENOTEMPTY" dst), d)
        end
  end.

(** [shutil.move(src, dst)]: into [dst] when [dst] is a directory, under
    the name [src] has; never over an entry that is there already. *)
Definition shutil_move (src dst : string) (d : disk) : ending unit * disk :=
  match d !! dst with
  | Some Directory =>
      let real_dst := dst +:+ "/" +:+ Path.basename src in
      if bool_decide (is_Some (d !! real_dst))
      then (Raises (ShutilError ("Destination path '" +:+ real_dst
                                   +:+ "' already exists")), d)
      else os_rename src real_dst d
  | _ => os_rename src dst d
  end.

(** [filter(lambda x: "prior_cello_result" not in x, paths)] *)
Definition prior_marker : string := "prior_cello_result".

Definition not_archived (paths : list string) : list string :=
  List.filter (λ x, negb (Str.contains prior_marker x)) paths.

Definition check_for_prior_results (q : CelloQuery) (d : disk) : bool :=
  let dir_contents := glob_entries d (fmt (output_directory q)) "" in
  let dir_contents := not_archived dir_contents in
  bool_decide (1 < length dir_contents)%nat.

(** [for file in active_files: shutil.move(file, archive_dir)] *)
Fixpoint move_all (active_files : list string) (archive_dir : string) (d : disk)
    : ending unit * disk :=
  match active_files with
  | [] => (Returns (), d)
  | file :: rest =>
      match shutil_move file archive_dir d with
      | (Returns _, d') => move_all rest archive_dir d'
      | (Raises e, d') => (Raises e, d')
      end
  end.

(** [archive_prior_results]; [now] is the text of [datetime.datetime.now()]
    at the call, which holds no slash. *)
Definition archive_prior_results (now : string) (q : CelloQuery) (d : disk)
    : ending string * disk :=
  let archive_dir_name := "prior_cello_result_" +:+ now in
  let archive_dir := fmt (output_directory q) +:+ "/" +:+ archive_dir_name in
  match os_mkdir archive_dir d with
  | (Raises e, d') => (Raises e, d')
  | (Returns _, d') =>
      let active_files := glob_entries d' (fmt (output_directory q)) "" in
      let active_files := not_archived active_files in
      match move_all active_files archive_dir d' with
      | (Raises e, d'') => (Raises e, d'')
      | (Returns _, d'') => (Returns archive_dir, d'')
      end
  end.

(** *** [get_results]

    What the method works on: the disk and the text written to the
    terminal.  The container is an argument: the command line it is
    started with and the disk it finds give the disk it leaves and the
    text it writes to its standard output. *)
Record machine : Type := {
  files : disk;
  terminal : string;
}.

Definition container : Type := string → disk → disk * string.

Definition job (A : Type) : Type := machine → ending A * machine.

#[global] Instance job_ret : MRet job := λ A a m, (Returns a, m).
#[global] Instance job_bind : MBind job := λ A B f j m,
  match j m with
  | (Returns a, m') => f a m'
  | (Raises e, m') => (Raises e, m')
  end.

Definition on_files {A} (f : disk → ending A * disk) : job A :=
  λ m, let '(r, d) := f (files m) in (r, {| files := d; terminal := terminal m |}).

(** [print(line)] *)
Definition print (line : string) : job unit :=
  λ m, (Returns (),
        {| files := files m;
           terminal := terminal m +:+ line +:+ String Str.newline EmptyString |}).

(** [vars(self)]: the attributes in the order [__init__] assigns them,
    each with whether it [is None]. *)
Definition vars (q : CelloQuery) : list (string * bool) :=
  [("input_directory", bool_decide (input_directory q = None));
   ("output_directory", bool_decide (output_directory q = None));
   ("verilog_file", bool_decide (verilog_file q = None));
   ("compiler_options", bool_decide (compiler_options q = None));
   ("input_ucf", bool_decide (input_ucf q = None));
   ("input_sensors", bool_decide (input_sensors q = None));
   ("output_device", bool_decide (output_device q = None));
   ("logging", false)].

Fixpoint check_attributes (query_attributes : list (string * bool)) : ending unit :=
  match query_attributes with
  | [] => Returns ()
  | (query_attr, is_none) :: rest =>
      if is_none
      then Raises (Python (RuntimeError
                     ("Unable to submit request, required attribute " +:+ query_attr
                      +:+ " is not set.")))
      else check_attributes rest
  end.

Definition docker_cmd (q : CelloQuery) : string :=
  "docker run --rm "
  +:+ "-v " +:+ fmt (input_directory q) +:+ ":/root/input "
  +:+ "-v " +:+ fmt (output_directory q) +:+ ":/root/output"
  +:+ " -t cidarlab/cello-dnacompiler:latest java -classpath /root/app.jar "
  +:+ "org.cellocad.v2.DNACompiler.runtime.Main "
  +:+ "-inputNetlist /root/input/" +:+ fmt (verilog_file q) +:+ " "
  +:+ "-options /root/input/" +:+ fmt (compiler_options q) +:+ " "
  +:+ "-userConstraintsFile /root/input/" +:+ fmt (input_ucf q) +:+ " "
  +:+ "-inputSensorFile /root/input/" +:+ fmt (input_sensors q) +:+ " "
  +:+ "-outputDeviceFile /root/input/" +:+ fmt (output_device q) +:+ " "
  +:+ "-pythonEnv python "
  +:+ "-outputDir /root/output".

(** The process run to its end: with [logging] its output is copied to
    the terminal, otherwise [communicate] reads it and drops it. *)
Definition run_process (popen : container) (cmd : string) (copy : bool) : job unit :=
  λ m, let '(d, out) := popen cmd (files m) in
       (Returns (),
        {| files := d;
           terminal := if copy then terminal m +:+ out else terminal m |}).

Definition get_results (now : string) (popen : container) (q : CelloQuery) : job Z :=
  _ ← (λ m, (check_attributes (vars q), m));
  prior ← (λ m, (Returns (check_for_prior_results q (files m)), m));
  _ ← (if (prior : bool) then
         _ ← print "Prior results detected, moving to prevent clobber.";
         dest ← on_files (archive_prior_results now q);
         print ("Prior results move to " +:+ dest)
       else mret ());
  if logging q then
    _ ← run_process popen (docker_cmd q) true;
    mret 1
  else
    _ ← print "Executing Cello Query... (This may take a moment)";
    _ ← run_process popen (docker_cmd q) false;
    _ ← print "Cello Query Finished!";
    mret 0.
(** * Stand-ins for the library calls, for running the model

    The theorems below hold for every [Codec], [Numeric] and parser.  To
    run the model on concrete files one needs concrete ones.  These cover
    the texts of the examples and reject everything else, which the real
    libraries need not do: the examples only read answers that the real
    libraries give as well. *)

Module Fragment.

Fixpoint skip_ws (s : string) : string :=
  match s with
  | String a s' => if Ascii.is_space a then skip_ws s' else s
  | EmptyString => s
  end.

(** Python's [s.strip()] on ASCII white space. *)
Definition strip (s : string) : string :=
  String.rev (skip_ws (String.rev (skip_ws s))).

Definition digit_of (c : ascii) : option Z :=
  let n := nat_of_ascii c in
  if ((48 <=? n) && (n <=? 57))%nat then Some (Z.of_nat n - 48) else None.

(** Reads a run of digits: the number read so far, how many digits were
    read, and the rest of the text. *)
Fixpoint read_digits (s : string) (acc : Z) (count : nat) : Z * nat * string :=
  match s with
  | String a s' =>
      match digit_of a with
      | Some d => read_digits s' (10 * acc + d) (S count)
      | None => (acc, count, s)
      end
  | EmptyString => (acc, count, s)
  end.

(** [float(s)] on plain decimal literals: white space around, a sign,
    digits and an optional fraction, short enough for the quotient below
    to be the correctly rounded value. *)
Definition parse_decimal (s : string) : result float :=
  let s := strip s in
  let '(negative, s) :=
    match s with
    | String "-" r => (true, r)
    | String "+" r => (false, r)
    | _ => (false, s)
    end in
  let '(int_part, n_int, r) := read_digits s 0 0 in
  let '(mantissa, n_frac, r') :=
    match r with
    | String "." r1 => read_digits r1 int_part 0
    | _ => (int_part, 0%nat, r)
    end in
  if bool_decide (r' = "") && (0 <? n_int + n_frac)%nat
     && (mantissa <? 2 ^ 53) && (n_frac <=? 15)%nat
  then
    let m := PrimFloat.of_uint63 (Uint63.of_Z mantissa) in
    let p := PrimFloat.of_uint63 (Uint63.of_Z (10 ^ Z.of_nat n_frac)) in
    let q := PrimFloat.div m p in
    Ok (if negative then PrimFloat.opp q else q)
  else Raise ValueError.

(** The text between double quotes, without escapes. *)
Fixpoint read_quoted (s : string) : option (string * string) :=
  match s with
  | EmptyString => None
  | String a s' =>
      if Ascii.eqb a Str.dquote then Some (EmptyString, s')
      else if Ascii.eqb a "\" || Ascii.is_space a && negb (Ascii.eqb a " ") then None
      else '(body, rest) ← read_quoted s'; Some (String a body, rest)
  end.

Definition read_int (s : string) : option (Z * string) :=
  let '(negative, s) :=
    match s with
    | String "-" r => (true, r)
    | _ => (false, s)
    end in
  match s with
  | String "0" (String a _) =>
      if bool_decide (is_Some (digit_of a)) then None
      else Some (0, String.substring 1 (String.length s) s)
  | _ =>
      let '(n, count, r) := read_digits s 0 0 in
      if (0 <? count)%nat then Some (if negative then - n else n, r) else None
  end.

(** A JSON value at the head of [s]: objects with quoted keys, arrays,
    quoted strings, integers and the three literals. *)
Fixpoint parse_value (fuel : nat) (s : string) : option (value * string) :=
  match fuel with
  | O => None
  | S fuel' =>
      match s with
      | String "[" r =>
          match skip_ws r with
          | String "]" r' => Some (VList [], r')
          | r' => parse_elements fuel' r' []
          end
      | String "{" r =>
          match skip_ws r with
          | String "}" r' => Some (VDict [], r')
          | r' => parse_members fuel' r' []
          end
      | String "034" r => '(body, r') ← read_quoted r; Some (VStr body, r')
      | _ =>
          if Str.startswith "true" s then Some (VBool true, String.substring 4 (String.length s) s)
          else if Str.startswith "false" s then Some (VBool false, String.substring 5 (String.length s) s)
          else if Str.startswith "null" s then Some (VNone, String.substring 4 (String.length s) s)
          else '(z, r) ← read_int s; Some (VInt z, r)
      end
  end
with parse_elements (fuel : nat) (s : string) (acc : list value)
    : option (value * string) :=
  match fuel with
  | O => None
  | S fuel' =>
      '(v, r) ← parse_value fuel' s;
      match skip_ws r with
      | String "," r' => parse_elements fuel' (skip_ws r') (acc ++ [v])
      | String "]" r' => Some (VList (acc ++ [v]), r')
      | _ => None
      end
  end
with parse_members (fuel : nat) (s : string) (acc : dict value)
    : option (value * string) :=
  match fuel with
  | O => None
  | S fuel' =>
      match s with
      | String "034" r =>
          '(key, r) ← read_quoted r;
          match skip_ws r with
          | String ":" r =>
              '(v, r) ← parse_value fuel' (skip_ws r);
              match skip_ws r with
              | String "," r' =>
                  parse_members fuel' (skip_ws r') (dict_setitem acc key v)
              | String "}" r' => Some (VDict (dict_setitem acc key v), r')
              | _ => None
              end
          | _ => None
          end
      | _ => None
      end
  end.

Definition is_letter (c : ascii) : bool :=
  let n := nat_of_ascii c in
  ((65 <=? n) && (n <=? 90) || (97 <=? n) && (n <=? 122))%nat.

Fixpoint all_letters (s : string) : bool :=
  match s with
  | EmptyString => true
  | String a s' => is_letter a && all_letters s'
  end.

(** A text that is one plain word of letters: the YAML 1.1 keywords
    resolve to [None] and the booleans, any other word to itself. *)
Definition parse_word (text : string) : option value :=
  if bool_decide (text ∈ ["null"; "Null"; "NULL"]) then Some VNone
  else if bool_decide (text ∈ ["true"; "True"; "TRUE"; "yes"; "Yes"; "YES"; "on"; "On"; "ON"])
  then Some (VBool true)
  else if bool_decide (text ∈ ["false"; "False"; "FALSE"; "no"; "No"; "NO"; "off"; "Off"; "OFF"])
  then Some (VBool false)
  else if negb (bool_decide (text = "")) && all_letters text then Some (VStr text)
  else None.

(** [yaml.load] on a JSON text or on a single plain word. *)
Definition load (text : string) : result value :=
  let body := strip text in
  match parse_value (2 * String.length body + 2) body with
  | Some (v, EmptyString) => Ok v
  | _ =>
      match parse_word body with
      | Some v => Ok v
      | None => Raise YAMLError
      end
  end.

Definition plain (s : string) : bool :=
  forallb (λ c, let n := nat_of_ascii c in
                (32 <=? n)%nat && (n <? 127)%nat
                && negb (Ascii.eqb c Str.dquote) && negb (Ascii.eqb c "\"))
          (list_ascii_of_string s).

Definition join (sep : string) (l : list string) : string :=
  match l with
  | [] => ""
  | x :: l' => fold_left (λ acc y, acc +:+ sep +:+ y) l' x
  end.

Definition quote (s : string) : string :=
  String Str.dquote (s +:+ String Str.dquote EmptyString).

(** [json.dumps] on documents without floats and without characters that
    need an escape; [None] on the others. *)
Fixpoint dumps (v : value) : option string :=
  let fix dump_list (l : list value) : option (list string) :=
    match l with
    | [] => Some []
    | x :: l' => s ← dumps x; r ← dump_list l'; Some (s :: r)
    end in
  let fix dump_items (d : list (string * value)) : option (list string) :=
    match d with
    | [] => Some []
    | (k, x) :: d' =>
        s ← dumps x; r ← dump_items d';
        if plain k then Some ((quote k +:+ ": " +:+ s) :: r) else None
    end in
  match v with
  | VNone => Some "null"
  | VBool b => Some (if b then "true" else "false")
  | VInt z => Some (pretty z)
  | VFloat _ => None
  | VStr s => if plain s then Some (quote s) else None
  | VList l => r ← dump_list l; Some ("[" +:+ join ", " r +:+ "]")
  | VDict d => r ← dump_items d; Some ("{" +:+ join ", " r +:+ "}")
  end.

(** [numpy.genfromtxt] on rows of the form [label,item,...,item], each
    item read by [cell]; the array of a single row has dimension 0. *)
Definition chomp (line : string) : string :=
  String.rev (match String.rev line with
              | String a r => if Ascii.eqb a Str.newline then r else String a r
              | EmptyString => EmptyString
              end).

Fixpoint read_cells {V} (cell : string → result V) (items : list string)
    : result (list V) :=
  match items with
  | [] => Ok []
  | x :: rest => v ← cell x; vs ← read_cells cell rest; Ok (v :: vs)
  end.

Fixpoint read_rows {V} (cell : string → result V) (lines : list string)
    : result (list (string * list V)) :=
  match lines with
  | [] => Ok []
  | line :: rest =>
      match Str.split Str.comma (chomp line) with
      | [] => Raise ValueError
      | label :: items =>
          vs ← read_cells cell items;
          rows ← read_rows cell rest;
          Ok ((label, vs) :: rows)
      end
  end.

Definition genfromtxt {V} (cell : string → result V) : table V :=
  λ text,
    rows ← read_rows cell (Str.lines text);
    Ok (match rows with
        | [record] => Array0d record
        | _ => Array1d rows
        end).

Definition bool_cell (s : string) : result bool :=
  if bool_decide (s ∈ ["true"; "True"; "TRUE"]) then Ok true
  else if bool_decide (s ∈ ["false"; "False"; "FALSE"]) then Ok false
  else Raise ValueError.

Definition codec : Codec :=
  {| yaml_load := load; json_dumps := λ v, default "" (dumps v) |}.

(** Binary64 arithmetic whose [math.log] is only ever asked about [+inf],
    NaN and numbers outside its domain. *)
Definition numeric : Numeric float := float64 (λ _, nan).

End Fragment.

(** * The spec's wording, where it differs from the code *)

(** 4.1: the last comma is excised and the text after it is kept. *)
Definition spec_excise_last_comma (text : string) : string :=
  let idx := Str.rfind Str.comma text in
  if idx <? 0 then text
  else Str.slice_to text idx +:+
       String.substring (Z.to_nat idx + 1) (String.length text) text.

(** 4.1: the last comma is a trailing one when only closing delimiters and
    white space follow it. *)
Definition ends_in_trailing_comma (text : string) : bool :=
  let idx := Str.rfind Str.comma text in
  (0 <=? idx)
  && forallb (λ c, Ascii.is_space c || Ascii.eqb c "}" || Ascii.eqb c "]")
       (list_ascii_of_string
          (String.substring (Z.to_nat idx + 1) (String.length text) text)).

(** 4.5: the final white-space-delimited token of a line. *)
Definition spec_final_token (line : string) : option string :=
  last (String.words line).

(** 4.4: a repressor key starts with the sentinel. *)
Definition repressor_key (key : string) : bool :=
  match key with
  | String c _ => Ascii.eqb c Str.dollar
  | EmptyString => false
  end.

(** 4.4: the activity values at the positions where the truth row holds
    [want]: the "on" subset for [true], the "off" subset for [false]. *)
Definition values_at {num} (want : bool) (truth_table : list bool)
    (activity_values : list num) : list num :=
  (List.filter (λ p, Bool.eqb p.1 want) (zip truth_table activity_values)).*2.

(** 4.3: an entry of [nodes] whose [name] is the key, and its
    [deviceName]. *)
Definition node_matches (key : string) (node : value) : bool :=
  match getitem node "name" with
  | Ok name => eq_str name key
  | Raise _ => false
  end.

Definition device_of (node : value) : option value :=
  match getitem node "deviceName" with
  | Ok device => Some device
  | Raise _ => None
  end.

(** 4.3 in the spec's wording: the first matching entry decides. *)
Definition spec_first_match (key : string) (nodes : list value) : option value :=
  head (List.filter (node_matches key) nodes) ≫= device_of.

(** What the code does: the last matching entry decides. *)
Definition last_match (key : string) (nodes : list value) : option value :=
  last (List.filter (node_matches key) nodes) ≫= device_of.

(** An entry the resolver can read: a mapping with a [name], and with a
    [deviceName] when the name is a string. *)
Definition node_ok (node : value) : bool :=
  match getitem node "name" with
  | Ok (VStr _) => bool_decide (is_Some (device_of node))
  | Ok _ => true
  | Raise _ => false
  end.

(** * Example data *)

Module Demo.


Definition nl : string := String Str.newline EmptyString.

(** A netlist in which two entries carry the name [$g1]. *)
Definition netlist_doc : value :=
  VDict [("name", VStr "and");
         ("nodes", VList [
            VDict [("name", VStr "$g1"); ("deviceName", VStr "P1_PhlF")];
            VDict [("name", VStr "in0"); ("deviceName", VStr "LacI_sensor")];
            VDict [("name", VStr "$g1"); ("deviceName", VStr "A1_AmtR")]])].

(** The netlist as the tool writes it: the document, a comma, a newline. *)
Definition netlist_text : string :=
  @json_dumps Fragment.codec netlist_doc +:+ "," +:+ nl.

(** An output directory whose activity table lacks the key [in1]. *)
Definition results_mismatch : filesystem :=
  list_to_map [
    ("out/and_logic.csv", "$g1,true,false" +:+ nl +:+ "in0,true,true" +:+ nl
                          +:+ "in1,false,true" +:+ nl);
    ("out/and_activity.csv", "$g1,5.0,1.0" +:+ nl +:+ "in0,3.0,4.0" +:+ nl);
    ("out/and_outputNetlist.json", netlist_text);
    ("out/log.log", "INFO SimulatedAnnealing - Score: 12.5" +:+ nl)].

(** The directory of the example: the logic table has the keys [$g1] and
    [in0], the activity table the single row of [$g1]. *)
Definition results_single_row : filesystem :=
  list_to_map [
    ("out/and_logic.csv", "$g1,true,false" +:+ nl +:+ "in0,true,true" +:+ nl);
    ("out/and_activity.csv", "$g1,5.0,1.0" +:+ nl);
    ("out/and_outputNetlist.json", netlist_text);
    ("out/log.log", "INFO SimulatedAnnealing - Score: 12.5" +:+ nl)].

Definition sensor_rows (signal : string) : list value :=
  [VDict [("collection", VStr "input_sensors"); ("name", VStr (signal +:+ "_sensor"));
          ("model", VStr (signal +:+ "_sensor_model"))];
   VDict [("collection", VStr "models"); ("name", VStr (signal +:+ "_sensor_model"))];
   VDict [("collection", VStr "structures");
          ("name", VStr (signal +:+ "_sensor_structure"))]].

(** A sensor file that lists the three sensors first, then their models,
    then their structures. *)
Definition sensors_doc : value :=
  let rows := sensor_rows <$> ["A"; "B"; "C"] in
  VList ((rows ≫= take 1) ++ (rows ≫= λ r, take 1 (drop 1 r)) ++ (rows ≫= drop 2)).

Definition query : CelloQuery :=
  {| input_directory := Some "in"; output_directory := Some "out";
     verilog_file := Some "and.v"; compiler_options := Some "options.csv";
     input_ucf := Some "Eco.UCF.json"; input_sensors := Some "Eco.input.json";
     output_device := Some "Eco.output.json"; logging := false |}.

Definition inputs : filesystem :=
  {["in/Eco.input.json" := @json_dumps Fragment.codec sensors_doc]}.

End Demo.

(** * Further wording and example data *)

(** The rows of a table that carry the label [key]. *)
Definition rows_labelled {V} (key : string) (rows : list (string * list V))
    : list (string * list V) :=
  List.filter (λ row, String.eqb row.1 key) rows.

Module Demo2.

(** A table in which the label [$g1] occurs on two rows. *)
Definition table_text : string :=
  "$g1,true,false" +:+ Demo.nl +:+ "in0,true,true" +:+ Demo.nl
  +:+ "$g1,false,false" +:+ Demo.nl.

Definition tables : filesystem :=
  {["out/and_logic.csv" := table_text]}.

End Demo2.

Module Demo3.

(** An output directory whose netlist has no [nodes] entry. *)
Definition no_nodes : filesystem :=
  {["out/and_outputNetlist.json" :=
      @json_dumps Fragment.codec (VDict [("name", VStr "and")]) +:+ "," +:+ Demo.nl]}.

End Demo3.

Module Demo4.

(** Binary64 arithmetic whose [math.log] is exact at [1.0], where the
    logarithm is zero, and not modelled elsewhere. *)
Definition numeric : Numeric float :=
  float64 (λ a, if PrimFloat.eqb a 1%float then 0%float else nan).

(** A complete output directory: both tables list [$g1] and [in0]. *)
Definition results : filesystem :=
  list_to_map [
    ("out/and_logic.csv", "$g1,true,false" +:+ Demo.nl +:+ "in0,true,true" +:+ Demo.nl);
    ("out/and_activity.csv", "$g1,5.0,5.0" +:+ Demo.nl +:+ "in0,3.0,4.0" +:+ Demo.nl);
    ("out/and_outputNetlist.json", Demo.netlist_text);
    ("out/log.log", "INFO start" +:+ Demo.nl
                    +:+ "INFO SimulatedAnnealing - Score: 12.5" +:+ Demo.nl)].

(** The same directory with a longer log. *)
Definition results_longer_log : filesystem :=
  <["out/log.log" := "INFO start" +:+ Demo.nl
                     +:+ "INFO SimulatedAnnealing - Score: 12.5" +:+ Demo.nl
                     +:+ "INFO SimulatedAnnealing - Score: 99" +:+ Demo.nl
                     +:+ "INFO done"]> results.

End Demo4.

(** The entries of [part_names] whose part is the string [part]. *)
Definition entries_of_part (part : string) (part_names : dict value)
    : dict value :=
  List.filter (λ entry, eq_str entry.2 part) part_names.

Definition string_valued (part_names : dict value) : Prop :=
  Forall (λ entry : string * value, ∃ s, entry.2 = VStr s) part_names.

Definition string_keyed (d : vdict) : Prop :=
  Forall (λ entry : value * string, ∃ s, entry.1 = VStr s) d.

(** A row of the sensor file that [get_input_signals] reports, and the
    signal it reports for it. *)
Definition is_sensor_row (row : value) : bool :=
  match getitem row "collection" with
  | Ok collection => eq_str collection "input_sensors"
  | Raise _ => false
  end.

Definition row_signal (row : value) : option string :=
  match getitem row "name" with
  | Ok (VStr s) => head (Str.split Str.underscore s)
  | _ => None
  end.

(** A row [get_input_signals] can read: a mapping with a [collection],
    and with a string [name] when the collection is [input_sensors]. *)
Definition sensor_row_ok (row : value) : bool :=
  match getitem row "collection" with
  | Ok collection =>
      if eq_str collection "input_sensors"
      then bool_decide (is_Some (row_signal row)) else true
  | Raise _ => false
  end.

(** The text of [s] before its first [c]; all of [s] when it has none. *)
Fixpoint before (c : ascii) (s : string) : string :=
  match s with
  | EmptyString => EmptyString
  | String a s' => if Ascii.eqb a c then EmptyString else String a (before c s')
  end.

(** A row that one pass of [_prune_other_sensors] reads without error and
    keeps: it is of another collection, or its name is asked for. *)
Definition kept_by_pass (suffix target_collection : string)
    (in_signals : list string) (row : value) : bool :=
  match getitem row "collection" with
  | Ok collection =>
      if eq_str collection target_collection then
        match getitem row "name" with
        | Ok name => in_strs name ((λ sig, sig +:+ suffix) <$> in_signals)
        | Raise _ => false
        end
      else true
  | Raise _ => false
  end.

Definition kept_by_prune (in_signals : list string) (row : value) : bool :=
  kept_by_pass "_sensor" "input_sensors" in_signals row
  && kept_by_pass "_sensor_model" "models" in_signals row
  && kept_by_pass "_sensor_structure" "structures" in_signals row.

(** A row that one pass of [_prune_other_sensors] reads without error and
    removes: it is of the target collection and its name is not asked for. *)
Definition removed_by_pass (suffix target_collection : string)
    (in_signals : list string) (row : value) : bool :=
  match getitem row "collection" with
  | Ok collection =>
      eq_str collection target_collection
      && match getitem row "name" with
         | Ok name => negb (in_strs name ((λ sig, sig +:+ suffix) <$> in_signals))
         | Raise _ => false
         end
  | Raise _ => false
  end.

(** The rows a pass removes stand alone: every row can be read when the
    loop reaches it, and the row that follows a removed one is a row the
    pass keeps. *)
Fixpoint isolated (keep remove : value → bool) (rows : list value) : bool :=
  match rows with
  | [] => true
  | row :: rest =>
      if keep row then isolated keep remove rest
      else remove row
           && match rest with
              | [] => true
              | next :: rest' => keep next && isolated keep remove rest'
              end
  end.

Definition isolated_pass (suffix target_collection : string)
    (in_signals : list string) (rows : list value) : bool :=
  isolated (kept_by_pass suffix target_collection in_signals)
           (removed_by_pass suffix target_collection in_signals) rows.

(** The removed rows stand alone in each of the three passes of [prune],
    each pass reading the rows the pass before it left. *)
Definition isolated_prune (in_signals : list string) (rows : list value) : bool :=
  let rows1 := List.filter (kept_by_pass "_sensor" "input_sensors" in_signals) rows in
  let rows2 := List.filter (kept_by_pass "_sensor_model" "models" in_signals) rows1 in
  isolated_pass "_sensor" "input_sensors" in_signals rows
  && isolated_pass "_sensor_model" "models" in_signals rows1
  && isolated_pass "_sensor_structure" "structures" in_signals rows2.

(** A sensor file that lists, sensor by sensor, the row of the sensor, of
    its model and of its structure. *)
Module Demo5.

Definition rows : list value :=
  Demo.sensor_rows "A" ++ Demo.sensor_rows "B" ++ Demo.sensor_rows "C".

Definition inputs : filesystem :=
  {[ "in/Eco.input.json" := @json_dumps Fragment.codec (VList rows) ]}.

End Demo5.

(** ** The output directory *)

(** An entry that [check_for_prior_results] counts and
    [archive_prior_results] moves: it exists, lies directly in [dir], is
    not hidden, and its path does not hold the marker. *)
Definition active_entry (d : disk) (dir path : string) : bool :=
  bool_decide (is_Some (d !! path))
  && glob_match dir "" path
  && negb (Str.contains prior_marker path).

(** The path of the archive directory. *)
Definition archive_path (q : CelloQuery) (now : string) : string :=
  fmt (output_directory q) +:+ "/" +:+ "prior_cello_result_" +:+ now.

(** Where the entry at [path] is after the paths [moved], which lie
    directly in [dir], went into [archive_dir]: an entry at or below a
    moved path is below the archive directory, under the name it had from
    [dir] on; every other entry is where it was. *)
Definition relocate (dir archive_dir : string) (moved : list string)
    (path : string) : string :=
  match Str.strip_prefix (dir +:+ "/") path with
  | Some s =>
      if bool_decide (dir +:+ "/" +:+ before Path.slash s ∈ moved)
      then archive_dir +:+ "/" +:+ s else path
  | None => path
  end.

(** The same with the active entries of [d] for [moved]. *)
Definition archived_path (d : disk) (dir archive_dir path : string) : string :=
  match Str.strip_prefix (dir +:+ "/") path with
  | Some s =>
      if active_entry d dir (dir +:+ "/" +:+ before Path.slash s)
      then archive_dir +:+ "/" +:+ s else path
  | None => path
  end.

(** A path directly in [dir] that can go into the archive directory
    [dir/a]: its name is not empty, holds no slash and is not [a]. *)
Definition archivable (dir a path : string) : Prop :=
  ∃ n, path = dir +:+ "/" +:+ n
       ∧ n ≠ EmptyString ∧ Str.has_char Path.slash n = false ∧ n ≠ a.

(** Nothing stands where the entries at and below the paths [moved] are
    to go. *)
Definition destinations_free (d : disk) (dir a : string) (moved : list string) : Prop :=
  ∀ s, dir +:+ "/" +:+ before Path.slash s ∈ moved →
       d !! ((dir +:+ "/" +:+ a) +:+ "/" +:+ s) = None.

(** No entry of the disk stands at the path [root] or below it. *)
Definition nothing_below (d : disk) (root : string) : bool :=
  forallb (λ k, bool_decide (Path.below root k = None)) (map_to_list d).*1.

(** The first attribute, in the order of [__init__], that is [None]. *)
Definition first_unset (q : CelloQuery) : option string :=
  if bool_decide (input_directory q = None) then Some "input_directory"
  else if bool_decide (output_directory q = None) then Some "output_directory"
  else if bool_decide (verilog_file q = None) then Some "verilog_file"
  else if bool_decide (compiler_options q = None) then Some "compiler_options"
  else if bool_decide (input_ucf q = None) then Some "input_ucf"
  else if bool_decide (input_sensors q = None) then Some "input_sensors"
  else if bool_decide (output_device q = None) then Some "output_device"
  else None.

Definition msg_unset (query_attr : string) : string :=
  "Unable to submit request, required attribute " +:+ query_attr +:+ " is not set.".

(** An output directory with two results of a run, a hidden file, a
    directory of its own and an archive of an earlier run. *)
Module Demo6.

Definition out : disk :=
  {[ "out" := Directory;
     "out/and_logic.csv" := File "logic";
     "out/log.log" := File "log";
     "out/.cache" := File "hidden";
     "out/plots" := Directory;
     "out/plots/response.png" := File "png";
     "out/prior_cello_result_2020-01-01" := Directory;
     "out/prior_cello_result_2020-01-01/log.log" := File "old log" ]}.

Definition now : string := "2020-11-03 10:15:00.000001".

(** A container that writes a log and says so. *)
Definition popen : container :=
  λ cmd d, (<["out/log.log" := File cmd]> d, "compiled").

Definition start : machine := {| files := out; terminal := "" |}.

(** An output directory with the log of one run and an earlier archive. *)
Definition lone : machine :=
  {| files := {[ "out" := Directory;
                 "out/log.log" := File "log";
                 "out/prior_cello_result_2020-01-01" := Directory ]};
     terminal := "" |}.

End Demo6.
(** * The model on small inputs *)

Example rfind_ex : Str.rfind Str.comma "a,b,c" = 3.
Proof. reflexivity. Qed.

Example slice_ex : Str.slice_to "abcd" (-1) = "abc".
Proof. reflexivity. Qed.

Example split_ex : Str.split Str.space "a b  c" = ["a"; "b"; ""; "c"].
Proof. reflexivity. Qed.

Example lines_ex : Str.lines (String "a" (String Str.newline "b")) = [String "a" (String Str.newline ""); "b"].
Proof. reflexivity. Qed.

Example py_eq_ex :
  py_eq (VDict [("a", VInt 1); ("b", VList [VBool true])])
        (VDict [("b", VList [VInt 1]); ("a", VFloat 1%float)]) = true.
Proof. reflexivity. Qed.

(** * Facts about the string methods *)

Section StrFacts.

Lemma app_nil (t : string) : "" +:+ t = t.
Proof. reflexivity. Qed.

Lemma app_cons (a : ascii) (s t : string) :
  String a s +:+ t = String a (s +:+ t).
Proof. reflexivity. Qed.

Lemma remove_char_app (c : ascii) (s t : string) :
  Str.remove_char c (s +:+ t) = Str.remove_char c s +:+ Str.remove_char c t.
Proof.
  induction s as [|a s IH]; [done|].
  rewrite app_cons. simpl. destruct (Ascii.eqb a c); [done|].
  by rewrite app_cons, IH.
Qed.

Lemma has_char_remove_char (c d : ascii) (s : string) :
  c ≠ d → Str.has_char c (Str.remove_char d s) = Str.has_char c s.
Proof.
  intros Hcd. induction s as [|a s IH]; [done|]. simpl.
  destruct (Ascii.eqb_spec a d) as [->|Had]; simpl.
  - rewrite IH. by destruct (Ascii.eqb_spec d c) as [->|].
  - by rewrite IH.
Qed.

Lemma rfind_absent (c : ascii) (s : string) :
  Str.has_char c s = false → Str.rfind c s = -1.
Proof.
  induction s as [|a s IH]; [done|]. simpl.
  intros [Ha Hs]%orb_false_elim. by rewrite (IH Hs), Ha.
Qed.

Lemma rfind_bounds (c : ascii) (s : string) : -1 ≤ Str.rfind c s < Str.len s.
Proof.
  unfold Str.len. induction s as [|a s IH]; simpl; [lia|].
  destruct (Z.leb_spec 0 (Str.rfind c s)); [lia|].
  destruct (Ascii.eqb a c); lia.
Qed.

Lemma rfind_last (c : ascii) (pre post : string) :
  Str.has_char c post = false →
  Str.rfind c (pre +:+ String c post) = Str.len pre.
Proof.
  intros Hpost. unfold Str.len.
  induction pre as [|a pre IH].
  - rewrite app_nil. simpl. by rewrite (rfind_absent _ _ Hpost), Ascii.eqb_refl.
  - rewrite app_cons. simpl Str.rfind. rewrite IH.
    destruct (Z.leb_spec 0 (Z.of_nat (String.length pre))); simpl; lia.
Qed.

Lemma take_app (pre rest : string) :
  Str.take (String.length pre) (pre +:+ rest) = pre.
Proof.
  induction pre as [|a pre IH].
  - by destruct rest.
  - rewrite app_cons. simpl. by rewrite IH.
Qed.

Lemma slice_to_app (pre rest : string) :
  Str.slice_to (pre +:+ rest) (Str.len pre) = pre.
Proof.
  unfold Str.slice_to, Str.len.
  destruct (Z.ltb_spec (Z.of_nat (String.length pre)) 0); [lia|].
  by rewrite Nat2Z.id, take_app.
Qed.

End StrFacts.

(** * 4.1 The relaxed-format reader: what the trailing-comma flag does *)

(** The text handed to the parser is the part of the tab-stripped text
    before its last comma. *)
Lemma fix_text_cut (pre post : string) :
  Str.has_char Str.comma post = false →
  fix_text true (pre +:+ String Str.comma post) = Str.remove_char Str.tab pre.
Proof.
  intros Hpost. unfold fix_text.
  rewrite remove_char_app. simpl Str.remove_char.
  rewrite rfind_last by (by rewrite has_char_remove_char).
  apply slice_to_app.
Qed.

Lemma reader_cut `{Codec} (fs : filesystem) (input_fp pre post : string) :
  fs !! input_fp = Some (pre +:+ String Str.comma post) →
  Str.has_char Str.comma post = false →
  _fix_input_json fs input_fp true = yaml_load (Str.remove_char Str.tab pre).
Proof.
  intros Hfile Hpost. unfold _fix_input_json, open_read. rewrite Hfile.
  by rewrite <- (fix_text_cut pre post Hpost).
Qed.

(** C1 (as stated, refuted): on the text [{a: 1,}] the reader does not
    excise the comma and keep the closing brace; it hands the parser the
    text cut at the comma, brace gone. *)
Lemma fix_text_drops_closing_delimiter :
  fix_text true "{a: 1,}" = "{a: 1"
  ∧ spec_excise_last_comma (Str.remove_char Str.tab "{a: 1,}") = "{a: 1}"
  ∧ fix_text true "{a: 1,}" ≠ spec_excise_last_comma (Str.remove_char Str.tab "{a: 1,}").
Proof. by vm_compute. Qed.

(** C1 (amended): with [final_trailing_comma] set, [_fix_input_json] parses
    exactly the part of the tab-stripped text that precedes the last
    comma; the comma and every character after it are dropped. *)
Theorem fix_input_json_cuts_at_last_comma `{Codec} (fs : filesystem)
    (input_fp pre post : string) :
  fs !! input_fp = Some (pre +:+ String Str.comma post) →
  Str.has_char Str.comma post = false →
  _fix_input_json fs input_fp true = yaml_load (Str.remove_char Str.tab pre).
Proof.
  intros Hfile Hpost. by apply reader_cut with post.
Qed.

Lemma fix_input_json_cuts_at_last_comma_witness :
  ({["netlist.json" := "hello"%string +:+ String Str.comma (String Str.newline "")]}
     : filesystem) !! "netlist.json"
    = Some ("hello" +:+ String Str.comma (String Str.newline ""))
  ∧ Str.has_char Str.comma (String Str.newline "") = false
  ∧ _fix_input_json (H := Fragment.codec)
      {["netlist.json" := "hello"%string +:+ String Str.comma (String Str.newline "")]}
      "netlist.json" true = Ok (VStr "hello").
Proof.
  split; [by vm_compute|]. split; [by vm_compute|].
  rewrite (fix_input_json_cuts_at_last_comma (H := Fragment.codec) _ _ "hello"
             (String Str.newline "")); by vm_compute.
Defined.

(** C9 (as stated, refuted): neither text ends in a trailing comma, yet
    with the flag set the reader returns a document, and not the one the
    text denotes: [hello, world] is read as [hello], [12] as [1]. *)
Lemma reader_accepts_text_without_trailing_comma :
  ends_in_trailing_comma "hello, world" = false
  ∧ _fix_input_json (H := Fragment.codec) {["f" := "hello, world"]} "f" true
    = Ok (VStr "hello")
  ∧ ends_in_trailing_comma "12" = false
  ∧ _fix_input_json (H := Fragment.codec) {["f" := "12"]} "f" false = Ok (VInt 12)
  ∧ _fix_input_json (H := Fragment.codec) {["f" := "12"]} "f" true = Ok (VInt 1).
Proof. by vm_compute. Qed.

(** C9 (amended): with the flag set the reader does not look at what
    follows the last comma.  Its outcome, document or failure, is the
    parser's outcome on the tab-stripped text before that comma, so two
    texts that differ only after their last comma get the same outcome,
    whether the comma is a trailing one or not; the reader fails only
    when the parser rejects that prefix. *)
Theorem reader_blind_after_last_comma `{Codec} (fs1 fs2 : filesystem)
    (fp1 fp2 pre post1 post2 : string) :
  fs1 !! fp1 = Some (pre +:+ String Str.comma post1) →
  fs2 !! fp2 = Some (pre +:+ String Str.comma post2) →
  Str.has_char Str.comma post1 = false →
  Str.has_char Str.comma post2 = false →
  _fix_input_json fs1 fp1 true = _fix_input_json fs2 fp2 true
  ∧ raised (_fix_input_json fs1 fp1 true)
    = raised (yaml_load (Str.remove_char Str.tab pre)).
Proof.
  intros Hf1 Hf2 Hp1 Hp2.
  rewrite (reader_cut fs1 fp1 pre post1), (reader_cut fs2 fp2 pre post2) by done.
  done.
Qed.

Lemma reader_blind_after_last_comma_witness :
  let trailing := "hello"%string +:+ String Str.comma (String Str.newline "") in
  let inner := "hello"%string +:+ String Str.comma " world" in
  ends_in_trailing_comma trailing = true
  ∧ ends_in_trailing_comma inner = false
  ∧ _fix_input_json (H := Fragment.codec) {["a" := trailing]} "a" true
    = _fix_input_json (H := Fragment.codec) {["b" := inner]} "b" true.
Proof.
  split; [by vm_compute|]. split; [by vm_compute|].
  apply (reader_blind_after_last_comma (H := Fragment.codec) _ _ "a" "b" "hello"
           (String Str.newline "") " world"); by vm_compute.
Defined.

(** * 4.5 The circuit score *)

Lemma split_last (sep : ascii) (s : string) :
  ∃ token, last (Str.split sep s) = Some token.
Proof.
  induction s as [|a s [token IH]]; simpl; [by eexists|].
  destruct (Ascii.eqb a sep).
  - exists token. by destruct (Str.split sep s).
  - destruct (Str.split sep s) as [|w [|w' ws]]; simpl in *; eauto.
Qed.

Lemma scan_log_skip {num} (py_float : float_parser num) (before rest : list string) :
  Forall (λ l, Str.contains marker l = false) before →
  scan_log py_float (before ++ rest) = scan_log py_float rest.
Proof.
  induction 1 as [|l before Hl _ IH]; [done|].
  simpl. by rewrite Hl.
Qed.

Lemma scan_log_hit {num} (py_float : float_parser num) (line : string)
    (after : list string) :
  Str.contains marker line = true →
  ∃ token, last (Str.split Str.space line) = Some token
           ∧ scan_log py_float (line :: after) = py_float token.
Proof.
  intros Hline. destruct (split_last Str.space line) as [token Htoken].
  exists token. split; [done|].
  simpl. rewrite Hline. unfold list_last. by rewrite Htoken.
Qed.

Lemma parse_log_file_single {num} (py_float : float_parser num)
    (fs : filesystem) (output_dir path text : string) :
  glob fs output_dir ".log" = [path] →
  fs !! path = Some text →
  _parse_log_file py_float fs output_dir = scan_log py_float (Str.lines text).
Proof.
  intros Hglob Hfile. unfold _parse_log_file, open_read.
  rewrite Hglob. simpl. by rewrite Hfile.
Qed.

(** C6 (as stated, refuted): the line ends in a space before its newline.
    Its final white-space-delimited token is [7.5], but the code splits at
    single spaces, hands [float] the newline alone and fails. *)
Lemma log_token_is_space_delimited :
  let line := "INFO SimulatedAnnealing - Score: 7.5 "%string +:+ String Str.newline "" in
  let fs : filesystem := {["out/run.log" := line]} in
  glob fs "out" ".log" = ["out/run.log"]
  ∧ Str.contains marker line = true
  ∧ spec_final_token line = Some "7.5"
  ∧ Fragment.parse_decimal "7.5" = Ok 7.5%float
  ∧ _parse_log_file Fragment.parse_decimal fs "out" = Raise ValueError.
Proof. by vm_compute. Qed.

(** C6 (amended): when the output directory holds exactly one log file,
    [_parse_log_file] returns [float] of the last piece of the first line,
    in file order, that contains the marker, the line being split at
    single space characters; and it raises the module's "Unable to locate
    Circuit Score" error when no line contains the marker. *)
Theorem parse_log_file_first_marker_line {num} (py_float : float_parser num)
    (fs : filesystem) (output_dir path text : string) :
  glob fs output_dir ".log" = [path] →
  fs !! path = Some text →
  (∀ before line after,
     Str.lines text = before ++ line :: after →
     Forall (λ l, Str.contains marker l = false) before →
     Str.contains marker line = true →
     ∃ token, last (Str.split Str.space line) = Some token
              ∧ _parse_log_file py_float fs output_dir = py_float token)
  ∧ (Forall (λ l, Str.contains marker l = false) (Str.lines text) →
     _parse_log_file py_float fs output_dir = Raise (RuntimeError msg_no_score)).
Proof.
  intros Hglob Hfile.
  rewrite (parse_log_file_single _ _ _ _ _ Hglob Hfile). split.
  - intros before line after -> Hbefore Hline.
    rewrite scan_log_skip by done. by apply scan_log_hit.
  - intros Hnone. rewrite <- (app_nil_r (Str.lines text)).
    by rewrite scan_log_skip.
Qed.

Lemma parse_log_file_first_marker_line_witness :
  let l1 := "INFO start"%string +:+ String Str.newline "" in
  let l2 := "INFO SimulatedAnnealing - Score: 12.5"%string +:+ String Str.newline "" in
  let l3 := "INFO SimulatedAnnealing - Score: 13.5"%string +:+ String Str.newline "" in
  let fs : filesystem := {["out/run.log" := l1 +:+ l2 +:+ l3]} in
  glob fs "out" ".log" = ["out/run.log"]
  ∧ fs !! "out/run.log" = Some (l1 +:+ l2 +:+ l3)
  ∧ Str.lines (l1 +:+ l2 +:+ l3) = [l1] ++ l2 :: [l3]
  ∧ _parse_log_file Fragment.parse_decimal fs "out" = Ok 12.5%float.
Proof.
  intros l1 l2 l3 fs.
  assert (Hglob : glob fs "out" ".log" = ["out/run.log"]) by (by vm_compute).
  assert (Hfile : fs !! "out/run.log" = Some (l1 +:+ l2 +:+ l3)) by (by vm_compute).
  assert (Hlines : Str.lines (l1 +:+ l2 +:+ l3) = [l1] ++ l2 :: [l3]) by (by vm_compute).
  refine (conj Hglob (conj Hfile (conj Hlines _))).
  destruct (parse_log_file_first_marker_line Fragment.parse_decimal
              fs "out" "out/run.log" _ Hglob Hfile) as [Hfirst _].
  destruct (Hfirst [l1] l2 [l3] Hlines) as (token & Htoken & ->).
  - repeat constructor.
  - by vm_compute.
  - vm_compute in Htoken. by injection Htoken as <-.
Defined.

(** * Dictionaries *)

Lemma dict_get_cons {V} (k key : string) (v : V) (d : dict V) :
  dict_get ((k, v) :: d) key = if String.eqb k key then Some v else dict_get d key.
Proof. reflexivity. Qed.

Lemma dict_get_setitem {V} (d : dict V) (k k' : string) (v : V) :
  dict_get (dict_setitem d k v) k' = if decide (k = k') then Some v else dict_get d k'.
Proof.
  induction d as [|[k0 v0] d IH]; simpl.
  - destruct (String.eqb_spec k k'), (decide (k = k')); congruence.
  - destruct (String.eqb_spec k0 k) as [->|Hk0]; simpl.
    + destruct (String.eqb_spec k k'), (decide (k = k')); congruence.
    + rewrite IH. destruct (String.eqb_spec k0 k'), (decide (k = k')); congruence.
Qed.

Lemma dict_get_Some_keys {V} (d : dict V) (k : string) (v : V) :
  dict_get d k = Some v → k ∈ dict_keys d.
Proof.
  induction d as [|[k0 v0] d IH]; simpl; [done|].
  destruct (String.eqb_spec k0 k) as [->|]; intros; [left|right; auto].
Qed.

Lemma dict_get_None_keys {V} (d : dict V) (k : string) :
  dict_get d k = None ↔ k ∉ dict_keys d.
Proof.
  induction d as [|[k0 v0] d IH]; simpl.
  - split; [intros _; apply not_elem_of_nil|done].
  - rewrite not_elem_of_cons.
    destruct (String.eqb_spec k0 k) as [->|]; [naive_solver|].
    rewrite IH. naive_solver.
Qed.

Lemma dict_has_keys {V} (d : dict V) (k : string) :
  dict_has d k = true ↔ k ∈ dict_keys d.
Proof.
  unfold dict_has. destruct (dict_get d k) eqn:Hget.
  - split; [intros _; by eapply dict_get_Some_keys|done].
  - apply dict_get_None_keys in Hget. naive_solver.
Qed.

(** * 4.2 and 4.5 Locating the files *)

Lemma glob_empty (dir suffix : string) : glob ∅ dir suffix = [].
Proof. unfold glob. by rewrite map_to_list_empty. Qed.

Lemma parse_result_csv_missing {V} (genfromtxt : table V) (fs : filesystem)
    (output_dir filename : string) :
  glob fs output_dir ("_" +:+ filename +:+ ".csv") = [] →
  _parse_result_csv genfromtxt fs output_dir filename
  = Raise (RuntimeError (msg_unable_csv filename)).
Proof. intros Hglob. unfold _parse_result_csv. by rewrite Hglob. Qed.

Lemma parse_result_csv_ambiguous {V} (genfromtxt : table V) (fs : filesystem)
    (output_dir filename : string) :
  (2 ≤ length (glob fs output_dir ("_" +:+ filename +:+ ".csv")))%nat →
  _parse_result_csv genfromtxt fs output_dir filename
  = Raise (RuntimeError msg_multiple).
Proof.
  intros Hglob. unfold _parse_result_csv.
  destruct (glob _ _ _) as [|p1 [|p2 l]]; simpl in Hglob; [lia..|].
  rewrite bool_decide_eq_false_2 by done.
  destruct (Z.eqb_spec (Z.of_nat (length (p1 :: p2 :: l)) - 1) 0); [|done].
  simpl length in *. lia.
Qed.

Lemma parse_log_file_ambiguous {num} (py_float : float_parser num)
    (fs : filesystem) (output_dir : string) :
  (2 ≤ length (glob fs output_dir ".log"))%nat →
  _parse_log_file py_float fs output_dir = Raise (RuntimeError msg_multiple).
Proof.
  intros Hglob. unfold _parse_log_file.
  destruct (Z.eqb_spec (Z.of_nat (length (glob fs output_dir ".log")) - 1) 0);
    [lia|done].
Qed.

Lemma parse_log_file_no_match {num} (py_float : float_parser num)
    (fs : filesystem) (output_dir : string) :
  glob fs output_dir ".log" = [] →
  _parse_log_file py_float fs output_dir = Raise (RuntimeError msg_multiple).
Proof. intros Hglob. unfold _parse_log_file. by rewrite Hglob. Qed.

(** C8 (the code where the claim fails): in an empty output directory the
    table loader raises its missing-file error, whereas the log locator
    has no such test: [len(in_file) - 1] is [-1], which is true, and the
    error of the several-matches case is raised. *)
Theorem log_locator_on_empty_directory {V num} (genfromtxt : table V)
    (py_float : float_parser num) (output_dir : string) :
  _parse_result_csv genfromtxt ∅ output_dir "logic"
  = Raise (RuntimeError (msg_unable_csv "logic"))
  ∧ _parse_log_file py_float ∅ output_dir = Raise (RuntimeError msg_multiple)
  ∧ msg_unable_csv "logic" ≠ msg_multiple.
Proof.
  split; [|split].
  - apply parse_result_csv_missing, glob_empty.
  - apply parse_log_file_no_match, glob_empty.
  - by vm_compute.
Qed.

(** * 4.3 The netlist name resolver *)

Lemma last_filter_cons {A} (f : A → bool) (x : A) (l : list A) :
  last (List.filter f (x :: l))
  = match last (List.filter f l) with
    | Some y => Some y
    | None => if f x then Some x else None
    end.
Proof.
  simpl. destruct (f x); [|by destruct (last _)].
  destruct (List.filter f l) as [|y l'] eqn:Hl; [done|].
  rewrite last_cons. by destruct (last (y :: l')).
Qed.

Lemma eq_str_true (v : value) (s : string) :
  eq_str v s = true → v = VStr s.
Proof.
  unfold eq_str. destruct v; simpl; try done.
  by intros ->%String.eqb_eq.
Qed.

Lemma node_matches_device (key : string) (node : value) :
  node_ok node = true → node_matches key node = true →
  ∃ device, getitem node "name" = Ok (VStr key)
            ∧ getitem node "deviceName" = Ok device
            ∧ device_of node = Some device.
Proof.
  unfold node_ok, node_matches, device_of.
  destruct (getitem node "name") as [name|]; [|done].
  intros Hok ->%eq_str_true.
  destruct (getitem node "deviceName") as [device|]; [by exists device|].
  by apply bool_decide_eq_true in Hok as [? [=]].
Qed.

Lemma last_match_cons (key : string) (node : value) (nodes : list value) :
  Forall (λ node, node_ok node = true) nodes →
  last_match key (node :: nodes)
  = match last_match key nodes with
    | Some device => Some device
    | None => if node_matches key node then device_of node else None
    end.
Proof.
  intros Hok. unfold last_match. rewrite last_filter_cons.
  destruct (last (List.filter (node_matches key) nodes)) as [y|] eqn:Hlast;
    simpl; [|by destruct (node_matches key node)].
  apply last_Some_elem_of, list_elem_of_In, filter_In in Hlast as [Hy Hmatch].
  rewrite Forall_forall in Hok.
  destruct (node_matches_device key y) as (device & _ & _ & ->);
    [by apply Hok, list_elem_of_In|done..].
Qed.

Lemma resolve_key_spec (key : string) (nodes : list value) (out_mapping : dict value) :
  Forall (λ node, node_ok node = true) nodes →
  ∃ out, resolve_key key nodes out_mapping = Ok out
         ∧ ∀ k, dict_get out k
                = if decide (key = k)
                  then match last_match key nodes with
                       | Some device => Some device
                       | None => dict_get out_mapping k
                       end
                  else dict_get out_mapping k.
Proof.
  intros Hok. revert out_mapping.
  induction Hok as [|node nodes Hnode Hok IH]; intros out_mapping.
  - exists out_mapping. split; [done|]. intros k. by destruct (decide _).
  - rewrite last_match_cons by done. simpl resolve_key.
    destruct (node_matches key node) eqn:Hmatch.
    + destruct (node_matches_device key node Hnode Hmatch)
        as (device & -> & -> & ->). simpl.
      unfold eq_str. simpl. rewrite String.eqb_refl.
      destruct (IH (dict_setitem out_mapping key device)) as (out & -> & Hout).
      exists out. split; [done|]. intros k. rewrite Hout, dict_get_setitem.
      destruct (decide (key = k)); [|done].
      by destruct (last_match key nodes).
    + unfold node_ok in Hnode. unfold node_matches in Hmatch.
      destruct (getitem node "name") as [name|]; [|done]. simpl.
      rewrite Hmatch.
      destruct (IH out_mapping) as (out & -> & Hout).
      exists out. split; [done|]. intros k. rewrite Hout.
      destruct (decide (key = k)); [|done]. by destruct (last_match key nodes).
Qed.

Lemma resolve_keys_spec (data nodes_v : value) (nodes : list value)
    (keys : list string) (out_mapping : dict value) :
  getitem data "nodes" = Ok nodes_v →
  iterate nodes_v = Ok nodes →
  Forall (λ node, node_ok node = true) nodes →
  ∃ out, resolve_keys data keys out_mapping = Ok out
         ∧ ∀ k, dict_get out k
                = match (if bool_decide (k ∈ keys) then last_match k nodes else None) with
                  | Some device => Some device
                  | None => dict_get out_mapping k
                  end.
Proof.
  intros Hdata Hiter Hok. revert out_mapping.
  induction keys as [|key keys IH]; intros out_mapping.
  - exists out_mapping. split; [done|]. intros k.
    by rewrite bool_decide_eq_false_2 by apply not_elem_of_nil.
  - simpl. rewrite Hdata. simpl. rewrite Hiter. simpl.
    destruct (resolve_key_spec key nodes out_mapping Hok) as (out1 & -> & Hout1).
    simpl. destruct (IH out1) as (out & -> & Hout).
    exists out. split; [done|]. intros k. rewrite Hout, Hout1.
    destruct (decide (key = k)) as [->|Hne].
    + rewrite (bool_decide_eq_true_2 (k ∈ k :: keys)) by left.
      destruct (bool_decide (k ∈ keys)); by destruct (last_match k nodes).
    + rewrite (bool_decide_ext (k ∈ key :: keys) (k ∈ keys)); [done|].
      rewrite elem_of_cons. naive_solver.
Qed.

(** C7 (as stated, refuted): two entries are named [a]; the resolver maps
    [a] to the device of the second one, not of the first. *)
Lemma resolver_takes_last_of_two :
  let nodes := [VDict [("name", VStr "a"); ("deviceName", VStr "X")];
                VDict [("name", VStr "a"); ("deviceName", VStr "Y")]] in
  let data := VDict [("nodes", VList nodes)] in
  spec_first_match "a" nodes = Some (VStr "X")
  ∧ resolve_keys data ["a"] [] = Ok [("a", VStr "Y")].
Proof. by vm_compute. Qed.

(** C7 (amended): for a netlist whose [nodes] entries each have a [name]
    (and a [deviceName] when the name is a string), the resolver maps
    every key of interest to the [deviceName] of the LAST entry whose
    [name] equals the key; a key that no entry matches is absent from
    the mapping and no error is raised. *)
Theorem resolver_last_match_wins `{Codec} {V} (fs : filesystem)
    (output_dir path : string) (logic_dict : dict V)
    (data nodes_v : value) (nodes : list value) :
  glob fs output_dir "_outputNetlist.json" = [path] →
  _fix_input_json fs path true = Ok data →
  getitem data "nodes" = Ok nodes_v →
  iterate nodes_v = Ok nodes →
  Forall (λ node, node_ok node = true) nodes →
  ∃ out_mapping,
    _map_symbolic_representation_to_true_name fs output_dir logic_dict
    = Ok out_mapping
    ∧ ∀ key, dict_get out_mapping key
             = if bool_decide (key ∈ dict_keys logic_dict)
               then last_match key nodes else None.
Proof.
  intros Hglob Hload Hdata Hiter Hok.
  unfold _map_symbolic_representation_to_true_name.
  rewrite Hglob. simpl. rewrite Hload. simpl.
  destruct (resolve_keys_spec data nodes_v nodes (dict_keys logic_dict) []
              Hdata Hiter Hok) as (out & -> & Hout).
  exists out. split; [done|]. intros key. rewrite Hout.
  by destruct (if bool_decide _ then _ else _).
Qed.

(** * 4.4 Scoring *)

Section Scoring.

Context {num : Type} `{!Numeric num}.

Lemma select_ok (want : bool) (truth_table : list bool) (idx : nat)
    (activity_values : list num) :
  (idx + length activity_values ≤ length truth_table)%nat →
  select want truth_table idx activity_values
  = Ok (values_at want (drop idx truth_table) activity_values).
Proof.
  revert idx. induction activity_values as [|i rest IH]; intros idx Hlen.
  - unfold values_at. by rewrite zip_with_nil_r.
  - simpl in Hlen. simpl select.
    destruct (truth_table !! idx) as [t|] eqn:Ht;
      [|apply lookup_ge_None in Ht; lia].
    rewrite IH by lia. rewrite (drop_S _ _ _ Ht).
    unfold values_at. simpl. by destruct (Bool.eqb t want).
Qed.

Lemma select_short (want : bool) (truth_table : list bool) (idx : nat)
    (activity_values : list num) :
  (idx ≤ length truth_table < idx + length activity_values)%nat →
  select want truth_table idx activity_values = Raise IndexError.
Proof.
  revert idx. induction activity_values as [|i rest IH]; intros idx Hlen.
  - simpl in Hlen. lia.
  - simpl in Hlen. simpl select.
    destruct (truth_table !! idx) as [t|] eqn:Ht; [|done].
    apply lookup_lt_Some in Ht. by rewrite IH by lia.
Qed.

Lemma select_inv (want : bool) (truth_table : list bool)
    (activity_values picked : list num) :
  select want truth_table 0 activity_values = Ok picked →
  (length activity_values ≤ length truth_table)%nat
  ∧ picked = values_at want truth_table activity_values.
Proof.
  intros Hsel.
  destruct (decide (length activity_values ≤ length truth_table)%nat) as [Hle|Hgt].
  - rewrite select_ok in Hsel by done. rewrite drop_0 in Hsel. by injection Hsel.
  - rewrite select_short in Hsel by lia. done.
Qed.






(** When [<] is a strict order on the items, no item is below the
    [min] and none is above the [max]. *)
Section Order.

Hypothesis lt_irrefl : ∀ a, num_lt a a = false.
Hypothesis lt_trans :
  ∀ a b c, num_lt a b = true → num_lt b c = true → num_lt a c = true.






End Order.

Lemma filter_repressors_inv (keys kept : list string) :
  filter_repressors keys = Ok kept → kept = List.filter repressor_key keys.
Proof.
  revert kept. induction keys as [|x keys IH]; intros kept; simpl.
  - by intros [= <-].
  - destruct x as [|c x]; [done|]. simpl.
    destruct (filter_repressors keys) as [kept'|]; [|done]. simpl.
    intros [= <-]. by rewrite (IH kept').
Qed.

Lemma filter_repressors_raises (keys : list string) (e : exn) :
  filter_repressors keys = Raise e → e = IndexError.
Proof.
  induction keys as [|x keys IH]; simpl; [done|].
  destruct x as [|c x]; simpl; [by intros [= <-]|].
  destruct (filter_repressors keys); simpl; [done|].
  intros [= <-]. by apply IH.
Qed.

(** The steps of a successful [score_key]. *)
Lemma score_key_inv (logic_dict : dict (list bool)) (activity_dict : dict (list num))
    (r_key : string) (score : num) :
  score_key logic_dict activity_dict r_key = Ok score →
  ∃ truth_table activity_values low_on high_off ratio,
    dict_get logic_dict r_key = Some truth_table
    ∧ dict_get activity_dict r_key = Some activity_values
    ∧ (length activity_values ≤ length truth_table)%nat
    ∧ py_min (values_at true truth_table activity_values) = Ok low_on
    ∧ py_max (values_at false truth_table activity_values) = Ok high_off
    ∧ num_truediv low_on high_off = Ok ratio
    ∧ math_log ratio = Ok score.
Proof.
  unfold score_key, dict_getitem. intros Hscore.
  destruct (dict_get logic_dict r_key) as [truth_table|]; [|done].
  destruct (dict_get activity_dict r_key) as [activity_values|]; [|done].
  simpl in Hscore.
  destruct (select true truth_table 0 activity_values) as [on_values|] eqn:Hon;
    [|done].
  apply select_inv in Hon as [Hlen ->]. simpl in Hscore.
  destruct (py_min _) as [low_on|] eqn:Hmin; [|done]. simpl in Hscore.
  destruct (select false truth_table 0 activity_values) as [off_values|] eqn:Hoff;
    [|done].
  apply select_inv in Hoff as [_ ->]. simpl in Hscore.
  destruct (py_max _) as [high_off|] eqn:Hmax; [|done]. simpl in Hscore.
  destruct (num_truediv low_on high_off) as [ratio|] eqn:Hdiv; [|done].
  simpl in Hscore. by exists truth_table, activity_values, low_on, high_off, ratio.
Qed.

(** An empty "on" or "off" subset makes [min] or [max] raise. *)
Lemma score_key_empty (logic_dict : dict (list bool)) (activity_dict : dict (list num))
    (r_key : string) (truth_table : list bool) (activity_values : list num) :
  dict_get logic_dict r_key = Some truth_table →
  dict_get activity_dict r_key = Some activity_values →
  (length activity_values ≤ length truth_table)%nat →
  values_at true truth_table activity_values = []
  ∨ values_at false truth_table activity_values = [] →
  score_key logic_dict activity_dict r_key = Raise ValueError.
Proof.
  intros Hlogic Hactivity Hlen Hempty. unfold score_key, dict_getitem.
  rewrite Hlogic, Hactivity. simpl.
  rewrite !select_ok, drop_0 by done. simpl.
  destruct Hempty as [-> | ->]; [done|].
  by destruct (values_at true truth_table activity_values).
Qed.

Lemma score_loop_ok (logic_dict : dict (list bool)) (activity_dict : dict (list num))
    (repressor_keys : list string) (score_dict scores : dict num) :
  score_loop logic_dict activity_dict repressor_keys score_dict = Ok scores →
  ∀ key,
    if bool_decide (key ∈ repressor_keys)
    then ∃ score, score_key logic_dict activity_dict key = Ok score
                  ∧ dict_get scores key = Some score
    else dict_get scores key = dict_get score_dict key.
Proof.
  revert score_dict. induction repressor_keys as [|r_key rest IH];
    intros score_dict Hloop key.
  - injection Hloop as <-. by rewrite bool_decide_eq_false_2 by apply not_elem_of_nil.
  - simpl in Hloop.
    destruct (score_key logic_dict activity_dict r_key) as [score|] eqn:Hkey;
      [|done].
    simpl in Hloop. specialize (IH _ Hloop key).
    destruct (decide (key ∈ rest)) as [Hin|Hnotin].
    + rewrite bool_decide_eq_true_2 in IH by done.
      by rewrite bool_decide_eq_true_2 by by right.
    + rewrite bool_decide_eq_false_2 in IH by done.
      rewrite IH, dict_get_setitem.
      destruct (decide (r_key = key)) as [->|Hne].
      * rewrite bool_decide_eq_true_2 by left. eauto.
      * rewrite bool_decide_eq_false_2; [done|].
        rewrite elem_of_cons. naive_solver.
Qed.

Lemma score_loop_raises (logic_dict : dict (list bool)) (activity_dict : dict (list num))
    (repressor_keys : list string) (score_dict : dict num) (key : string) (e : exn) :
  key ∈ repressor_keys →
  score_key logic_dict activity_dict key = Raise e →
  ∃ e', score_loop logic_dict activity_dict repressor_keys score_dict = Raise e'.
Proof.
  revert score_dict. induction repressor_keys as [|r_key rest IH];
    intros score_dict Hin Hkey; [by apply elem_of_nil in Hin|].
  simpl. destruct (score_key logic_dict activity_dict r_key) as [score|] eqn:Hr;
    simpl; [|eauto].
  apply elem_of_cons in Hin as [->|Hin]; [congruence|].
  by apply IH.
Qed.

End Scoring.

(** ** The score of a repressor *)

Lemma in_filter_repressors (keys : list string) (key : string) :
  key ∈ List.filter repressor_key keys ↔ key ∈ keys ∧ repressor_key key = true.
Proof. by rewrite !list_elem_of_In, filter_In. Qed.

Lemma score_repressors_inv {num} `{!Numeric num} (logic_dict : dict (list bool))
    (activity_dict : dict (list num)) (scores : dict num) :
  score_repressors logic_dict activity_dict = Ok scores →
  keys_eq logic_dict activity_dict = true
  ∧ score_loop logic_dict activity_dict
      (List.filter repressor_key (dict_keys logic_dict)) [] = Ok scores.
Proof.
  unfold score_repressors. destruct (keys_eq _ _); [|done]. simpl.
  destruct (filter_repressors _) as [kept|] eqn:Hkept; [|done].
  apply filter_repressors_inv in Hkept as ->. by simpl.
Qed.

Lemma score_repressors_general {num} `{!Numeric num} (logic_dict : dict (list bool))
    (activity_dict : dict (list num)) (scores : dict num) :
  score_repressors logic_dict activity_dict = Ok scores →
  (∀ key truth_table,
     dict_get logic_dict key = Some truth_table →
     repressor_key key = true →
     ∃ activity_values low_on high_off ratio score,
       dict_get activity_dict key = Some activity_values
       ∧ py_min (values_at true truth_table activity_values) = Ok low_on
       ∧ py_max (values_at false truth_table activity_values) = Ok high_off
       ∧ num_truediv low_on high_off = Ok ratio
       ∧ math_log ratio = Ok score
       ∧ dict_get scores key = Some score)
  ∧ (∀ key, repressor_key key = false ∨ dict_get logic_dict key = None →
            dict_get scores key = None).
Proof.
  intros [_ Hloop]%score_repressors_inv. split.
  - intros key truth_table Hlogic Hrep.
    pose proof (score_loop_ok _ _ _ _ _ Hloop key) as Hkey.
    rewrite bool_decide_eq_true_2 in Hkey
      by (apply in_filter_repressors; eauto using dict_get_Some_keys).
    destruct Hkey as (score & Hscore & Hget).
    apply score_key_inv in Hscore
      as (truth' & activity_values & low_on & high_off & ratio
          & Hlogic' & Hact & _ & Hmin & Hmax & Hdiv & Hlog).
    rewrite Hlogic in Hlogic'. injection Hlogic' as <-.
    by exists activity_values, low_on, high_off, ratio, score.
  - intros key Hkey.
    pose proof (score_loop_ok _ _ _ _ _ Hloop key) as Hget.
    rewrite bool_decide_eq_false_2 in Hget; [done|].
    rewrite in_filter_repressors. intros [Hin Hrep].
    destruct Hkey as [Hkey|Hkey]; [congruence|].
    by apply dict_get_None_keys in Hkey.
Qed.

(** Scoring returns when the tables have the same keys, no key is empty
    and every repressor key can be scored. *)
Lemma filter_repressors_ok (keys : list string) :
  Forall (λ key, key ≠ EmptyString) keys →
  filter_repressors keys = Ok (List.filter repressor_key keys).
Proof.
  induction 1 as [|x keys Hx _ IH]; [done|].
  simpl. destruct x as [|c x]; [done|]. simpl. rewrite IH. simpl.
  by destruct (Ascii.eqb c Str.dollar).
Qed.

Lemma score_loop_returns {num} `{!Numeric num} (logic_dict : dict (list bool))
    (activity_dict : dict (list num)) (repressor_keys : list string)
    (score_dict : dict num) :
  Forall (λ key, ∃ score, score_key logic_dict activity_dict key = Ok score)
         repressor_keys →
  ∃ scores,
    score_loop logic_dict activity_dict repressor_keys score_dict = Ok scores.
Proof.
  intros Hall. revert score_dict.
  induction Hall as [|key rest [score Hkey] _ IH]; intros score_dict; simpl.
  - by eexists.
  - rewrite Hkey. simpl. apply IH.
Qed.

Lemma score_repressors_returns {num} `{!Numeric num} (logic_dict : dict (list bool))
    (activity_dict : dict (list num)) :
  keys_eq logic_dict activity_dict = true →
  Forall (λ key, key ≠ EmptyString) (dict_keys logic_dict) →
  Forall (λ key, repressor_key key = true →
                 ∃ score, score_key logic_dict activity_dict key = Ok score)
         (dict_keys logic_dict) →
  ∃ scores, score_repressors logic_dict activity_dict = Ok scores.
Proof.
  intros Hkeys Hnonempty Hscored. unfold score_repressors.
  rewrite Hkeys, filter_repressors_ok by done. simpl.
  apply score_loop_returns. rewrite Forall_forall in Hscored |- *.
  intros key [Hin Hrep]%in_filter_repressors. by apply Hscored.
Qed.

(** Deciding the comparisons of the real numbers in a goal. *)
Ltac real_decide :=
  repeat match goal with
         | |- context [Rlt_dec ?a ?b] => destruct (Rlt_dec a b); [try lra|try lra]
         | |- context [Req_dec_T ?a ?b] => destruct (Req_dec_T a b); [try lra|try lra]
         end.


(** ** The value of [ln 5]

    [exp u >= 1 + u] at [u = t / 4096], squared twelve times with the
    bound rounded down at each step, bounds [exp t] from below. *)

Section Ln5.

Local Open Scope R_scope.





End Ln5.


(** ** What [min] and [max] pick *)












(** ** The consistency check of the two tables *)

Lemma dict_keys_cons {V} (k : string) (v : V) (d : dict V) :
  dict_keys ((k, v) :: d) = k :: dict_keys d.
Proof. reflexivity. Qed.

Lemma dict_setitem_keys {V} (d : dict V) (k : string) (v : V) :
  dict_keys (dict_setitem d k v)
  = if bool_decide (k ∈ dict_keys d) then dict_keys d else dict_keys d ++ [k].
Proof.
  induction d as [|[k0 v0] d IH]; [done|]. cbn [dict_setitem].
  destruct (String.eqb_spec k0 k) as [->|Hne]; rewrite !dict_keys_cons.
  - by rewrite bool_decide_eq_true_2 by left.
  - rewrite IH. destruct (decide (k ∈ dict_keys d)) as [Hin|Hnotin].
    + rewrite (bool_decide_eq_true_2 _ Hin).
      by rewrite (bool_decide_eq_true_2 (k ∈ k0 :: dict_keys d)) by by right.
    + rewrite (bool_decide_eq_false_2 _ Hnotin).
      rewrite (bool_decide_eq_false_2 (k ∈ k0 :: dict_keys d)); [done|].
      rewrite elem_of_cons. naive_solver.
Qed.

Lemma dict_setitem_wf {V} (d : dict V) (k : string) (v : V) :
  dict_wf d → dict_wf (dict_setitem d k v).
Proof.
  unfold dict_wf. intros Hwf. rewrite dict_setitem_keys.
  destruct (decide (k ∈ dict_keys d)) as [Hin|Hnotin].
  - by rewrite bool_decide_eq_true_2.
  - rewrite bool_decide_eq_false_2 by done.
    apply NoDup_app. split; [done|]. split; [|apply NoDup_singleton].
    intros x Hx ->%list_elem_of_singleton. done.
Qed.

Lemma rows_to_dict_wf {V} (rows : list (string * list V)) :
  dict_wf (rows_to_dict rows).
Proof.
  unfold rows_to_dict.
  assert (Hnil : dict_wf ([] : dict (list V))) by apply NoDup_nil_2.
  revert Hnil. generalize ([] : dict (list V)).
  induction rows as [|row rows IH]; intros d Hd; simpl; [done|].
  by apply IH, dict_setitem_wf.
Qed.

Lemma parse_result_csv_wf {V} (genfromtxt : table V) (fs : filesystem)
    (output_dir filename : string) (d : dict (list V)) :
  _parse_result_csv genfromtxt fs output_dir filename = Ok d → dict_wf d.
Proof.
  unfold _parse_result_csv. repeat case_match; try done.
  destruct (list_first _); simpl; [|done].
  destruct (open_read _ _); simpl; [|done].
  destruct (genfromtxt _) as [[record|rows]|]; simpl; [done| |done].
  intros [= <-]. apply rows_to_dict_wf.
Qed.

(** The comparison of the key views is equality of the key sets. *)
Lemma keys_eq_spec {V W} (a : dict V) (b : dict W) :
  dict_wf a → dict_wf b →
  keys_eq a b = true ↔ ∀ key, key ∈ dict_keys a ↔ key ∈ dict_keys b.
Proof.
  unfold dict_wf, keys_eq. intros Ha Hb.
  rewrite andb_true_iff, Nat.eqb_eq, forallb_forall.
  rewrite <- (length_fmap fst a), <- (length_fmap fst b).
  fold (dict_keys a) (dict_keys b). split.
  - intros [Hlen Hsub].
    assert (Hperm : dict_keys a ≡ₚ dict_keys b).
    { apply submseteq_length_Permutation; [|lia].
      apply NoDup_submseteq; [done|].
      intros x Hx%list_elem_of_In. by apply dict_has_keys, Hsub. }
    intros key. by rewrite Hperm.
  - intros Hsame.
    assert (Hperm : dict_keys a ≡ₚ dict_keys b) by by apply NoDup_Permutation.
    split; [by rewrite Hperm|].
    intros x Hx%list_elem_of_In. by apply dict_has_keys, Hsame.
Qed.

Lemma score_repressors_mismatch {num} `{!Numeric num} (logic_dict : dict (list bool))
    (activity_dict : dict (list num)) (key : string) :
  dict_wf logic_dict → dict_wf activity_dict →
  key ∈ dict_keys logic_dict ∧ key ∉ dict_keys activity_dict
  ∨ key ∈ dict_keys activity_dict ∧ key ∉ dict_keys logic_dict →
  score_repressors logic_dict activity_dict = Raise (RuntimeError msg_mismatch).
Proof.
  intros Hl Ha Hkey. unfold score_repressors.
  destruct (keys_eq logic_dict activity_dict) eqn:Heq; [|done].
  rewrite keys_eq_spec in Heq by done. specialize (Heq key). naive_solver.
Qed.

(** C4 (as stated, refuted): rows of different lengths under the same
    key are accepted.  A key that is not a repressor is never inspected,
    and for a repressor the surplus of a longer truth row is ignored.
    And the tables of the example never reach the comparison: numpy hands
    the single row of the activity table over as an array of dimension 0,
    and the loop of the loader raises [TypeError] on it. *)
Lemma length_mismatch_is_accepted :
  length [true; false; true] ≠ length [5; 1]%R
  ∧ @score_repressors R real
      [("$g", [true; false; true]); ("in0", [true; false; true])]
      [("$g", [5; 1]%R); ("in0", [5; 1]%R)]
    = Ok [("$g", ln 5)]
  ∧ _parse_result_csv (Fragment.genfromtxt Fragment.bool_cell)
      Demo.results_single_row "out" "logic"
    = Ok [("$g1", [true; false]); ("in0", [true; true])]
  ∧ @CelloResult_init Fragment.codec float Fragment.numeric
      (Fragment.genfromtxt Fragment.bool_cell)
      (Fragment.genfromtxt Fragment.parse_decimal)
      Fragment.parse_decimal Demo.results_single_row "out"
    = Raise TypeError.
Proof.
  split; [done|]. split; [|split; vm_compute; reflexivity].
  unfold score_repressors, score_loop, score_key.
  repeat (cbn; real_decide).
  do 3 f_equal. apply f_equal. lra.
Qed.

(** C4 (amended): when the two tables have loaded and the names of the
    netlist have been resolved, a difference between the key sets of the
    tables, by even a single key, ends the construction of [CelloResult]
    in the module's "Logic and Activity Output do not match" error,
    raised by [score_repressors].  The lengths of the rows under a key
    are not compared. *)
Theorem init_rejects_key_mismatch `{Codec} {num} `{!Numeric num}
    (genfromtxt_logic : table bool) (genfromtxt_activity : table num)
    (py_float : float_parser num) (fs : filesystem) (results_dir : string)
    (logic : dict (list bool)) (activity : dict (list num))
    (names : dict value) (key : string) :
  _parse_result_csv genfromtxt_logic fs results_dir "logic" = Ok logic →
  _parse_result_csv genfromtxt_activity fs results_dir "activity" = Ok activity →
  _map_symbolic_representation_to_true_name fs results_dir logic = Ok names →
  key ∈ dict_keys logic ∧ key ∉ dict_keys activity
  ∨ key ∈ dict_keys activity ∧ key ∉ dict_keys logic →
  score_repressors logic activity = Raise (RuntimeError msg_mismatch)
  ∧ CelloResult_init genfromtxt_logic genfromtxt_activity py_float fs results_dir
    = Raise (RuntimeError msg_mismatch).
Proof.
  intros Hlogic Hactivity Hnames Hkey.
  assert (Hscore : score_repressors logic activity
                   = Raise (RuntimeError msg_mismatch)).
  { apply score_repressors_mismatch with key; [..|done].
    - by eapply parse_result_csv_wf.
    - by eapply parse_result_csv_wf. }
  split; [done|].
  unfold CelloResult_init. rewrite Hlogic. simpl. rewrite Hactivity. simpl.
  rewrite Hnames. simpl. by rewrite Hscore.
Qed.

Lemma init_rejects_key_mismatch_witness :
  let logic_table := Fragment.genfromtxt Fragment.bool_cell in
  let activity_table := Fragment.genfromtxt Fragment.parse_decimal in
  _parse_result_csv logic_table Demo.results_mismatch "out" "logic"
  = Ok [("$g1", [true; false]); ("in0", [true; true]); ("in1", [false; true])]
  ∧ _parse_result_csv activity_table Demo.results_mismatch "out" "activity"
    = Ok [("$g1", [5; 1]%float); ("in0", [3; 4]%float)]
  ∧ @_map_symbolic_representation_to_true_name Fragment.codec _
      Demo.results_mismatch "out"
      [("$g1", [true; false]); ("in0", [true; true]); ("in1", [false; true])]
    = Ok [("$g1", VStr "A1_AmtR"); ("in0", VStr "LacI_sensor")]
  ∧ @CelloResult_init Fragment.codec float Fragment.numeric logic_table activity_table
      Fragment.parse_decimal Demo.results_mismatch "out"
    = Raise (RuntimeError msg_mismatch).
Proof.
  intros logic_table activity_table.
  assert (Hlogic : _parse_result_csv logic_table Demo.results_mismatch "out" "logic"
                   = Ok [("$g1", [true; false]); ("in0", [true; true]);
                         ("in1", [false; true])])
    by (vm_compute; reflexivity).
  assert (Hactivity :
            _parse_result_csv activity_table Demo.results_mismatch "out" "activity"
            = Ok [("$g1", [5; 1]%float); ("in0", [3; 4]%float)])
    by (vm_compute; reflexivity).
  assert (Hnames : @_map_symbolic_representation_to_true_name Fragment.codec _
                     Demo.results_mismatch "out"
                     [("$g1", [true; false]); ("in0", [true; true]);
                      ("in1", [false; true])]
                   = Ok [("$g1", VStr "A1_AmtR"); ("in0", VStr "LacI_sensor")])
    by (vm_compute; reflexivity).
  refine (conj Hlogic (conj Hactivity (conj Hnames _))).
  refine (proj2 (@init_rejects_key_mismatch Fragment.codec float Fragment.numeric
                   logic_table activity_table Fragment.parse_decimal
                   Demo.results_mismatch "out" _ _ _ "in1" Hlogic Hactivity Hnames _)).
  left. split.
  - apply list_elem_of_In. simpl. tauto.
  - rewrite list_elem_of_In. simpl. intros [?|[?|[]]]; discriminate.
Defined.

Lemma resolver_last_match_wins_witness :
  let logic_dict : dict (list bool) := [("$g1", [true; false]); ("out", [true; true])] in
  glob Demo.results_mismatch "out" "_outputNetlist.json" = ["out/and_outputNetlist.json"]
  ∧ @_fix_input_json Fragment.codec Demo.results_mismatch
      "out/and_outputNetlist.json" true = Ok Demo.netlist_doc
  ∧ ∃ out_mapping,
      @_map_symbolic_representation_to_true_name Fragment.codec _
        Demo.results_mismatch "out" logic_dict = Ok out_mapping
      ∧ dict_get out_mapping "$g1" = Some (VStr "A1_AmtR")
      ∧ dict_get out_mapping "out" = None
      ∧ dict_get out_mapping "in0" = None.
Proof.
  intros logic_dict.
  assert (Hglob : glob Demo.results_mismatch "out" "_outputNetlist.json"
                  = ["out/and_outputNetlist.json"]) by (by vm_compute).
  assert (Hload : @_fix_input_json Fragment.codec Demo.results_mismatch
                    "out/and_outputNetlist.json" true = Ok Demo.netlist_doc)
    by (by vm_compute).
  refine (conj Hglob (conj Hload _)).
  destruct (@resolver_last_match_wins Fragment.codec _ Demo.results_mismatch "out"
              "out/and_outputNetlist.json" logic_dict Demo.netlist_doc
              _ _ Hglob Hload eq_refl eq_refl) as (out_mapping & Hout & Hget).
  - repeat constructor.
  - exists out_mapping. split; [exact Hout|]. rewrite !Hget.
    vm_compute. repeat split.
Defined.

(** ** Rows whose "on" or "off" subset is empty *)

Lemma score_key_short {num} `{!Numeric num} (logic_dict : dict (list bool))
    (activity_dict : dict (list num)) (r_key : string)
    (truth_table : list bool) (activity_values : list num) :
  dict_get logic_dict r_key = Some truth_table →
  dict_get activity_dict r_key = Some activity_values →
  (length truth_table < length activity_values)%nat →
  score_key logic_dict activity_dict r_key = Raise IndexError.
Proof.
  intros Hlogic Hactivity Hlen. unfold score_key, dict_getitem.
  rewrite Hlogic, Hactivity. simpl.
  rewrite (select_short true truth_table 0 activity_values); [done|lia].
Qed.

Lemma score_repressors_raises {num} `{!Numeric num} (logic_dict : dict (list bool))
    (activity_dict : dict (list num)) (key : string) (e : exn) :
  key ∈ dict_keys logic_dict →
  repressor_key key = true →
  score_key logic_dict activity_dict key = Raise e →
  ∃ e', score_repressors logic_dict activity_dict = Raise e'.
Proof.
  intros Hin Hrep Hkey. unfold score_repressors.
  destruct (keys_eq _ _); simpl; [|eauto].
  destruct (filter_repressors _) as [kept|] eqn:Hkept; simpl; [|eauto].
  apply filter_repressors_inv in Hkept as ->.
  apply score_loop_raises with key e; [|done].
  by apply in_filter_repressors.
Qed.

(** Binary64: a zero [high_off] does not raise.  The quotient is an
    infinity, and so is its logarithm. *)
Lemma zero_high_off_float64 (libm_log : float → float) :
  @score_repressors float (float64 libm_log)
    [("$g", [true; false])] [("$g", [5; 0]%float)]
  = Ok [("$g", infinity)].
Proof. reflexivity. Qed.

(** C5 (as stated, refuted): the row of [$b] is all true.  Scoring ends in
    the [ValueError] of [max] on an empty list, which is not an error the
    module raises itself and names no key; the score already computed for
    [$a] is lost with it. *)
Lemma all_true_row_raises_ValueError :
  values_at false [true; true] [5; 6]%R = []
  ∧ @score_repressors R real
      [("$a", [true; false]); ("$b", [true; true])]
      [("$a", [5; 1]%R); ("$b", [5; 6]%R)]
    = Raise ValueError
  ∧ is_RuntimeError ValueError = false.
Proof.
  split; [done|]. split; [|done].
  unfold score_repressors, score_loop, score_key.
  repeat (cbn; real_decide). done.
Qed.

(** C5 (amended): for a repressor key whose "on" subset or "off" subset is
    empty, scoring that key raises Python's [ValueError] (from [min] or
    [max] of an empty list) once the truth row is at least as long as the
    activity row.  [score_repressors] catches nothing: the whole call ends
    in an exception and returns no score for any key, so none defaults to
    0.  There is no per-key error and no test for a zero [high_off]. *)
Theorem empty_partition_aborts_scoring {num} `{!Numeric num}
    (logic_dict : dict (list bool)) (activity_dict : dict (list num))
    (key : string) (truth_table : list bool) (activity_values : list num) :
  dict_get logic_dict key = Some truth_table →
  dict_get activity_dict key = Some activity_values →
  repressor_key key = true →
  values_at true truth_table activity_values = []
  ∨ values_at false truth_table activity_values = [] →
  ((length activity_values ≤ length truth_table)%nat →
   score_key logic_dict activity_dict key = Raise ValueError)
  ∧ ∃ e, score_repressors logic_dict activity_dict = Raise e.
Proof.
  intros Hlogic Hactivity Hrep Hempty. split.
  - intros Hlen. by eapply score_key_empty.
  - destruct (decide (length activity_values ≤ length truth_table)%nat).
    + eapply score_repressors_raises; [by eapply dict_get_Some_keys|done|].
      by eapply score_key_empty.
    + eapply score_repressors_raises; [by eapply dict_get_Some_keys|done|].
      eapply score_key_short; [done..|lia].
Qed.

Lemma empty_partition_aborts_scoring_witness :
  values_at false [true; true] [5; 6]%float = []
  ∧ @score_key float Fragment.numeric
      [("$g", [true; true])] [("$g", [5; 6]%float)] "$g" = Raise ValueError
  ∧ ∃ e, @score_repressors float Fragment.numeric
           [("$g", [true; true])] [("$g", [5; 6]%float)] = Raise e.
Proof.
  split; [done|].
  destruct (@empty_partition_aborts_scoring float Fragment.numeric
              [("$g", [true; true])] [("$g", [5; 6]%float)] "$g"
              [true; true] [5; 6]%float eq_refl eq_refl eq_refl (or_intror eq_refl))
    as [Hkey Hall].
  split; [apply Hkey; simpl; lia|exact Hall].
Defined.

(** * [CelloQuery]: choosing the input signals *)

Lemma list_remove_length (row : value) (i : nat) (l : list value) :
  (length (list_remove row i l) ≤ length l)%nat.
Proof.
  revert i. induction l as [|x l IH]; intros i; simpl; [lia|].
  destruct i as [|i]; [lia|].
  destruct (py_eq x row); simpl; [lia|].
  specialize (IH i). lia.
Qed.

(** The loop never stops for want of fuel: any two amounts that cover the
    rows still to be visited give the same result. *)
Lemma prune_loop_fuel (query_list : list string) (target_collection : string)
    (fuel fuel' i : nat) (in_data : list value) :
  (length in_data - i ≤ fuel)%nat →
  (length in_data - i ≤ fuel')%nat →
  prune_loop query_list target_collection fuel i in_data
  = prune_loop query_list target_collection fuel' i in_data.
Proof.
  revert fuel' i in_data.
  induction fuel as [|fuel IH]; intros fuel' i in_data Hfuel Hfuel'.
  - assert (Hnone : in_data !! i = None) by (apply lookup_ge_None; lia).
    destruct fuel'; simpl; [done|]. by rewrite Hnone.
  - simpl. destruct (in_data !! i) as [row|] eqn:Hrow;
      [|by destruct fuel'; simpl; rewrite ?Hrow].
    apply lookup_lt_Some in Hrow as Hlt.
    destruct fuel' as [|fuel']; [lia|]. simpl. rewrite Hrow.
    destruct (getitem row "collection") as [collection|]; simpl; [|done].
    pose proof (list_remove_length row i in_data).
    destruct (eq_str collection target_collection); [|apply IH; lia].
    destruct (getitem row "name") as [name|]; simpl; [|done].
    destruct (negb _); apply IH; lia.
Qed.

(** C3 (the code where the claim fails): the sensor file lists the sensors
    A, B and C one after the other.  Pruning to the subset [C] removes the
    row of A; the rows move up, the iterator moves on, and the row of B is
    never visited.  The pruned file holds B and C. *)
Theorem pruning_skips_row_after_removed :
  let run := @set_input_signals Fragment.codec ["C"] "custom_input.input.json" true
               (Demo.query, Demo.inputs) in
  @get_input_signals Fragment.codec Demo.query Demo.inputs = Ok ["A"; "B"; "C"]
  ∧ run.1 = Ok "custom_input.input.json"
  ∧ input_sensors run.2.1 = Some "custom_input.input.json"
  ∧ @get_input_signals Fragment.codec run.2.1 run.2.2 = Ok ["B"; "C"]
  ∧ prune Demo.sensors_doc ["C"] ≫= signals_of = Ok ["B"; "C"].
Proof. by vm_compute. Qed.

Lemma existsb_eqb_elem (s : string) (l : list string) :
  existsb (String.eqb s) l = true ↔ s ∈ l.
Proof.
  rewrite existsb_exists. split.
  - intros (x & Hx & ->%String.eqb_eq). by apply list_elem_of_In.
  - intros Hin. exists s. split; [by apply list_elem_of_In|apply String.eqb_refl].
Qed.

Lemma check_signals_raises (available_input_signals input_signals : list string) :
  (∃ signal, signal ∈ input_signals ∧ signal ∉ available_input_signals) →
  ∃ signal,
    signal ∈ input_signals ∧ (signal ∉ available_input_signals)
    ∧ check_signals available_input_signals input_signals
      = Raise (RuntimeError
                 ("Cannot set " +:+ signal +:+ ", not present in available signals ")).
Proof.
  induction input_signals as [|s rest IH]; intros (signal & Hin & Hnot).
  - by apply elem_of_nil in Hin.
  - simpl. destruct (existsb (String.eqb s) available_input_signals) eqn:Hs; simpl.
    + apply existsb_eqb_elem in Hs.
      apply elem_of_cons in Hin as [->|Hin]; [done|].
      destruct IH as (signal' & Hin' & Hnot' & Hcheck); [eauto|].
      exists signal'. split; [by right|done].
    + exists s. split; [left|]. split; [|done].
      rewrite <- existsb_eqb_elem. by rewrite Hs.
Qed.

Lemma check_signals_ok (available_input_signals input_signals : list string) :
  (∀ signal, signal ∈ input_signals → signal ∈ available_input_signals) →
  check_signals available_input_signals input_signals = Ok ().
Proof.
  induction input_signals as [|s rest IH]; intros Hall; [done|].
  simpl. rewrite (proj2 (existsb_eqb_elem s _)) by (apply Hall; left).
  simpl. apply IH. intros signal Hin. apply Hall. by right.
Qed.

(** C10: when [get_input_signals] returns and some requested signal is not
    among the signals it returns, [set_input_signals] raises the module's
    "Cannot set ..." error for such a signal, and the world it leaves
    behind is the world it found: no file is written and no attribute of
    the query, [input_sensors] included, is changed. *)
Theorem set_input_signals_rejects_unknown_signal `{Codec} (q : CelloQuery)
    (fs : filesystem) (input_signals available : list string)
    (output_filename : string) (mutate : bool) :
  get_input_signals q fs = Ok available →
  (∃ signal, signal ∈ input_signals ∧ signal ∉ available) →
  ∃ signal,
    signal ∈ input_signals ∧ (signal ∉ available)
    ∧ set_input_signals input_signals output_filename mutate (q, fs)
      = (Raise (RuntimeError
                  ("Cannot set " +:+ signal +:+ ", not present in available signals ")),
         (q, fs)).
Proof.
  intros Havailable Hunknown.
  destruct (check_signals_raises available input_signals Hunknown)
    as (signal & Hin & Hnot & Hcheck).
  exists signal. split; [done|]. split; [done|].
  unfold set_input_signals, mbind, action_bind, reading. simpl.
  by rewrite Havailable, Hcheck.
Qed.

(** The successful call: the pruned document is written under the input
    directory, and [input_sensors] points at it when [mutate] is set. *)
Lemma set_input_signals_ok `{Codec} (q : CelloQuery) (fs : filesystem)
    (input_signals available : list string) (output_filename : string)
    (mutate : bool) (data pruned : value) :
  get_input_signals q fs = Ok available →
  (∀ signal, signal ∈ input_signals → signal ∈ available) →
  _fix_input_json fs (in_input_directory q (fmt (input_sensors q))) false = Ok data →
  prune data input_signals = Ok pruned →
  set_input_signals input_signals output_filename mutate (q, fs)
  = (Ok output_filename,
     (if mutate then with_input_sensors q output_filename else q,
      <[in_input_directory q output_filename := json_dumps pruned]> fs)).
Proof.
  intros Havailable Hall Hdata Hpruned.
  unfold set_input_signals, mbind, action_bind, reading. simpl.
  rewrite Havailable, (check_signals_ok _ _ Hall), Hdata, Hpruned.
  by destruct mutate.
Qed.

Lemma set_input_signals_rejects_unknown_signal_witness :
  @get_input_signals Fragment.codec Demo.query Demo.inputs = Ok ["A"; "B"; "C"]
  ∧ ∃ signal,
      signal ∈ ["C"; "X"] ∧ (signal ∉ ["A"; "B"; "C"])
      ∧ @set_input_signals Fragment.codec ["C"; "X"] "custom_input.input.json" true
          (Demo.query, Demo.inputs)
        = (Raise (RuntimeError
                    ("Cannot set " +:+ signal +:+ ", not present in available signals ")),
           (Demo.query, Demo.inputs)).
Proof.
  assert (Havailable : @get_input_signals Fragment.codec Demo.query Demo.inputs
                       = Ok ["A"; "B"; "C"]) by (by vm_compute).
  split; [done|].
  apply (@set_input_signals_rejects_unknown_signal Fragment.codec Demo.query
           Demo.inputs ["C"; "X"] ["A"; "B"; "C"] "custom_input.input.json" true
           Havailable).
  exists "X". split; [by right; left|].
  rewrite !not_elem_of_cons. repeat split; try done. apply not_elem_of_nil.
Defined.

(** * Further properties of the reader *)

Lemma has_char_removed (c : ascii) (s : string) :
  Str.has_char c (Str.remove_char c s) = false.
Proof.
  induction s as [|a s IH]; [done|]. simpl.
  destruct (Ascii.eqb a c) eqn:Hac; [done|]. simpl. by rewrite Hac.
Qed.

Lemma has_char_take (c : ascii) (n : nat) (s : string) :
  Str.has_char c s = false → Str.has_char c (Str.take n s) = false.
Proof.
  revert n. induction s as [|a s IH]; intros [|n]; simpl; try done.
  intros [-> Hs]%orb_false_elim. by apply IH.
Qed.

Lemma remove_char_absent (c : ascii) (s : string) :
  Str.has_char c s = false → Str.remove_char c s = s.
Proof.
  induction s as [|a s IH]; [done|]. simpl.
  intros [-> Hs]%orb_false_elim. by rewrite IH.
Qed.

Lemma fix_text_no_tab (final_trailing_comma : bool) (text : string) :
  Str.has_char Str.tab (fix_text final_trailing_comma text) = false.
Proof.
  unfold fix_text, Str.slice_to. destruct final_trailing_comma.
  - apply has_char_take, has_char_removed.
  - apply has_char_removed.
Qed.

(** X1: whatever the flag, the text that reaches the parser holds no tab
    character, tabs inside quoted values included; and with the flag unset
    a text without tabs reaches the parser unchanged. *)
Theorem reader_never_passes_a_tab `{Codec} (fs : filesystem)
    (input_fp text : string) (final_trailing_comma : bool) :
  fs !! input_fp = Some text →
  ∃ cleaned,
    _fix_input_json fs input_fp final_trailing_comma = yaml_load cleaned
    ∧ Str.has_char Str.tab cleaned = false
    ∧ (final_trailing_comma = false → Str.has_char Str.tab text = false →
       cleaned = text).
Proof.
  intros Hfile. exists (fix_text final_trailing_comma text).
  unfold _fix_input_json, open_read. rewrite Hfile.
  split; [done|]. split; [apply fix_text_no_tab|].
  intros -> Htab. unfold fix_text. by apply remove_char_absent.
Qed.

Lemma reader_never_passes_a_tab_witness :
  let text := "he"%string +:+ String Str.tab "llo" in
  ({["f" := text]} : filesystem) !! "f" = Some text
  ∧ ∃ cleaned,
      @_fix_input_json Fragment.codec {["f" := text]} "f" false
      = Fragment.load cleaned
      ∧ Str.has_char Str.tab cleaned = false.
Proof.
  intros text. split; [vm_compute; reflexivity|].
  destruct (@reader_never_passes_a_tab Fragment.codec {["f" := text]} "f" text
              false) as (cleaned & Hload & Htab & _).
  { vm_compute. reflexivity. }
  exists cleaned. split; [exact Hload|exact Htab].
Defined.

Lemma length_app_string (s t : string) :
  String.length (s +:+ t) = (String.length s + String.length t)%nat.
Proof.
  induction s as [|a s IH]; [done|]. rewrite app_cons. simpl. by rewrite IH.
Qed.

(** X2: with the flag set and no comma in the text, [rfind] answers [-1]
    and the slice [[:-1]] drops the last character of the tab-stripped
    text: the parser gets all but that character. *)
Theorem flag_without_comma_drops_last_character `{Codec} (fs : filesystem)
    (input_fp text body : string) (c : ascii) :
  fs !! input_fp = Some text →
  Str.has_char Str.comma text = false →
  Str.remove_char Str.tab text = body +:+ String c EmptyString →
  _fix_input_json fs input_fp true = yaml_load body.
Proof.
  intros Hfile Hcomma Hbody. unfold _fix_input_json, open_read. rewrite Hfile.
  change (yaml_load (fix_text true text) = yaml_load body). f_equal.
  unfold fix_text.
  rewrite rfind_absent by (by rewrite has_char_remove_char).
  rewrite Hbody. unfold Str.slice_to, Str.len.
  rewrite length_app_string. simpl String.length.
  change (-1 <? 0) with true. cbv iota.
  replace (Z.to_nat (Z.max 0 (-1 + Z.of_nat (String.length body + 1))))
    with (String.length body) by lia.
  apply take_app.
Qed.

Lemma flag_without_comma_drops_last_character_witness :
  ({["f" := "12"]} : filesystem) !! "f" = Some "12"
  ∧ Str.has_char Str.comma "12" = false
  ∧ @_fix_input_json Fragment.codec {["f" := "12"]} "f" true = Ok (VInt 1).
Proof.
  split; [vm_compute; reflexivity|]. split; [reflexivity|].
  rewrite (@flag_without_comma_drops_last_character Fragment.codec
             {["f" := "12"]} "f" "12" "1" "2");
    vm_compute; reflexivity.
Defined.

(** * Further properties of the table loader *)

Lemma rows_fold_get {V} (rows : list (string * list V)) (d : dict (list V))
    (key : string) :
  dict_get (fold_left (λ mapping_keys row, dict_setitem mapping_keys row.1 row.2)
              rows d) key
  = match last (rows_labelled key rows) with
    | Some row => Some row.2
    | None => dict_get d key
    end.
Proof.
  revert d. induction rows as [|row rows IH]; intros d; [done|].
  simpl fold_left. rewrite IH. unfold rows_labelled. rewrite last_filter_cons.
  destruct (last (List.filter _ rows)); [done|].
  rewrite dict_get_setitem.
  destruct (String.eqb_spec row.1 key), (decide (row.1 = key)); congruence.
Qed.

(** X3: when exactly one file matches and numpy returns the rows of a
    file, the table loader returns a dictionary with unique keys in which
    every label maps to the items of the LAST row that carries it; a
    label of no row is absent.  When the file holds a single row, numpy
    returns an array of dimension 0 and the loop of the loader raises
    [TypeError]. *)
Theorem table_loader_last_row_wins {V} (genfromtxt : table V)
    (fs : filesystem) (output_dir filename path text : string) :
  glob fs output_dir ("_" +:+ filename +:+ ".csv") = [path] →
  fs !! path = Some text →
  (∀ rows,
     genfromtxt text = Ok (Array1d rows) →
     ∃ mapping_keys,
       _parse_result_csv genfromtxt fs output_dir filename = Ok mapping_keys
       ∧ dict_wf mapping_keys
       ∧ ∀ key, dict_get mapping_keys key
                = snd <$> last (rows_labelled key rows))
  ∧ (∀ record,
       genfromtxt text = Ok (Array0d record) →
       _parse_result_csv genfromtxt fs output_dir filename = Raise TypeError).
Proof.
  intros Hglob Hfile.
  assert (Hload : _parse_result_csv genfromtxt fs output_dir filename
                  = (input_activity ← genfromtxt text;
                     rows ← iter_array input_activity;
                     Ok (rows_to_dict rows))).
  { unfold _parse_result_csv, open_read. rewrite Hglob. simpl. by rewrite Hfile. }
  split.
  - intros rows Hrows. exists (rows_to_dict rows).
    split; [|split; [apply rows_to_dict_wf|]].
    + by rewrite Hload, Hrows.
    + intros key. unfold rows_to_dict. rewrite rows_fold_get.
      by destruct (last _).
  - intros record Hrecord. by rewrite Hload, Hrecord.
Qed.

Lemma table_loader_last_row_wins_witness :
  glob Demo2.tables "out" ("_" +:+ "logic" +:+ ".csv") = ["out/and_logic.csv"]
  ∧ (∃ mapping_keys,
       _parse_result_csv (Fragment.genfromtxt Fragment.bool_cell)
         Demo2.tables "out" "logic" = Ok mapping_keys
       ∧ dict_get mapping_keys "$g1" = Some [false; false]
       ∧ dict_get mapping_keys "in0" = Some [true; true]
       ∧ dict_get mapping_keys "out" = None)
  ∧ _parse_result_csv (Fragment.genfromtxt Fragment.parse_decimal)
      Demo.results_single_row "out" "activity" = Raise TypeError.
Proof.
  assert (Hglob : glob Demo2.tables "out" ("_" +:+ "logic" +:+ ".csv")
                  = ["out/and_logic.csv"]) by (vm_compute; reflexivity).
  assert (Hglob1 : glob Demo.results_single_row "out" ("_" +:+ "activity" +:+ ".csv")
                   = ["out/and_activity.csv"]) by (vm_compute; reflexivity).
  split; [exact Hglob|]. split.
  - destruct (proj1 (table_loader_last_row_wins (Fragment.genfromtxt Fragment.bool_cell)
                       Demo2.tables "out" "logic" "out/and_logic.csv" Demo2.table_text
                       Hglob ltac:(vm_compute; reflexivity))
                [("$g1", [true; false]); ("in0", [true; true]); ("$g1", [false; false])])
      as (mapping_keys & Hload & _ & Hget).
    { vm_compute. reflexivity. }
    exists mapping_keys. split; [exact Hload|].
    rewrite !Hget. vm_compute. repeat split.
  - refine (proj2 (table_loader_last_row_wins (Fragment.genfromtxt Fragment.parse_decimal)
                     Demo.results_single_row "out" "activity" "out/and_activity.csv"
                     ("$g1,5.0,1.0" +:+ Demo.nl) Hglob1 _) ("$g1", [5; 1]%float) _);
      vm_compute; reflexivity.
Defined.

(** * Further properties of the name resolver *)

(** X4: [data["nodes"]] is evaluated inside the loop over the keys.  With
    an empty logic table the resolver returns the empty mapping whatever
    the netlist document is; with a key to resolve, a document that has
    no usable [nodes] raises at once, with the exception of that
    subscript ([KeyError] for a mapping without the key, [TypeError] for a
    document that is no mapping). *)
Theorem resolver_reads_nodes_per_key `{Codec} {V} (fs : filesystem)
    (output_dir path : string) (data : value) :
  glob fs output_dir "_outputNetlist.json" = [path] →
  _fix_input_json fs path true = Ok data →
  _map_symbolic_representation_to_true_name fs output_dir ([] : dict V) = Ok []
  ∧ ∀ (logic_dict : dict V) (e : exn),
      logic_dict ≠ [] →
      getitem data "nodes" = Raise e →
      _map_symbolic_representation_to_true_name fs output_dir logic_dict = Raise e.
Proof.
  intros Hglob Hload. unfold _map_symbolic_representation_to_true_name.
  rewrite Hglob. simpl. rewrite Hload. simpl. split; [done|].
  intros [|[key row] logic_dict] e Hne Hnodes; [done|].
  simpl. by rewrite Hnodes.
Qed.

Lemma resolver_reads_nodes_per_key_witness :
  glob Demo3.no_nodes "out" "_outputNetlist.json" = ["out/and_outputNetlist.json"]
  ∧ @_fix_input_json Fragment.codec Demo3.no_nodes "out/and_outputNetlist.json" true
    = Ok (VDict [("name", VStr "and")])
  ∧ @_map_symbolic_representation_to_true_name Fragment.codec (list bool)
      Demo3.no_nodes "out" [] = Ok []
  ∧ @_map_symbolic_representation_to_true_name Fragment.codec (list bool)
      Demo3.no_nodes "out" [("$g1", [true])] = Raise (KeyError "nodes").
Proof.
  assert (Hglob : glob Demo3.no_nodes "out" "_outputNetlist.json"
                  = ["out/and_outputNetlist.json"]) by (vm_compute; reflexivity).
  assert (Hload : @_fix_input_json Fragment.codec Demo3.no_nodes
                    "out/and_outputNetlist.json" true
                  = Ok (VDict [("name", VStr "and")])) by (vm_compute; reflexivity).
  destruct (@resolver_reads_nodes_per_key Fragment.codec (list bool)
              Demo3.no_nodes "out" _ _ Hglob Hload) as [Hempty Hraise].
  refine (conj Hglob (conj Hload (conj Hempty _))).
  apply Hraise; [discriminate|reflexivity].
Defined.

(** * Further properties of scoring *)

Lemma dict_has_decide {V} (d : dict V) (k : string) :
  dict_has d k = bool_decide (k ∈ dict_keys d).
Proof.
  destruct (dict_has d k) eqn:Hhas.
  - symmetry. by apply bool_decide_eq_true_2, dict_has_keys.
  - symmetry. apply bool_decide_eq_false_2. rewrite <- dict_has_keys. congruence.
Qed.

Lemma forallb_pointwise {A} (f g : A → bool) (l : list A) :
  (∀ x, f x = g x) → forallb f l = forallb g l.
Proof.
  intros Hfg. induction l as [|x l IH]; [done|]. simpl. by rewrite Hfg, IH.
Qed.

Lemma keys_eq_by_keys {V V' W W'} (a : dict V) (a' : dict V') (b : dict W)
    (b' : dict W') :
  dict_keys a = dict_keys a' → dict_keys b = dict_keys b' →
  keys_eq a b = keys_eq a' b'.
Proof.
  intros Ha Hb. unfold keys_eq.
  rewrite <- (length_fmap fst a), <- (length_fmap fst b),
    <- (length_fmap fst a'), <- (length_fmap fst b').
  fold (dict_keys a) (dict_keys b) (dict_keys a') (dict_keys b').
  rewrite Ha, Hb. f_equal. apply forallb_pointwise. intros k.
  by rewrite !dict_has_decide, Hb.
Qed.

Section ScoringMore.

Context {num : Type} `{!Numeric num}.

Lemma score_loop_ext (logic logic' : dict (list bool))
    (activity activity' : dict (list num)) (repressor_keys : list string)
    (score_dict : dict num) :
  Forall (λ key, score_key logic activity key = score_key logic' activity' key)
         repressor_keys →
  score_loop logic activity repressor_keys score_dict
  = score_loop logic' activity' repressor_keys score_dict.
Proof.
  intros Hall. revert score_dict.
  induction Hall as [|key rest Hkey _ IH]; intros score_dict; [done|].
  simpl. rewrite Hkey. destruct (score_key logic' activity' key); simpl; [|done].
  apply IH.
Qed.

(** X5: rows of keys that are not repressors are never read.  Two pairs of
    tables that list the same keys in the same order and agree on the rows
    of every repressor key get the same scores, or the same exception. *)
Theorem score_repressors_ignores_other_rows (logic logic' : dict (list bool))
    (activity activity' : dict (list num)) :
  dict_keys logic = dict_keys logic' →
  dict_keys activity = dict_keys activity' →
  (∀ key, repressor_key key = true →
          dict_get logic key = dict_get logic' key
          ∧ dict_get activity key = dict_get activity' key) →
  score_repressors logic activity = score_repressors logic' activity'.
Proof.
  intros Hlogic Hactivity Hrows. unfold score_repressors.
  rewrite (keys_eq_by_keys logic logic' activity activity') by done.
  destruct (keys_eq logic' activity'); simpl; [|done].
  rewrite Hlogic.
  destruct (filter_repressors (dict_keys logic')) as [kept|] eqn:Hkept;
    simpl; [|done].
  apply filter_repressors_inv in Hkept as ->.
  apply score_loop_ext, Forall_forall.
  intros key [_ Hrep]%in_filter_repressors.
  destruct (Hrows key Hrep) as [Hl Ha].
  unfold score_key, dict_getitem. by rewrite Hl, Ha.
Qed.

Lemma score_loop_first_failure (logic : dict (list bool)) (activity : dict (list num))
    (before after : list string) (key : string) (e : exn) (score_dict : dict num) :
  Forall (λ k, ∃ score, score_key logic activity k = Ok score) before →
  score_key logic activity key = Raise e →
  score_loop logic activity (before ++ key :: after) score_dict = Raise e.
Proof.
  intros Hbefore Hkey. revert score_dict.
  induction Hbefore as [|k before [score Hk] _ IH]; intros score_dict; simpl.
  - by rewrite Hkey.
  - rewrite Hk. simpl. apply IH.
Qed.

(** X6: the repressor keys are scored in the order of the logic table and
    the first one that cannot be scored ends the call: its exception is
    the one the caller sees, and the scores of the keys before it are
    discarded with the unfinished dictionary. *)
Theorem scoring_stops_at_first_failure (logic : dict (list bool))
    (activity : dict (list num)) (before after : list string) (key : string)
    (e : exn) :
  keys_eq logic activity = true →
  Forall (λ k, k ≠ EmptyString) (dict_keys logic) →
  List.filter repressor_key (dict_keys logic) = before ++ key :: after →
  Forall (λ k, ∃ score, score_key logic activity k = Ok score) before →
  score_key logic activity key = Raise e →
  score_repressors logic activity = Raise e.
Proof.
  intros Hkeys Hnonempty Hsplit Hbefore Hkey. unfold score_repressors.
  rewrite Hkeys, filter_repressors_ok by done. simpl. rewrite Hsplit.
  by apply score_loop_first_failure.
Qed.

(** X7: a repressor key whose truth row is shorter than its activity row
    raises [IndexError], from [truth_table[idx]], before [min] or [max]
    are reached; when the keys before it score, that is the exception of
    the whole call. *)
Theorem short_truth_row_raises_IndexError (logic : dict (list bool))
    (activity : dict (list num)) (before after : list string) (key : string)
    (truth_table : list bool) (activity_values : list num) :
  keys_eq logic activity = true →
  Forall (λ k, k ≠ EmptyString) (dict_keys logic) →
  List.filter repressor_key (dict_keys logic) = before ++ key :: after →
  Forall (λ k, ∃ score, score_key logic activity k = Ok score) before →
  dict_get logic key = Some truth_table →
  dict_get activity key = Some activity_values →
  (length truth_table < length activity_values)%nat →
  score_repressors logic activity = Raise IndexError.
Proof.
  intros Hkeys Hnonempty Hsplit Hbefore Hlogic Hactivity Hshort.
  unfold score_repressors.
  rewrite Hkeys, filter_repressors_ok by done. simpl. rewrite Hsplit.
  apply score_loop_first_failure; [done|].
  by eapply score_key_short.
Qed.

Lemma score_loop_returns_inv (logic : dict (list bool)) (activity : dict (list num))
    (repressor_keys : list string) (score_dict scores : dict num) :
  score_loop logic activity repressor_keys score_dict = Ok scores →
  Forall (λ k, ∃ score, score_key logic activity k = Ok score) repressor_keys.
Proof.
  revert score_dict. induction repressor_keys as [|key rest IH];
    intros score_dict Hloop; [constructor|].
  simpl in Hloop. destruct (score_key logic activity key) as [score|] eqn:Hkey;
    [|done].
  constructor; [eauto|]. by eapply IH.
Qed.

Lemma filter_repressors_nonempty (keys kept : list string) :
  filter_repressors keys = Ok kept → Forall (λ k, k ≠ EmptyString) keys.
Proof.
  revert kept. induction keys as [|x keys IH]; intros kept; [constructor|].
  simpl. destruct x as [|c x]; [done|]. simpl.
  destruct (filter_repressors keys) as [kept'|]; [|done].
  intros _. constructor; [done|]. by eapply IH.
Qed.

(** X8: when scoring returns.  [score_repressors] returns a dictionary
    exactly when the two tables have the same key set, no key is the empty
    string, and every repressor key of the logic table can be scored. *)
Theorem score_repressors_returns_iff (logic : dict (list bool))
    (activity : dict (list num)) :
  (∃ scores, score_repressors logic activity = Ok scores)
  ↔ keys_eq logic activity = true
    ∧ Forall (λ k, k ≠ EmptyString) (dict_keys logic)
    ∧ Forall (λ k, repressor_key k = true →
                   ∃ score, score_key logic activity k = Ok score)
             (dict_keys logic).
Proof.
  split.
  - intros [scores Hscores]. unfold score_repressors in Hscores.
    destruct (keys_eq logic activity); [|done]. simpl in Hscores.
    destruct (filter_repressors (dict_keys logic)) as [kept|] eqn:Hkept; [|done].
    simpl in Hscores. split; [done|].
    split; [by eapply filter_repressors_nonempty|].
    apply filter_repressors_inv in Hkept as ->.
    apply score_loop_returns_inv in Hscores.
    rewrite Forall_forall in Hscores |- *. intros k Hin Hrep.
    by apply Hscores, in_filter_repressors.
  - intros (Hkeys & Hnonempty & Hscored). by apply score_repressors_returns.
Qed.

End ScoringMore.

Lemma score_repressors_ignores_other_rows_witness :
  @score_repressors float Fragment.numeric
    [("in0", [true; false]); ("$g", [true; true])]
    [("in0", [1; 2]%float); ("$g", [5; 6]%float)]
  = @score_repressors float Fragment.numeric
      [("in0", [false]); ("$g", [true; true])]
      [("in0", []); ("$g", [5; 6]%float)].
Proof.
  apply (@score_repressors_ignores_other_rows float Fragment.numeric);
    [reflexivity..|].
  intros key Hrep. rewrite !dict_get_cons.
  destruct (String.eqb_spec "in0" key) as [<-|_]; [discriminate Hrep|].
  by destruct (String.eqb "$g" key).
Defined.

Lemma scoring_stops_at_first_failure_witness :
  let logic := [("$a", [true; false]); ("$b", [true; true]); ("$c", [])] in
  let activity := [("$a", [5; 1]%R); ("$b", [5; 6]%R); ("$c", [])] in
  @score_key R real logic activity "$a" = Ok (ln (5 / 1))
  ∧ @score_key R real logic activity "$b" = Raise ValueError
  ∧ @score_repressors R real logic activity = Raise ValueError.
Proof.
  intros logic activity.
  assert (Ha : @score_key R real logic activity "$a" = Ok (ln (5 / 1))).
  { unfold score_key. repeat (cbn; real_decide). reflexivity. }
  assert (Hb : @score_key R real logic activity "$b" = Raise ValueError)
    by reflexivity.
  refine (conj Ha (conj Hb _)).
  apply (@scoring_stops_at_first_failure R real logic activity ["$a"] ["$c"] "$b");
    [reflexivity| |reflexivity| |exact Hb].
  - repeat constructor; discriminate.
  - repeat constructor. eexists. exact Ha.
Defined.

Lemma short_truth_row_raises_IndexError_witness :
  (length [true] < length [5; 1]%float)%nat
  ∧ @score_repressors float Fragment.numeric
      [("$g", [true]); ("in0", [true])] [("$g", [5; 1]%float); ("in0", [1]%float)]
    = Raise IndexError.
Proof.
  split; [simpl; lia|].
  apply (@short_truth_row_raises_IndexError float Fragment.numeric
           _ _ [] [] "$g" [true] [5; 1]%float);
    [reflexivity| |reflexivity|constructor|reflexivity|reflexivity|simpl; lia].
  repeat constructor; discriminate.
Defined.

(** * Further properties of the log scan *)

Lemma lines_nonempty (a : ascii) (s : string) : Str.lines (String a s) ≠ [].
Proof. simpl. destruct (Ascii.eqb a Str.newline); [done|]. by destruct (Str.lines s). Qed.

Lemma lines_app (head tail : string) :
  Str.lines (head +:+ String Str.newline tail)
  = Str.lines (head +:+ String Str.newline EmptyString) ++ Str.lines tail.
Proof.
  induction head as [|a head IH].
  - reflexivity.
  - rewrite !app_cons. simpl. destruct (Ascii.eqb a Str.newline).
    + by rewrite IH.
    + rewrite IH.
      destruct (Str.lines (head +:+ String Str.newline EmptyString)) as [|l ls] eqn:Hl;
        [|done].
      destruct head; [rewrite app_nil in Hl|rewrite app_cons in Hl];
        by apply lines_nonempty in Hl.
Qed.

Lemma scan_log_app {num} (py_float : float_parser num) (lines more : list string) :
  Exists (λ l, Str.contains marker l = true) lines →
  scan_log py_float (lines ++ more) = scan_log py_float lines.
Proof.
  induction lines as [|l lines IH]; intros Hex; [by apply Exists_nil in Hex|].
  simpl. destruct (Str.contains marker l) eqn:Hl; [done|].
  apply Exists_cons in Hex as [Hex|Hex]; [congruence|]. by apply IH.
Qed.

(** X9: nothing after the first marker line is read.  When a log whose
    text ends in a newline holds a marker line, any text appended to it
    leaves the outcome of [_parse_log_file] as it was, be it the score or
    the [ValueError] of [float]. *)
Theorem log_after_first_marker_is_ignored {num} (py_float : float_parser num)
    (fs fs' : filesystem) (output_dir output_dir' path path' head tail : string) :
  glob fs output_dir ".log" = [path] →
  fs !! path = Some (head +:+ String Str.newline EmptyString) →
  glob fs' output_dir' ".log" = [path'] →
  fs' !! path' = Some (head +:+ String Str.newline tail) →
  Exists (λ l, Str.contains marker l = true)
         (Str.lines (head +:+ String Str.newline EmptyString)) →
  _parse_log_file py_float fs' output_dir' = _parse_log_file py_float fs output_dir.
Proof.
  intros Hglob Hfile Hglob' Hfile' Hmarker.
  rewrite (parse_log_file_single _ _ _ _ _ Hglob Hfile),
    (parse_log_file_single _ _ _ _ _ Hglob' Hfile').
  rewrite lines_app. by apply scan_log_app.
Qed.

Lemma log_after_first_marker_is_ignored_witness :
  _parse_log_file Fragment.parse_decimal Demo4.results_longer_log "out"
  = _parse_log_file Fragment.parse_decimal Demo4.results "out"
  ∧ _parse_log_file Fragment.parse_decimal Demo4.results "out" = Ok 12.5%float.
Proof.
  split; [|vm_compute; reflexivity].
  apply (log_after_first_marker_is_ignored Fragment.parse_decimal
           Demo4.results Demo4.results_longer_log "out" "out" "out/log.log"
           "out/log.log"
           ("INFO start" +:+ Demo.nl +:+ "INFO SimulatedAnnealing - Score: 12.5")
           ("INFO SimulatedAnnealing - Score: 99" +:+ Demo.nl +:+ "INFO done")).
  - vm_compute. reflexivity.
  - vm_compute. reflexivity.
  - vm_compute. reflexivity.
  - vm_compute. reflexivity.
  - assert (Hlines :
      Str.lines (("INFO start" +:+ Demo.nl
                  +:+ "INFO SimulatedAnnealing - Score: 12.5")
                 +:+ String Str.newline EmptyString)
      = ["INFO start" +:+ Demo.nl;
         "INFO SimulatedAnnealing - Score: 12.5" +:+ Demo.nl])
      by (vm_compute; reflexivity).
    rewrite Hlines. apply Exists_cons_tl, Exists_cons_hd.
    vm_compute. reflexivity.
Defined.

(** * The construction of [CelloResult] as a whole *)

Lemma resolve_key_other (key : string) (nodes : list value)
    (out_mapping out : dict value) (k : string) :
  resolve_key key nodes out_mapping = Ok out → k ≠ key →
  dict_get out k = dict_get out_mapping k.
Proof.
  revert out_mapping. induction nodes as [|node nodes IH]; intros out_mapping;
    simpl; [by intros [= <-]|].
  destruct (getitem node "name") as [name|]; simpl; [|done].
  destruct (eq_str name key).
  - destruct (getitem node "deviceName") as [device|]; simpl; [|done].
    intros Hout Hne. rewrite (IH _ Hout Hne), dict_get_setitem.
    by destruct (decide (key = k)).
  - apply IH.
Qed.

Lemma resolve_keys_other (data : value) (keys : list string)
    (out_mapping out : dict value) (k : string) :
  resolve_keys data keys out_mapping = Ok out → k ∉ keys →
  dict_get out k = dict_get out_mapping k.
Proof.
  revert out_mapping. induction keys as [|key keys IH]; intros out_mapping;
    simpl; [by intros [= <-]|].
  destruct (getitem data "nodes") as [nodes_v|]; simpl; [|done].
  destruct (iterate nodes_v) as [nodes|]; simpl; [|done].
  destruct (resolve_key key nodes out_mapping) as [out1|] eqn:Hkey; simpl; [|done].
  intros Hout [Hne Hnotin]%not_elem_of_cons.
  rewrite (IH _ Hout Hnotin). by eapply resolve_key_other.
Qed.

Lemma resolver_keys `{Codec} {V} (fs : filesystem) (output_dir : string)
    (logic : dict V) (names : dict value) (k : string) :
  _map_symbolic_representation_to_true_name fs output_dir logic = Ok names →
  is_Some (dict_get names k) → k ∈ dict_keys logic.
Proof.
  unfold _map_symbolic_representation_to_true_name.
  repeat case_match; try done.
  destruct (list_first _); simpl; [|done].
  destruct (_fix_input_json _ _ _) as [data|]; simpl; [|done].
  intros Hout Hsome. destruct (decide (k ∈ dict_keys logic)); [done|].
  rewrite (resolve_keys_other _ _ _ _ k Hout) in Hsome by done.
  by destruct Hsome.
Qed.

(** X10: what a constructed [CelloResult] always satisfies.  Both tables
    have unique keys and the same key set; every key of [part_names] is a
    key of the logic table; and [repressor_scores] holds a score for
    exactly the keys of the logic table that start with [$]. *)
Theorem constructed_result_invariants `{Codec} {num} `{!Numeric num}
    (genfromtxt_logic : table bool) (genfromtxt_activity : table num)
    (py_float : float_parser num) (fs : filesystem) (results_dir : string)
    (r : CelloResult num) :
  CelloResult_init genfromtxt_logic genfromtxt_activity py_float fs results_dir
  = Ok r →
  output_dir r = results_dir
  ∧ dict_wf (logic_dict r) ∧ dict_wf (activity_dict r)
  ∧ (∀ k, k ∈ dict_keys (logic_dict r) ↔ k ∈ dict_keys (activity_dict r))
  ∧ (∀ k, is_Some (dict_get (part_names r) k) → k ∈ dict_keys (logic_dict r))
  ∧ (∀ k, is_Some (dict_get (repressor_scores r) k)
          ↔ k ∈ dict_keys (logic_dict r) ∧ repressor_key k = true).
Proof.
  unfold CelloResult_init. intros Hinit.
  destruct (_parse_result_csv genfromtxt_logic _ _ _) as [logic|] eqn:Hlogic;
    [|done].
  simpl in Hinit.
  destruct (_parse_result_csv genfromtxt_activity _ _ _) as [activity|] eqn:Hactivity;
    [|done].
  simpl in Hinit.
  destruct (_map_symbolic_representation_to_true_name _ _ _) as [names|] eqn:Hnames;
    [|done].
  simpl in Hinit.
  destruct (score_repressors logic activity) as [scores|] eqn:Hscores; [|done].
  simpl in Hinit.
  destruct (_parse_log_file _ _ _) as [circuit|]; [|done].
  injection Hinit as <-. simpl.
  pose proof (parse_result_csv_wf _ _ _ _ _ Hlogic) as Hwl.
  pose proof (parse_result_csv_wf _ _ _ _ _ Hactivity) as Hwa.
  split; [done|]. split; [done|]. split; [done|]. split; [|split].
  - apply keys_eq_spec; [done..|]. by apply score_repressors_inv in Hscores as [? _].
  - intros k. by eapply resolver_keys.
  - destruct (score_repressors_general _ _ _ Hscores) as [Hrep Hother].
    intros k. split.
    + intros Hsome. destruct (repressor_key k) eqn:Hk.
      * split; [|done]. destruct (decide (k ∈ dict_keys logic)); [done|].
        rewrite Hother in Hsome; [by destruct Hsome|].
        right. by apply dict_get_None_keys.
      * rewrite Hother in Hsome by (by left). by destruct Hsome.
    + intros [Hin Hk]. destruct (dict_get logic k) as [truth|] eqn:Hget.
      * destruct (Hrep k truth Hget Hk) as (? & ? & ? & ? & score & ? & ? & ? & ? & ? & ->).
        by eexists.
      * by apply dict_get_None_keys in Hget.
Qed.

Lemma constructed_result_invariants_witness :
  ∃ r, @CelloResult_init Fragment.codec float Demo4.numeric
         (Fragment.genfromtxt Fragment.bool_cell)
         (Fragment.genfromtxt Fragment.parse_decimal)
         Fragment.parse_decimal Demo4.results "out" = Ok r
       ∧ repressor_scores r = [("$g1", 0%float)]
       ∧ circuit_score r = 12.5%float
       ∧ (∀ k, is_Some (dict_get (repressor_scores r) k)
               ↔ k ∈ dict_keys (logic_dict r) ∧ repressor_key k = true).
Proof.
  eexists. split; [vm_compute; reflexivity|].
  split; [reflexivity|]. split; [reflexivity|].
  refine (proj2 (proj2 (proj2 (proj2 (proj2
            (@constructed_result_invariants Fragment.codec float Demo4.numeric
               (Fragment.genfromtxt Fragment.bool_cell)
               (Fragment.genfromtxt Fragment.parse_decimal)
               Fragment.parse_decimal Demo4.results "out" _ _)))))).
  vm_compute. reflexivity.
Defined.

(** * [get_part_map] *)

Lemma vdict_setitem_string_keyed (d : vdict) (a x : string) :
  string_keyed d → string_keyed (vdict_setitem d (VStr a) x).
Proof.
  induction 1 as [|[k' x'] d [s Hs] Hd IH]; simpl.
  - repeat constructor. by exists a.
  - simpl in Hs. subst k'. simpl. destruct (String.eqb s a).
    + constructor; [by exists s|done].
    + constructor; [by exists s|done].
Qed.

Lemma vdict_get_setitem (d : vdict) (a b x : string) :
  string_keyed d →
  vdict_get (vdict_setitem d (VStr a) x) (VStr b)
  = if String.eqb a b then Some x else vdict_get d (VStr b).
Proof.
  induction 1 as [|[k' x'] d [s Hs] _ IH]; simpl.
  - by destruct (String.eqb a b).
  - simpl in Hs. subst k'. simpl.
    destruct (String.eqb_spec s a) as [->|Hsa]; simpl.
    + by destruct (String.eqb a b).
    + rewrite IH.
      destruct (String.eqb_spec s b) as [->|Hsb]; [|done].
      by destruct (String.eqb_spec a b) as [->|].
Qed.

Lemma invert_items_strings (items : dict value) (acc : vdict) :
  string_valued items → string_keyed acc →
  ∃ part_map,
    invert_items items acc = Ok part_map
    ∧ string_keyed part_map
    ∧ ∀ part, vdict_get part_map (VStr part)
              = match last (entries_of_part part items) with
                | Some entry => Some entry.1
                | None => vdict_get acc (VStr part)
                end.
Proof.
  intros Hitems. revert acc.
  induction Hitems as [|[k v] items [s Hs] _ IH]; intros acc Hacc.
  - exists acc. by repeat split.
  - simpl in Hs. subst v. cbn [invert_items hashable].
    destruct (IH (vdict_setitem acc (VStr s) k)) as (part_map & -> & Hkeyed & Hget);
      [by apply vdict_setitem_string_keyed|].
    exists part_map. split; [done|]. split; [done|].
    intros part. rewrite Hget. unfold entries_of_part.
    rewrite last_filter_cons. destruct (last (List.filter _ items)); [done|].
    rewrite vdict_get_setitem by done. unfold eq_str. cbn [snd fst py_eq].
    by destruct (String.eqb s part).
Qed.

Lemma invert_items_unhashable (items : dict value) (acc : vdict) :
  Exists (λ entry : string * value, hashable entry.2 = false) items →
  invert_items items acc = Raise TypeError.
Proof.
  intros Hex. revert acc. induction items as [|[k v] items IH]; intros acc;
    [by apply Exists_nil in Hex|].
  simpl. destruct (hashable v) eqn:Hv; [|done].
  apply Exists_cons in Hex as [Hex|Hex]; [simpl in Hex; congruence|].
  by apply IH.
Qed.

Lemma entries_of_part_unique (part_names : dict value) (key part : string) :
  NoDup part_names.*2 →
  (key, VStr part) ∈ part_names →
  entries_of_part part part_names = [(key, VStr part)].
Proof.
  unfold entries_of_part.
  induction part_names as [|[k v] part_names IH]; intros Hnodup Hin;
    [by apply elem_of_nil in Hin|].
  rewrite fmap_cons in Hnodup. apply NoDup_cons in Hnodup as [Hnotin Hnodup].
  simpl in Hnotin.
  assert (Hrest : ∀ l : dict value, VStr part ∉ l.*2 →
                    List.filter (λ entry : string * value, eq_str entry.2 part) l = []).
  { clear. induction l as [|[k' v'] l IHl]; intros Hl; [done|].
    rewrite fmap_cons in Hl. apply not_elem_of_cons in Hl as [Hne Hl]. simpl in *.
    destruct (eq_str v' part) eqn:Heq; [|by apply IHl].
    by apply eq_str_true in Heq. }
  apply elem_of_cons in Hin as [[= <- <-]|Hin]; simpl.
  - unfold eq_str at 1. simpl. rewrite String.eqb_refl. f_equal. by apply Hrest.
  - destruct (eq_str v part) eqn:Heq; [|by apply IH].
    apply eq_str_true in Heq as ->. destruct Hnotin.
    apply list_elem_of_fmap. by exists (key, VStr part).
Qed.

(** X11: [get_part_map] inverts [part_names].  When every part is a
    string, each part is mapped to the LAST key that carries it, and a
    string that is no part is absent; so when the parts are pairwise
    distinct, looking a part up returns the very key whose part it is.
    A part that is a list or a mapping cannot be a key: [TypeError]. *)
Theorem get_part_map_inverts (part_names : dict value) :
  (string_valued part_names →
   ∃ part_map,
     get_part_map part_names = Ok part_map
     ∧ (∀ part, vdict_get part_map (VStr part)
                = fst <$> last (entries_of_part part part_names))
     ∧ (NoDup part_names.*2 →
        ∀ key part, (key, VStr part) ∈ part_names →
                    vdict_get part_map (VStr part) = Some key))
  ∧ (Exists (λ entry : string * value, hashable entry.2 = false) part_names →
     get_part_map part_names = Raise TypeError).
Proof.
  split; [|apply invert_items_unhashable].
  intros Hstrings.
  destruct (invert_items_strings part_names [] Hstrings) as (part_map & Hmap & _ & Hget);
    [constructor|].
  exists part_map. split; [done|]. split.
  - intros part. rewrite Hget. by destruct (last _).
  - intros Hnodup key part Hin. rewrite Hget.
    by rewrite (entries_of_part_unique _ key part).
Qed.

Lemma get_part_map_inverts_witness :
  let part_names := [("$g1", VStr "A1_AmtR"); ("in0", VStr "LacI_sensor");
                     ("$g2", VStr "A1_AmtR")] in
  ∃ part_map,
    get_part_map part_names = Ok part_map
    ∧ vdict_get part_map (VStr "A1_AmtR") = Some "$g2"
    ∧ vdict_get part_map (VStr "LacI_sensor") = Some "in0"
    ∧ vdict_get part_map (VStr "P1_PhlF") = None.
Proof.
  intros part_names.
  destruct (proj1 (get_part_map_inverts part_names)) as (part_map & Hmap & Hget & _).
  { repeat constructor; by eexists. }
  exists part_map. split; [exact Hmap|]. rewrite !Hget. repeat split.
Defined.

(** * Further properties of [CelloQuery] *)

Lemma collect_signals_step (row : value) (rows : list value)
    (name_list : list string) :
  sensor_row_ok row = true →
  collect_signals (row :: rows) name_list
  = collect_signals rows
      (name_list ++ omap row_signal (List.filter is_sensor_row [row])).
Proof.
  intros Hrow. cbn [collect_signals List.filter].
  unfold sensor_row_ok, is_sensor_row, row_signal in *.
  destruct (getitem row "collection") as [collection|] eqn:Hc; [|done].
  cbn [mbind result_bind].
  destruct (eq_str collection "input_sensors");
    [|cbn [omap list_omap]; by rewrite app_nil_r].
  apply bool_decide_eq_true in Hrow as [sig Hsig].
  destruct (getitem row "name") as [[|?|?|?|s|?|?]|] eqn:Hn; try done.
  cbn [mbind result_bind omap list_omap]. rewrite Hn.
  unfold signal_of_name, list_first.
  destruct (Str.split Str.underscore s) as [|w ws]; [done|].
  simpl in Hsig. injection Hsig as ->. done.
Qed.

Lemma collect_signals_spec (rows : list value) (name_list : list string) :
  Forall (λ row, sensor_row_ok row = true) rows →
  collect_signals rows name_list
  = Ok (name_list ++ omap row_signal (List.filter is_sensor_row rows)).
Proof.
  intros Hok. revert name_list.
  induction Hok as [|row rows Hrow _ IH]; intros name_list.
  - simpl. by rewrite app_nil_r.
  - rewrite collect_signals_step by done. rewrite IH.
    cbn [List.filter]. destruct (is_sensor_row row); cbn [omap list_omap].
    + destruct (row_signal row); cbn [app]; by rewrite <- ?app_assoc, ?app_nil_r.
    + by rewrite app_nil_r.
Qed.

(** X12: [get_input_signals] returns, in file order and with repetitions,
    one signal for every row whose collection is [input_sensors], and
    nothing for the rows of other collections, whenever every row has a
    collection and every sensor row a string name. *)
Theorem get_input_signals_lists_sensor_rows `{Codec} (q : CelloQuery)
    (fs : filesystem) (rows : list value) :
  _fix_input_json fs (in_input_directory q (fmt (input_sensors q))) false
  = Ok (VList rows) →
  Forall (λ row, sensor_row_ok row = true) rows →
  get_input_signals q fs
  = Ok (omap row_signal (List.filter is_sensor_row rows)).
Proof.
  intros Hload Hok. unfold get_input_signals, signals_of.
  rewrite Hload. simpl. by rewrite collect_signals_spec.
Qed.

Lemma get_input_signals_lists_sensor_rows_witness :
  @_fix_input_json Fragment.codec Demo.inputs "in/Eco.input.json" false
  = Ok Demo.sensors_doc
  ∧ @get_input_signals Fragment.codec Demo.query Demo.inputs = Ok ["A"; "B"; "C"].
Proof.
  assert (Hload : @_fix_input_json Fragment.codec Demo.inputs
                    (in_input_directory Demo.query (fmt (input_sensors Demo.query)))
                    false
                  = Ok Demo.sensors_doc) by (vm_compute; reflexivity).
  split; [exact Hload|].
  rewrite (@get_input_signals_lists_sensor_rows Fragment.codec Demo.query
             Demo.inputs _ Hload); [reflexivity|].
  repeat constructor.
Defined.

Lemma split_first (c : ascii) (s : string) :
  head (Str.split c s) = Some (before c s).
Proof.
  induction s as [|a s IH]; [done|]. simpl.
  destruct (Ascii.eqb a c); [done|].
  destruct (Str.split c s) as [|w ws]; [done|].
  simpl in *. by injection IH as ->.
Qed.

Lemma before_app (c : ascii) (s t : string) :
  before c (s +:+ String c t) = before c s.
Proof.
  induction s as [|a s IH].
  - rewrite app_nil. simpl. by rewrite Ascii.eqb_refl.
  - rewrite app_cons. simpl. destruct (Ascii.eqb a c); [done|]. by rewrite IH.
Qed.

Lemma before_id (c : ascii) (s : string) :
  before c s = s ↔ Str.has_char c s = false.
Proof.
  induction s as [|a s IH]; [done|]. simpl.
  destruct (Ascii.eqb a c); simpl; [done|].
  rewrite <- IH. split; [by intros [= ?]|by intros ->].
Qed.

Lemma app_inv_tail_string (s s' t : string) : s +:+ t = s' +:+ t → s = s'.
Proof.
  revert s'. induction s as [|a s IH]; intros [|a' s'] Heq; [done|..].
  - apply (f_equal String.length) in Heq. rewrite app_nil, app_cons in Heq.
    simpl in Heq. rewrite length_app_string in Heq. lia.
  - apply (f_equal String.length) in Heq. rewrite app_nil, app_cons in Heq.
    simpl in Heq. rewrite length_app_string in Heq. lia.
  - rewrite !app_cons in Heq. injection Heq as -> Heq. f_equal. by apply IH.
Qed.

(** X13: the naming convention, both ways.  For a sensor row named
    [sig_sensor], [get_input_signals] reports the text of [sig] before its
    first underscore; [set_input_signals] looks for the requested signal
    followed by [_sensor].  So asking for a reported signal finds the row
    it was reported for exactly when [sig] holds no underscore. *)
Theorem reported_signal_finds_its_row (sig : string) :
  signal_of_name (VStr (sig +:+ "_sensor")) = Ok (before Str.underscore sig)
  ∧ (in_strs (VStr (sig +:+ "_sensor"))
       ((λ s, s +:+ "_sensor") <$> [before Str.underscore sig]) = true
     ↔ Str.has_char Str.underscore sig = false).
Proof.
  split.
  - unfold signal_of_name, list_first.
    pose proof (split_first Str.underscore (sig +:+ "_sensor")) as Hhead.
    change (sig +:+ "_sensor") with (sig +:+ String Str.underscore "sensor") in *.
    rewrite before_app in Hhead.
    destruct (Str.split _ _) as [|w ws]; simpl in Hhead; [done|].
    by injection Hhead as ->.
  - unfold in_strs. simpl. rewrite orb_false_r, String.eqb_eq, <- before_id.
    split; [apply app_inv_tail_string|by intros ->].
Qed.

Lemma prune_loop_all_kept (suffix target_collection : string)
    (in_signals : list string) (rows : list value) (fuel i : nat) :
  Forall (λ row, kept_by_pass suffix target_collection in_signals row = true) rows →
  prune_loop ((λ sig, sig +:+ suffix) <$> in_signals) target_collection fuel i rows
  = Ok rows.
Proof.
  intros Hkept. revert i. induction fuel as [|fuel IH]; intros i; [done|].
  simpl. destruct (rows !! i) as [row|] eqn:Hrow; [|done].
  rewrite Forall_forall in Hkept.
  specialize (Hkept row (list_elem_of_lookup_2 _ _ _ Hrow)).
  unfold kept_by_pass in Hkept.
  destruct (getitem row "collection") as [collection|]; [|done]. simpl.
  destruct (eq_str collection target_collection); [|apply IH].
  destruct (getitem row "name") as [name|]; [|done]. simpl.
  rewrite Hkept. simpl. apply IH.
Qed.

Lemma prune_pass_all_kept (suffix target_collection : string)
    (in_signals : list string) (rows : list value) :
  Forall (λ row, kept_by_pass suffix target_collection in_signals row = true) rows →
  _prune_other_sensors suffix target_collection (VList rows) in_signals
  = Ok (VList rows).
Proof.
  intros Hkept. unfold _prune_other_sensors.
  by rewrite prune_loop_all_kept.
Qed.

(** X14: selecting everything changes nothing.  When every row of the
    three pruned collections is named after a requested signal (and every
    row has a collection), the three passes remove no row and [prune]
    returns the document it was given. *)
Theorem prune_keeps_fully_selected_document (rows : list value)
    (input_signals : list string) :
  Forall (λ row, kept_by_prune input_signals row = true) rows →
  prune (VList rows) input_signals = Ok (VList rows).
Proof.
  intros Hkept. unfold prune.
  assert (H1 : Forall (λ row, kept_by_pass "_sensor" "input_sensors"
                                 input_signals row = true) rows).
  { eapply Forall_impl; [exact Hkept|]. intros row Hrow.
    unfold kept_by_prune in Hrow. by repeat apply andb_true_iff in Hrow as [Hrow _]. }
  assert (H2 : Forall (λ row, kept_by_pass "_sensor_model" "models"
                                 input_signals row = true) rows).
  { eapply Forall_impl; [exact Hkept|]. intros row Hrow.
    unfold kept_by_prune in Hrow.
    apply andb_true_iff in Hrow as [Hrow _]. by apply andb_true_iff in Hrow as [_ Hrow]. }
  assert (H3 : Forall (λ row, kept_by_pass "_sensor_structure" "structures"
                                 input_signals row = true) rows).
  { eapply Forall_impl; [exact Hkept|]. intros row Hrow.
    unfold kept_by_prune in Hrow. by apply andb_true_iff in Hrow as [_ Hrow]. }
  rewrite (prune_pass_all_kept _ _ _ _ H1). cbn [mbind result_bind].
  rewrite (prune_pass_all_kept _ _ _ _ H2). cbn [mbind result_bind].
  exact (prune_pass_all_kept _ _ _ _ H3).
Qed.

Lemma prune_keeps_fully_selected_document_witness :
  prune Demo.sensors_doc ["A"; "B"; "C"] = Ok Demo.sensors_doc.
Proof.
  apply (prune_keeps_fully_selected_document _ ["A"; "B"; "C"]).
  repeat constructor.
Defined.

(** ** Pruning when the removed rows stand alone *)

Lemma py_eq_str_r (v : value) (s : string) : py_eq v (VStr s) = true → v = VStr s.
Proof. destruct v; simpl; try done. by intros ->%String.eqb_eq. Qed.

Lemma py_eq_str_l (v : value) (s : string) : py_eq (VStr s) v = true → v = VStr s.
Proof. destruct v; simpl; try done. by intros ->%String.eqb_eq. Qed.

Lemma in_strs_elem (v : value) (l : list string) :
  in_strs v l = true ↔ ∃ s, v = VStr s ∧ s ∈ l.
Proof.
  unfold in_strs. rewrite existsb_exists. split.
  - intros (s & Hin & Heq). exists s.
    split; [by apply py_eq_str_l|by apply list_elem_of_In].
  - intros (s & -> & Hin). exists s.
    split; [by apply list_elem_of_In|]. simpl. apply String.eqb_refl.
Qed.

(** Equal mappings give equal items under every key of the first. *)
Lemma py_eq_dict_get (d1 d2 : list (string * value)) (k : string) (v : value) :
  py_eq (VDict d1) (VDict d2) = true →
  dict_get d1 k = Some v →
  ∃ w, dict_get d2 k = Some w ∧ py_eq v w = true.
Proof.
  simpl. intros [_ Hitems]%andb_true_iff. revert Hitems.
  induction d1 as [|[k' v'] d1 IH]; intros Hitems Hget; [done|].
  simpl in Hitems. destruct (dict_get d2 k') as [w|] eqn:Hw; [|done].
  apply andb_true_iff in Hitems as [Hv Hitems].
  rewrite dict_get_cons in Hget. destruct (String.eqb k' k) eqn:Hk.
  - apply String.eqb_eq in Hk as <-. injection Hget as <-. by exists w.
  - by apply IH.
Qed.

Section pass.
Variables (suffix target_collection : string) (in_signals : list string).

#[local] Abbreviation keep := (kept_by_pass suffix target_collection in_signals).
#[local] Abbreviation remove := (removed_by_pass suffix target_collection in_signals).
#[local] Abbreviation loop :=
  (prune_loop ((λ sig, sig +:+ suffix) <$> in_signals) target_collection).

Lemma prune_step_keep (fuel i : nat) (rows : list value) (row : value) :
  rows !! i = Some row → keep row = true →
  loop (S fuel) i rows = loop fuel (S i) rows.
Proof.
  intros Hrow Hkeep. cbn [prune_loop]. rewrite Hrow.
  unfold kept_by_pass in Hkeep.
  destruct (getitem row "collection") as [collection|]; [|done].
  cbn [mbind result_bind].
  destruct (eq_str collection target_collection); [|done].
  destruct (getitem row "name") as [name|]; [|done].
  cbn [mbind result_bind]. by rewrite Hkeep.
Qed.

Lemma prune_step_remove (fuel i : nat) (rows : list value) (row : value) :
  rows !! i = Some row → remove row = true →
  loop (S fuel) i rows = loop fuel (S i) (list_remove row i rows).
Proof.
  intros Hrow Hremove. cbn [prune_loop]. rewrite Hrow.
  unfold removed_by_pass in Hremove.
  destruct (getitem row "collection") as [collection|]; [|done].
  cbn [mbind result_bind].
  apply andb_true_iff in Hremove as [-> Hremove].
  destruct (getitem row "name") as [name|]; [|done].
  cbn [mbind result_bind]. by rewrite Hremove.
Qed.

(** A row the pass keeps never equals a row the pass removes, so
    [remove] takes out the row the loop is at. *)
Lemma kept_not_eq_removed (x row : value) :
  keep x = true → remove row = true → py_eq x row = false.
Proof.
  intros Hkeep Hremove. destruct (py_eq x row) eqn:Heq; [|done]. exfalso.
  unfold kept_by_pass in Hkeep. unfold removed_by_pass in Hremove.
  destruct x as [| | | | | |d1]; try done.
  destruct row as [| | | | | |d2]; try done.
  unfold getitem, dict_getitem in *.
  destruct (dict_get d1 "collection") as [c1|] eqn:Hc1; [|done].
  destruct (dict_get d2 "collection") as [c2|] eqn:Hc2; [|done].
  apply andb_true_iff in Hremove as [Hc Hremove].
  apply py_eq_str_r in Hc as ->.
  destruct (py_eq_dict_get _ _ _ _ Heq Hc1) as (w & Hw & Hcw).
  rewrite Hc2 in Hw. injection Hw as <-.
  unfold eq_str in Hkeep. rewrite Hcw in Hkeep.
  destruct (dict_get d1 "name") as [n1|] eqn:Hn1; [|done].
  destruct (dict_get d2 "name") as [n2|] eqn:Hn2; [|done].
  apply in_strs_elem in Hkeep as (s & -> & Hs).
  destruct (py_eq_dict_get _ _ _ _ Heq Hn1) as (w & Hw & Hnw).
  rewrite Hn2 in Hw. injection Hw as <-.
  apply py_eq_str_l in Hnw as ->.
  apply negb_true_iff in Hremove.
  assert (in_strs (VStr s) ((λ sig, sig +:+ suffix) <$> in_signals) = true)
    by (apply in_strs_elem; eauto).
  congruence.
Qed.

Lemma list_remove_at (row : value) (seen rest : list value) :
  Forall (λ x, py_eq x row = false) seen →
  list_remove row (length seen) (seen ++ row :: rest) = seen ++ rest.
Proof.
  induction 1 as [|x seen Hx _ IH]; [done|].
  cbn [length app list_remove]. by rewrite Hx, IH.
Qed.

Lemma lookup_middle (seen rest : list value) (row : value) :
  (seen ++ row :: rest) !! length seen = Some row.
Proof. by rewrite list_lookup_middle. Qed.

Lemma prune_loop_isolated (fuel : nat) (seen rest : list value) :
  Forall (λ x, keep x = true) seen →
  isolated keep remove rest = true →
  (length rest ≤ fuel)%nat →
  loop fuel (length seen) (seen ++ rest) = Ok (seen ++ List.filter keep rest).
Proof.
  revert seen rest. induction fuel as [|fuel IH]; intros seen rest Hseen Hiso Hfuel.
  { destruct rest; [done|simpl in Hfuel; lia]. }
  destruct rest as [|row rest].
  { cbn [prune_loop]. rewrite lookup_ge_None_2; [done|]. rewrite length_app. simpl. lia. }
  cbn [isolated List.filter] in *. simpl in Hfuel.
  destruct (keep row) eqn:Hkeep.
  - rewrite (prune_step_keep _ _ _ row); [|apply lookup_middle|done].
    replace (seen ++ row :: rest) with ((seen ++ [row]) ++ rest)
      by (by rewrite <- app_assoc).
    replace (S (length seen)) with (length (seen ++ [row]))
      by (rewrite length_app; simpl; lia).
    rewrite IH; [by rewrite <- app_assoc| |done|lia].
    apply Forall_app. split; [done|by constructor].
  - apply andb_true_iff in Hiso as [Hremove Hiso].
    rewrite (prune_step_remove _ _ _ row); [|apply lookup_middle|done].
    rewrite list_remove_at.
    2:{ eapply Forall_impl; [exact Hseen|]. intros x Hx.
        by apply kept_not_eq_removed. }
    destruct rest as [|next rest].
    { destruct fuel; [done|]. cbn [prune_loop].
      rewrite lookup_ge_None_2; [done|]. rewrite length_app. simpl. lia. }
    apply andb_true_iff in Hiso as [Hnext Hiso].
    cbn [List.filter]. rewrite Hnext. simpl in Hfuel.
    replace (seen ++ next :: rest) with ((seen ++ [next]) ++ rest)
      by (by rewrite <- app_assoc).
    replace (S (length seen)) with (length (seen ++ [next]))
      by (rewrite length_app; simpl; lia).
    rewrite IH; [by rewrite <- app_assoc| |done|lia].
    apply Forall_app. split; [done|by constructor].
Qed.

End pass.

(** X15: one pass of [_prune_other_sensors] does what its name says when
    the rows it removes stand alone: if every row can be read and no row
    to be removed directly follows another, the pass returns exactly the
    rows it keeps, in their order. *)
Theorem prune_pass_filters_isolated_rows (suffix target_collection : string)
    (in_signals : list string) (rows : list value) :
  isolated_pass suffix target_collection in_signals rows = true →
  _prune_other_sensors suffix target_collection (VList rows) in_signals
  = Ok (VList (List.filter (kept_by_pass suffix target_collection in_signals) rows)).
Proof.
  intros Hiso. unfold _prune_other_sensors.
  pose proof (prune_loop_isolated suffix target_collection in_signals
                (length rows) [] rows (Forall_nil_2 _) Hiso (le_n _)) as Hloop.
  simpl in Hloop. by rewrite Hloop.
Qed.

Lemma prune_pass_filters_isolated_rows_witness :
  isolated_pass "_sensor" "input_sensors" ["B"] Demo5.rows = true
  ∧ _prune_other_sensors "_sensor" "input_sensors" (VList Demo5.rows) ["B"]
    = Ok (VList (drop 1 (Demo.sensor_rows "A") ++ Demo.sensor_rows "B"
                 ++ drop 1 (Demo.sensor_rows "C"))).
Proof.
  assert (Hiso : isolated_pass "_sensor" "input_sensors" ["B"] Demo5.rows = true)
    by (vm_compute; reflexivity).
  split; [exact Hiso|].
  rewrite (prune_pass_filters_isolated_rows _ _ _ _ Hiso). vm_compute. reflexivity.
Defined.

Lemma filter_filter_andb {A} (f g : A → bool) (l : list A) :
  List.filter g (List.filter f l) = List.filter (λ x, f x && g x) l.
Proof.
  induction l as [|x l IH]; [done|]. cbn [List.filter].
  destruct (f x); cbn [List.filter andb]; [|done]. by rewrite IH.
Qed.

(** X16: the three passes together.  When in each pass the removed rows
    stand alone, [prune] returns exactly the rows that every pass keeps:
    the rows of other collections, and of the three pruned collections
    the rows named after a requested signal. *)
Theorem prune_filters_isolated_rows (rows : list value) (input_signals : list string) :
  isolated_prune input_signals rows = true →
  prune (VList rows) input_signals
  = Ok (VList (List.filter (kept_by_prune input_signals) rows)).
Proof.
  unfold isolated_prune. cbv zeta.
  intros [[H1 H2]%andb_true_iff H3]%andb_true_iff. unfold prune.
  rewrite (prune_pass_filters_isolated_rows _ _ _ _ H1). cbn [mbind result_bind].
  rewrite (prune_pass_filters_isolated_rows _ _ _ _ H2). cbn [mbind result_bind].
  rewrite (prune_pass_filters_isolated_rows _ _ _ _ H3).
  rewrite (filter_filter_andb (kept_by_pass "_sensor" "input_sensors" input_signals)
             (kept_by_pass "_sensor_model" "models" input_signals)).
  by rewrite filter_filter_andb.
Qed.

Lemma prune_filters_isolated_rows_witness :
  isolated_prune ["B"] Demo5.rows = true
  ∧ prune (VList Demo5.rows) ["B"] = Ok (VList (Demo.sensor_rows "B")).
Proof.
  assert (Hiso : isolated_prune ["B"] Demo5.rows = true) by (vm_compute; reflexivity).
  split; [exact Hiso|].
  rewrite (prune_filters_isolated_rows _ _ Hiso). vm_compute. reflexivity.
Defined.

(** ** [set_input_signals] *)

(** X17: what a successful [set_input_signals] leaves behind.  It returns
    the file name it was given; the pruned document is the text of
    [input_directory/output_filename]; every other file is as it was; the
    query points at the new file exactly when [mutate] is set, and none of
    its other attributes changes. *)
Theorem set_input_signals_effect `{Codec} (q : CelloQuery) (fs : filesystem)
    (input_signals available : list string) (output_filename : string)
    (mutate : bool) (data pruned : value) :
  get_input_signals q fs = Ok available →
  (∀ signal, signal ∈ input_signals → signal ∈ available) →
  _fix_input_json fs (in_input_directory q (fmt (input_sensors q))) false = Ok data →
  prune data input_signals = Ok pruned →
  ∃ q' fs',
    set_input_signals input_signals output_filename mutate (q, fs)
    = (Ok output_filename, (q', fs'))
    ∧ fs' !! in_input_directory q output_filename = Some (json_dumps pruned)
    ∧ (∀ path, path ≠ in_input_directory q output_filename → fs' !! path = fs !! path)
    ∧ input_sensors q' = (if mutate then Some output_filename else input_sensors q)
    ∧ (input_directory q', output_directory q', verilog_file q', compiler_options q',
       input_ucf q', output_device q', logging q')
      = (input_directory q, output_directory q, verilog_file q, compiler_options q,
         input_ucf q, output_device q, logging q).
Proof.
  intros Havailable Hall Hdata Hpruned.
  eexists _, _. split; [by eapply set_input_signals_ok|].
  split; [apply lookup_insert_eq|].
  split; [intros path Hpath; by apply lookup_insert_ne|].
  by destruct mutate.
Qed.

Lemma set_input_signals_effect_witness :
  ∃ q' fs',
    @set_input_signals Fragment.codec ["A"; "B"; "C"] "custom_input.input.json" false
      (Demo.query, Demo.inputs)
    = (Ok "custom_input.input.json", (q', fs'))
    ∧ fs' !! "in/custom_input.input.json"
      = Some (@json_dumps Fragment.codec Demo.sensors_doc)
    ∧ fs' !! "in/Eco.input.json" = Demo.inputs !! "in/Eco.input.json"
    ∧ input_sensors q' = Some "Eco.input.json".
Proof.
  assert (Havailable : @get_input_signals Fragment.codec Demo.query Demo.inputs
                       = Ok ["A"; "B"; "C"]) by (vm_compute; reflexivity).
  assert (Hdata : @_fix_input_json Fragment.codec Demo.inputs
                    (in_input_directory Demo.query (fmt (input_sensors Demo.query)))
                    false
                  = Ok Demo.sensors_doc) by (vm_compute; reflexivity).
  assert (Hpruned : prune Demo.sensors_doc ["A"; "B"; "C"] = Ok Demo.sensors_doc)
    by (vm_compute; reflexivity).
  destruct (@set_input_signals_effect Fragment.codec Demo.query Demo.inputs
              ["A"; "B"; "C"] ["A"; "B"; "C"] "custom_input.input.json" false
              Demo.sensors_doc Demo.sensors_doc Havailable (λ _ Hin, Hin)
              Hdata Hpruned)
    as (q' & fs' & Hrun & Hnew & Hframe & Hsensors & _).
  exists q', fs'. refine (conj Hrun (conj Hnew (conj _ Hsensors))).
  apply Hframe. vm_compute. intros [=].
Defined.

Lemma check_signals_first (available_input_signals seen rest : list string)
    (signal : string) :
  (∀ s, s ∈ seen → s ∈ available_input_signals) →
  signal ∉ available_input_signals →
  check_signals available_input_signals (seen ++ signal :: rest)
  = Raise (RuntimeError
             ("Cannot set " +:+ signal +:+ ", not present in available signals ")).
Proof.
  intros Hseen Hnot. induction seen as [|s seen IH].
  - cbn [app check_signals].
    destruct (existsb _ _) eqn:Hs; [by apply existsb_eqb_elem in Hs|done].
  - cbn [app check_signals].
    rewrite (proj2 (existsb_eqb_elem s _)) by (apply Hseen; left).
    cbn [negb]. apply IH. intros s' Hin. apply Hseen. by right.
Qed.

(** X18: the error of [set_input_signals] names the first requested
    signal, in the order of the request, that is not available; the
    signals after it are not looked at, and nothing is written or
    changed. *)
Theorem set_input_signals_names_first_unavailable `{Codec} (q : CelloQuery)
    (fs : filesystem) (available seen rest : list string) (signal : string)
    (output_filename : string) (mutate : bool) :
  get_input_signals q fs = Ok available →
  (∀ s, s ∈ seen → s ∈ available) →
  signal ∉ available →
  set_input_signals (seen ++ signal :: rest) output_filename mutate (q, fs)
  = (Raise (RuntimeError
              ("Cannot set " +:+ signal +:+ ", not present in available signals ")),
     (q, fs)).
Proof.
  intros Havailable Hseen Hnot.
  unfold set_input_signals, mbind, action_bind, reading. simpl.
  by rewrite Havailable, (check_signals_first _ _ _ _ Hseen Hnot).
Qed.

Lemma set_input_signals_names_first_unavailable_witness :
  @get_input_signals Fragment.codec Demo.query Demo.inputs = Ok ["A"; "B"; "C"]
  ∧ @set_input_signals Fragment.codec ["C"; "X"; "Y"] "custom_input.input.json" true
      (Demo.query, Demo.inputs)
    = (Raise (RuntimeError "Cannot set X, not present in available signals "),
       (Demo.query, Demo.inputs)).
Proof.
  assert (Havailable : @get_input_signals Fragment.codec Demo.query Demo.inputs
                       = Ok ["A"; "B"; "C"]) by (vm_compute; reflexivity).
  split; [exact Havailable|].
  apply (@set_input_signals_names_first_unavailable Fragment.codec Demo.query
           Demo.inputs ["A"; "B"; "C"] ["C"] ["Y"] "X" "custom_input.input.json" true
           Havailable).
  - intros s Hs. apply list_elem_of_singleton in Hs as ->. by right; right; left.
  - rewrite !not_elem_of_cons. repeat split; try (intros [=]). apply not_elem_of_nil.
Defined.

(** ** Reading back what [set_input_signals] wrote *)

Lemma before_no_char (c : ascii) (s : string) : Str.has_char c (before c s) = false.
Proof.
  induction s as [|a s IH]; [done|]. simpl.
  destruct (Ascii.eqb a c) eqn:Ha; [done|]. simpl. by rewrite Ha.
Qed.

Lemma signal_of_name_before (raw_name : value) (signal : string) :
  signal_of_name raw_name = Ok signal →
  ∃ s, raw_name = VStr s ∧ signal = before Str.underscore s.
Proof.
  destruct raw_name as [| | | |s| |]; try done. unfold signal_of_name, list_first.
  pose proof (split_first Str.underscore s) as Hhead.
  destruct (Str.split _ s) as [|w ws]; [done|]. simpl in Hhead.
  injection Hhead as ->. intros [= <-]. by exists s.
Qed.

(** No signal that [get_input_signals] reports holds an underscore. *)
Lemma collect_signals_no_underscore (rows : list value) (name_list out : list string) :
  collect_signals rows name_list = Ok out →
  Forall (λ s, Str.has_char Str.underscore s = false) name_list →
  Forall (λ s, Str.has_char Str.underscore s = false) out.
Proof.
  revert name_list. induction rows as [|row rows IH]; intros name_list.
  { by intros [= <-]. }
  cbn [collect_signals].
  destruct (getitem row "collection") as [collection|]; [|done].
  cbn [mbind result_bind].
  destruct (eq_str collection "input_sensors"); [|apply IH].
  destruct (getitem row "name") as [name|]; [|done]. cbn [mbind result_bind].
  destruct (signal_of_name name) as [signal|] eqn:Hsignal; [|done].
  cbn [mbind result_bind]. intros Hout Hlist. apply (IH _ Hout).
  apply Forall_app. split; [done|]. constructor; [|done].
  apply signal_of_name_before in Hsignal as (s & _ & ->). apply before_no_char.
Qed.

Lemma kept_sensor_row (in_signals : list string) (row : value) :
  kept_by_pass "_sensor" "input_sensors" in_signals row = true →
  is_sensor_row row = true →
  ∃ sig, sig ∈ in_signals ∧ getitem row "name" = Ok (VStr (sig +:+ "_sensor")).
Proof.
  unfold kept_by_pass, is_sensor_row.
  destruct (getitem row "collection") as [collection|]; [|done].
  intros Hkept Hsensor. rewrite Hsensor in Hkept.
  destruct (getitem row "name") as [name|]; [|done].
  apply in_strs_elem in Hkept as (s & -> & Hs).
  apply list_elem_of_fmap in Hs as (sig & -> & Hsig). by exists sig.
Qed.

Lemma kept_row_signal (in_signals : list string) (row : value) :
  Forall (λ s, Str.has_char Str.underscore s = false) in_signals →
  kept_by_pass "_sensor" "input_sensors" in_signals row = true →
  is_sensor_row row = true →
  ∃ sig, sig ∈ in_signals ∧ row_signal row = Some sig.
Proof.
  intros Hplain Hkept Hsensor.
  destruct (kept_sensor_row _ _ Hkept Hsensor) as (sig & Hsig & Hname).
  exists sig. split; [done|]. unfold row_signal. rewrite Hname, split_first.
  change (sig +:+ "_sensor") with (sig +:+ String Str.underscore "sensor").
  rewrite before_app. f_equal. apply before_id.
  rewrite Forall_forall in Hplain. by apply Hplain.
Qed.

Lemma kept_row_ok (in_signals : list string) (row : value) :
  kept_by_pass "_sensor" "input_sensors" in_signals row = true →
  sensor_row_ok row = true.
Proof.
  intros Hkept. unfold sensor_row_ok.
  destruct (is_sensor_row row) eqn:Hsensor.
  - destruct (kept_sensor_row _ _ Hkept Hsensor) as (sig & _ & Hname).
    unfold is_sensor_row in Hsensor.
    destruct (getitem row "collection") as [collection|]; [|done].
    rewrite Hsensor. apply bool_decide_eq_true.
    unfold row_signal. rewrite Hname, split_first. by eexists.
  - unfold kept_by_pass in Hkept. unfold is_sensor_row in Hsensor.
    destruct (getitem row "collection") as [collection|]; [|done].
    by rewrite Hsensor.
Qed.

(** X19: writing and reading back.  Let a call of [set_input_signals] with
    [mutate] set pass its check, let the removed rows stand alone in each
    pass, and let the written text load back as the document that was
    dumped.  Then the call succeeds, [get_input_signals] on the query and
    files it leaves returns, and every signal it returns is one of the
    signals that were requested. *)
Theorem set_then_get_reports_requested_only `{Codec} (q : CelloQuery)
    (fs : filesystem) (input_signals available : list string)
    (output_filename : string) (rows : list value) :
  get_input_signals q fs = Ok available →
  (∀ signal, signal ∈ input_signals → signal ∈ available) →
  _fix_input_json fs (in_input_directory q (fmt (input_sensors q))) false
  = Ok (VList rows) →
  isolated_prune input_signals rows = true →
  yaml_load (fix_text false
               (json_dumps (VList (List.filter (kept_by_prune input_signals) rows))))
  = Ok (VList (List.filter (kept_by_prune input_signals) rows)) →
  ∃ q' fs' reported,
    set_input_signals input_signals output_filename true (q, fs)
    = (Ok output_filename, (q', fs'))
    ∧ get_input_signals q' fs' = Ok reported
    ∧ ∀ signal, signal ∈ reported → signal ∈ input_signals.
Proof.
  intros Havailable Hall Hdata Hiso Hload.
  pose proof (prune_filters_isolated_rows _ _ Hiso) as Hpruned.
  pose proof (set_input_signals_ok q fs input_signals available output_filename
                true _ _ Havailable Hall Hdata Hpruned) as Hrun.
  set (kept := List.filter (kept_by_prune input_signals) rows) in *.
  assert (Hkept : Forall (λ row, kept_by_pass "_sensor" "input_sensors"
                                    input_signals row = true) kept).
  { apply Forall_forall. intros row Hrow. apply list_elem_of_In in Hrow.
    apply filter_In in Hrow as [_ Hrow]. unfold kept_by_prune in Hrow.
    by repeat apply andb_true_iff in Hrow as [Hrow _]. }
  assert (Hplain : Forall (λ s, Str.has_char Str.underscore s = false) input_signals).
  { unfold get_input_signals in Havailable. rewrite Hdata in Havailable.
    apply collect_signals_no_underscore in Havailable; [|constructor].
    rewrite Forall_forall in Havailable. apply Forall_forall.
    intros s Hs. by apply Havailable, Hall. }
  eexists _, _, _. split; [exact Hrun|]. split.
  - unfold get_input_signals, _fix_input_json, open_read. cbn [input_sensors
      with_input_sensors in_input_directory input_directory fmt default].
    fold (fmt (input_directory q)). fold (in_input_directory q output_filename).
    rewrite lookup_insert_eq. cbn [mbind result_bind]. rewrite Hload.
    cbn [mbind result_bind signals_of iterate]. apply collect_signals_spec.
    eapply Forall_impl; [exact Hkept|]. intros row. apply kept_row_ok.
  - intros signal Hsignal. apply list_elem_of_omap in Hsignal as (row & Hrow & Hsig).
    apply list_elem_of_In, filter_In in Hrow as [Hrow Hsensor].
    rewrite Forall_forall in Hkept.
    destruct (kept_row_signal input_signals row Hplain) as (sig & Hin & Hsig');
      [apply Hkept; by apply list_elem_of_In|done|].
    rewrite Hsig in Hsig'. by injection Hsig' as ->.
Qed.

Lemma set_then_get_reports_requested_only_witness :
  ∃ q' fs' reported,
    @set_input_signals Fragment.codec ["B"] "custom_input.input.json" true
      (Demo.query, Demo5.inputs)
    = (Ok "custom_input.input.json", (q', fs'))
    ∧ @get_input_signals Fragment.codec q' fs' = Ok reported
    ∧ ∀ signal, signal ∈ reported → signal ∈ ["B"].
Proof.
  assert (Hall : ∀ signal : string, signal ∈ ["B"] → signal ∈ ["A"; "B"; "C"]).
  { intros s Hs. apply list_elem_of_singleton in Hs as ->. right. left. }
  assert (Havailable : @get_input_signals Fragment.codec Demo.query Demo5.inputs
                       = Ok ["A"; "B"; "C"]) by (vm_compute; reflexivity).
  assert (Hdata : @_fix_input_json Fragment.codec Demo5.inputs
                    (in_input_directory Demo.query (fmt (input_sensors Demo.query)))
                    false
                  = Ok (VList Demo5.rows)) by (vm_compute; reflexivity).
  assert (Hiso : isolated_prune ["B"] Demo5.rows = true) by (vm_compute; reflexivity).
  assert (Hload : @yaml_load Fragment.codec
                    (fix_text false
                       (@json_dumps Fragment.codec
                          (VList (List.filter (kept_by_prune ["B"]) Demo5.rows))))
                  = Ok (VList (List.filter (kept_by_prune ["B"]) Demo5.rows)))
    by (vm_compute; reflexivity).
  exact (@set_then_get_reports_requested_only Fragment.codec Demo.query Demo5.inputs
           ["B"] ["A"; "B"; "C"] "custom_input.input.json" Demo5.rows
           Havailable Hall Hdata Hiso Hload).
Defined.

(** * The output directory: prior results *)

Section PathFacts.

Lemma app_assoc_string (a b c : string) : (a +:+ b) +:+ c = a +:+ (b +:+ c).
Proof. induction a as [|x a IH]; [done|]. by rewrite !app_cons, IH. Qed.

Lemma app_inv_head_string (p s s' : string) : p +:+ s = p +:+ s' → s = s'.
Proof.
  induction p as [|x p IH]; [done|]. rewrite !app_cons. intros [= Heq]. by apply IH.
Qed.

Lemma strip_prefix_app (p s : string) : Str.strip_prefix p (p +:+ s) = Some s.
Proof.
  induction p as [|x p IH]; [done|]. rewrite app_cons. simpl.
  by rewrite Ascii.eqb_refl.
Qed.

Lemma strip_prefix_Some (p k s : string) :
  Str.strip_prefix p k = Some s → k = p +:+ s.
Proof.
  revert k. induction p as [|x p IH]; intros k; simpl.
  - by intros [= ->].
  - destruct k as [|y k]; [done|].
    destruct (Ascii.eqb_spec x y) as [->|]; [|done].
    intros Hk. rewrite app_cons. f_equal. by apply IH.
Qed.

Lemma strip_prefix_app_both (p a b : string) :
  Str.strip_prefix (p +:+ a) (p +:+ b) = Str.strip_prefix a b.
Proof.
  induction p as [|x p IH]; [done|]. rewrite !app_cons. simpl.
  by rewrite Ascii.eqb_refl.
Qed.

Lemma startswith_app (p s : string) : Str.startswith p (p +:+ s) = true.
Proof.
  induction p as [|x p IH]; [done|]. rewrite app_cons. simpl.
  by rewrite Ascii.eqb_refl.
Qed.

Lemma startswith_app_l (p a b : string) :
  Str.startswith p a = true → Str.startswith p (a +:+ b) = true.
Proof.
  revert a. induction p as [|x p IH]; intros a; [done|].
  destruct a as [|y a]; [done|]. rewrite app_cons. simpl.
  intros [-> Hp]%andb_true_iff. simpl. by apply IH.
Qed.

Lemma contains_app_l (sub a b : string) :
  Str.contains sub a = true → Str.contains sub (a +:+ b) = true.
Proof.
  induction a as [|y a IH].
  - simpl. rewrite orb_false_r. intros Hsub. destruct sub; [|done].
    by destruct b.
  - rewrite app_cons. cbn [Str.contains].
    intros [Hstart|Hrest]%orb_true_iff; apply orb_true_iff.
    + left. by apply (startswith_app_l _ (String y a)).
    + right. by apply IH.
Qed.

Lemma contains_app_r (sub a b : string) :
  Str.contains sub b = true → Str.contains sub (a +:+ b) = true.
Proof.
  intros Hsub. induction a as [|y a IH]; [done|].
  rewrite app_cons. cbn [Str.contains]. apply orb_true_iff. by right.
Qed.

Lemma endswith_empty (s : string) : Str.endswith "" s = true.
Proof. induction s as [|x s IH]; [done|]. simpl. by rewrite IH. Qed.

Lemma before_plain (c : ascii) (n r : string) :
  Str.has_char c n = false →
  r = EmptyString ∨ Str.startswith (String c EmptyString) r = true →
  before c (n +:+ r) = n.
Proof.
  intros Hn [->|Hr].
  - assert (n +:+ "" = n) as -> by (induction n as [|x n IH]; [done|];
      rewrite app_cons; f_equal; apply IH; simpl in Hn;
      by apply orb_false_elim in Hn as [_ ?]).
    by apply before_id.
  - destruct r as [|y r]; [done|]. simpl in Hr.
    apply andb_true_iff in Hr as [Hy _]. apply Ascii.eqb_eq in Hy as <-.
    rewrite before_app. by apply before_id.
Qed.

(** A text is what stands before its first [c], then the rest, which is
    empty or starts with [c]. *)
Lemma before_split (c : ascii) (s : string) :
  ∃ r, s = before c s +:+ r
       ∧ (r = EmptyString ∨ Str.startswith (String c EmptyString) r = true).
Proof.
  induction s as [|x s (r & Hs & Hr)]; [by exists EmptyString; auto|]. simpl.
  destruct (Ascii.eqb_spec x c) as [->|Hx].
  - exists (String c s). split; [done|]. right. simpl. by rewrite Ascii.eqb_refl.
  - exists r. rewrite app_cons. by rewrite <- Hs.
Qed.

Lemma below_Some (root path rest : string) :
  Path.below root path = Some rest →
  path = root +:+ rest
  ∧ (rest = EmptyString ∨ Str.startswith "/" rest = true).
Proof.
  unfold Path.below.
  destruct (Str.strip_prefix root path) as [r|] eqn:Hr; [|done].
  destruct (bool_decide (r = EmptyString) || Str.startswith "/" r) eqn:Hc; [|done].
  intros [= <-]. split; [by apply strip_prefix_Some|].
  apply orb_true_iff in Hc as [Hc|Hc]; [left; by apply bool_decide_eq_true in Hc|by right].
Qed.

Lemma below_app (root rest : string) :
  rest = EmptyString ∨ Str.startswith "/" rest = true →
  Path.below root (root +:+ rest) = Some rest.
Proof.
  intros Hrest. unfold Path.below. rewrite strip_prefix_app.
  destruct Hrest as [-> | Hrest]; [done|]. by rewrite Hrest, orb_true_r.
Qed.

End PathFacts.

(** ** Renaming on the disk *)

Lemma lookup_rename_tree (src dst : string) (d : disk) (k' : string) (e : entry) :
  (∀ k1 k2, is_Some (d !! k1) → is_Some (d !! k2) →
            Path.rekey src dst k1 = Path.rekey src dst k2 → k1 = k2) →
  rename_tree src dst d !! k' = Some e
  ↔ ∃ k, d !! k = Some e ∧ k' = Path.rekey src dst k.
Proof.
  intros Hinj. unfold rename_tree. split.
  - intros Hk'. apply elem_of_list_to_map_2 in Hk'.
    apply list_elem_of_fmap in Hk' as ([k e'] & [= -> ->] & Hin).
    apply elem_of_map_to_list in Hin. by exists k.
  - intros (k & Hk & ->).
    apply elem_of_list_to_map_1.
    + rewrite <- list_fmap_compose.
      change (fst ∘ _) with (Path.rekey src dst ∘ (fst : string * entry → string)).
      rewrite list_fmap_compose.
      apply NoDup_fmap_2_strong; [|apply NoDup_fst_map_to_list].
      intros k1 k2 Hk1 Hk2. apply Hinj.
      * apply list_elem_of_fmap in Hk1 as ([? e1] & -> & Hin).
        apply elem_of_map_to_list in Hin. by exists e1.
      * apply list_elem_of_fmap in Hk2 as ([? e2] & -> & Hin).
        apply elem_of_map_to_list in Hin. by exists e2.
    + apply list_elem_of_fmap. exists (k, e). split; [done|].
      by apply elem_of_map_to_list.
Qed.

Section archive.
Variables (dir a : string).
Hypothesis Ha : Str.has_char Path.slash a = false.

#[local] Abbreviation archive_dir := (dir +:+ "/" +:+ a).

Lemma join_assoc (root name : string) :
  root +:+ "/" +:+ name = (root +:+ "/") +:+ name.
Proof. by rewrite app_assoc_string. Qed.

Lemma join_inj (root n n' : string) :
  root +:+ "/" +:+ n = root +:+ "/" +:+ n' → n = n'.
Proof. intros Heq. apply app_inv_head_string in Heq. by injection Heq. Qed.

Lemma archive_join (s : string) :
  archive_dir +:+ "/" +:+ s = (dir +:+ "/") +:+ (a +:+ "/" +:+ s).
Proof. by rewrite !app_assoc_string. Qed.

Lemma relocate_outside (moved : list string) (k : string) :
  Str.strip_prefix (dir +:+ "/") k = None → relocate dir archive_dir moved k = k.
Proof. intros Hk. unfold relocate. by rewrite Hk. Qed.

Lemma relocate_inside (moved : list string) (s : string) :
  relocate dir archive_dir moved ((dir +:+ "/") +:+ s)
  = if bool_decide (dir +:+ "/" +:+ before Path.slash s ∈ moved)
    then archive_dir +:+ "/" +:+ s else (dir +:+ "/") +:+ s.
Proof. unfold relocate. by rewrite strip_prefix_app. Qed.

(** Renaming a child of the directory to its own name inside the archive
    directory moves the paths at and below it, and no other. *)
Lemma rekey_relocate (n k : string) :
  Str.has_char Path.slash n = false →
  Path.rekey (dir +:+ "/" +:+ n) (archive_dir +:+ "/" +:+ n) k
  = relocate dir archive_dir [dir +:+ "/" +:+ n] k.
Proof.
  intros Hn. unfold Path.rekey.
  destruct (Str.strip_prefix (dir +:+ "/") k) as [s|] eqn:Hk.
  - apply strip_prefix_Some in Hk as ->. rewrite relocate_inside.
    destruct (before_split Path.slash s) as (r & Hs & Hr).
    destruct (decide (before Path.slash s = n)) as [Hb|Hb].
    + rewrite bool_decide_eq_true_2 by (rewrite Hb; apply list_elem_of_singleton; done).
      rewrite Hb in Hs. clear Hb. subst s.
      replace ((dir +:+ "/") +:+ n +:+ r) with ((dir +:+ "/" +:+ n) +:+ r)
        by (by rewrite !app_assoc_string).
      rewrite (below_app _ r Hr). by rewrite !app_assoc_string.
    + rewrite bool_decide_eq_false_2.
      2:{ intros Hin%list_elem_of_singleton. by apply join_inj in Hin. }
      destruct (Path.below _ _) as [r'|] eqn:Hbelow; [|done]. exfalso.
      apply below_Some in Hbelow as [Heq Hr'].
      rewrite !app_assoc_string in Heq. apply join_inj in Heq.
      apply Hb. rewrite Heq. by apply before_plain.
  - rewrite relocate_outside by done.
    destruct (Path.below _ _) as [r'|] eqn:Hbelow; [|done]. exfalso.
    apply below_Some in Hbelow as [Heq _].
    rewrite join_assoc, app_assoc_string in Heq.
    rewrite Heq, strip_prefix_app in Hk. done.
Qed.

Lemma split_nonempty (c : ascii) (s : string) : Str.split c s ≠ [].
Proof. destruct (split_last c s) as [token Hlast]. by destruct (Str.split c s). Qed.

Lemma split_plain (c : ascii) (n : string) :
  Str.has_char c n = false → Str.split c n = [n].
Proof.
  induction n as [|x n IH]; [done|]. simpl.
  intros [-> Hn]%orb_false_elim. by rewrite IH.
Qed.

Lemma split_app (c : ascii) (p n : string) :
  Str.split c (p +:+ String c n) = Str.split c p ++ Str.split c n.
Proof.
  induction p as [|y p IH].
  - rewrite app_nil. simpl. by rewrite Ascii.eqb_refl.
  - rewrite app_cons. simpl. rewrite IH.
    destruct (Ascii.eqb y c); [done|].
    pose proof (split_nonempty c p). by destruct (Str.split c p).
Qed.

Lemma rstrip_plain (c : ascii) (p n : string) :
  n ≠ EmptyString → Str.has_char c n = false →
  Path.rstrip c (p +:+ n) = p +:+ n.
Proof.
  intros Hne Hn.
  assert (Hbase : Path.rstrip c n = n).
  { clear p. induction n as [|x n IH]; [done|]. simpl in *.
    apply orb_false_elim in Hn as [Hx Hn]. rewrite Hx.
    destruct n as [|y n]; [done|]. by rewrite IH. }
  induction p as [|y p IH]; [done|]. rewrite app_cons. simpl. rewrite IH.
  destruct (p +:+ n) eqn:Hpn; [|done]. by destruct p, n.
Qed.

Lemma basename_child (n : string) :
  n ≠ EmptyString → Str.has_char Path.slash n = false →
  Path.basename (dir +:+ "/" +:+ n) = n.
Proof.
  intros Hne Hn. unfold Path.basename.
  rewrite join_assoc, rstrip_plain by done. rewrite <- join_assoc.
  change (dir +:+ "/" +:+ n) with (dir +:+ String Path.slash n).
  by rewrite split_app, (split_plain _ _ Hn), last_snoc.
Qed.

Lemma parent_child (n : string) :
  Str.has_char Path.slash n = false → Path.parent (dir +:+ "/" +:+ n) = dir.
Proof.
  intros Hn. unfold Path.parent.
  change (dir +:+ "/" +:+ n) with (dir +:+ String Path.slash n).
  rewrite (rfind_last _ _ _ Hn). unfold Str.len. by rewrite Nat2Z.id, take_app.
Qed.

Lemma before_archive (s : string) : before Path.slash (a +:+ "/" +:+ s) = a.
Proof.
  change (a +:+ "/" +:+ s) with (a +:+ String Path.slash s).
  rewrite before_app. by apply before_id.
Qed.

Lemma relocate_child (moved : list string) (n : string) :
  relocate dir archive_dir moved (dir +:+ "/" +:+ n)
  = if bool_decide (dir +:+ "/" +:+ before Path.slash n ∈ moved)
    then archive_dir +:+ "/" +:+ n else dir +:+ "/" +:+ n.
Proof.
  unfold relocate. rewrite (join_assoc dir n), strip_prefix_app.
  by rewrite <- (join_assoc dir n).
Qed.

Lemma archive_dir_stays (moved : list string) :
  Forall (archivable dir a) moved →
  relocate dir archive_dir moved archive_dir = archive_dir.
Proof.
  intros Hmoved. rewrite relocate_child.
  rewrite bool_decide_eq_false_2; [done|].
  rewrite (proj2 (before_id _ _) Ha). intros Hin.
  rewrite Forall_forall in Hmoved.
  destruct (Hmoved _ Hin) as (n & Heq & _ & _ & Hna). by apply join_inj in Heq.
Qed.

Lemma child_stays (moved : list string) (n : string) :
  Str.has_char Path.slash n = false →
  dir +:+ "/" +:+ n ∉ moved →
  relocate dir archive_dir moved (dir +:+ "/" +:+ n) = dir +:+ "/" +:+ n.
Proof.
  intros Hn Hnot. rewrite relocate_child.
  rewrite (proj2 (before_id _ _) Hn).
  by rewrite bool_decide_eq_false_2.
Qed.

Lemma relocate_compose (p : string) (ps : list string) (k : string) :
  Forall (archivable dir a) ps →
  relocate dir archive_dir ps (relocate dir archive_dir [p] k)
  = relocate dir archive_dir (p :: ps) k.
Proof.
  intros Hps.
  destruct (Str.strip_prefix (dir +:+ "/") k) as [s|] eqn:Hk.
  2:{ rewrite (relocate_outside [p]), !relocate_outside by done. done. }
  apply strip_prefix_Some in Hk as ->. rewrite !relocate_inside.
  destruct (decide (dir +:+ "/" +:+ before Path.slash s = p)) as [Hp|Hp].
  - rewrite !bool_decide_eq_true_2; [|rewrite Hp; by left|rewrite Hp; by left].
    rewrite archive_join, relocate_inside, before_archive.
    rewrite bool_decide_eq_false_2; [done|]. intros Hin.
    rewrite Forall_forall in Hps.
    destruct (Hps _ Hin) as (n & Heq & _ & _ & Hna). by apply join_inj in Heq.
  - rewrite (bool_decide_eq_false_2 (_ ∈ [p])) by (by intros ?%list_elem_of_singleton).
    rewrite relocate_inside.
    destruct (decide (dir +:+ "/" +:+ before Path.slash s ∈ ps)) as [Hin|Hin].
    + rewrite !bool_decide_eq_true_2; [done|by right|done].
    + rewrite !bool_decide_eq_false_2; [done| |done].
      by intros [?|?]%elem_of_cons.
Qed.

(** Two entries never meet at one path when the destinations are free. *)
Lemma relocate_inj (d : disk) (moved : list string) (k1 k2 : string) :
  destinations_free d dir a moved →
  is_Some (d !! k1) → is_Some (d !! k2) →
  relocate dir archive_dir moved k1 = relocate dir archive_dir moved k2 →
  k1 = k2.
Proof.
  intros Hfree Hk1 Hk2. unfold relocate.
  destruct (Str.strip_prefix (dir +:+ "/") k1) as [s1|] eqn:H1;
    destruct (Str.strip_prefix (dir +:+ "/") k2) as [s2|] eqn:H2;
    repeat case_bool_decide; try done.
  - intros Heq%join_inj. apply strip_prefix_Some in H1, H2. congruence.
  - intros Heq. rewrite <- Heq in Hk2. rewrite Hfree in Hk2 by done.
    by destruct Hk2.
  - intros Heq. rewrite Heq in Hk1. rewrite Hfree in Hk1 by done.
    by destruct Hk1.
  - intros Heq. rewrite <- Heq in Hk2. rewrite Hfree in Hk2 by done.
    by destruct Hk2.
  - intros Heq. rewrite Heq in Hk1. rewrite Hfree in Hk1 by done.
    by destruct Hk1.
Qed.

Lemma lookup_move (d : disk) (n k : string) (e : entry) :
  Str.has_char Path.slash n = false →
  destinations_free d dir a [dir +:+ "/" +:+ n] →
  rename_tree (dir +:+ "/" +:+ n) (archive_dir +:+ "/" +:+ n) d !! k = Some e
  ↔ ∃ k0, d !! k0 = Some e ∧ k = relocate dir archive_dir [dir +:+ "/" +:+ n] k0.
Proof.
  intros Hn Hfree. rewrite lookup_rename_tree.
  - split; intros (k0 & Hk0 & ->); exists k0; by rewrite ?rekey_relocate in *.
  - intros k1 k2 Hk1 Hk2. rewrite !rekey_relocate by done.
    by apply (relocate_inj d).
Qed.

Lemma shutil_move_child (d : disk) (n : string) :
  d !! archive_dir = Some Directory →
  n ≠ EmptyString → Str.has_char Path.slash n = false → n ≠ a →
  is_Some (d !! (dir +:+ "/" +:+ n)) →
  d !! (archive_dir +:+ "/" +:+ n) = None →
  shutil_move (dir +:+ "/" +:+ n) archive_dir d
  = (Returns (), rename_tree (dir +:+ "/" +:+ n) (archive_dir +:+ "/" +:+ n) d).
Proof.
  intros Harchive Hne Hn Hna [e He] Hfree. unfold shutil_move.
  rewrite Harchive, basename_child by done. cbv zeta.
  rewrite bool_decide_eq_false_2 by (rewrite Hfree; by intros [? [=]]).
  unfold os_rename. rewrite He, Hfree.
  assert (Hdiff : ∀ r, r = EmptyString ∨ Str.startswith "/" r = true →
            archive_dir +:+ "/" +:+ n ≠ (dir +:+ "/" +:+ n) +:+ r).
  { intros r Hr Heq. rewrite !app_assoc_string in Heq. apply join_inj in Heq.
    apply (f_equal (before Path.slash)) in Heq.
    rewrite before_archive, before_plain in Heq by done. done. }
  destruct (String.eqb_spec (dir +:+ "/" +:+ n) (archive_dir +:+ "/" +:+ n)) as [Heq|_].
  { exfalso. apply (Hdiff EmptyString); [by left|].
    rewrite <- Heq at 1. clear. generalize (dir +:+ "/" +:+ n).
    intros s. induction s as [|x s IH]; [done|]. by rewrite app_cons, <- IH. }
  rewrite bool_decide_eq_false_2; [by destruct e|].
  intros [r Hr]. apply below_Some in Hr as [Heq Hr]. by apply (Hdiff r).
Qed.

(** The loop of [archive_prior_results]: every entry of the disk it
    leaves is an entry of the disk it found, relocated. *)
Lemma move_all_spec (active_files : list string) (d : disk) :
  d !! archive_dir = Some Directory →
  NoDup active_files →
  Forall (archivable dir a) active_files →
  Forall (λ p, is_Some (d !! p)) active_files →
  destinations_free d dir a active_files →
  ∃ d', move_all active_files archive_dir d = (Returns (), d')
        ∧ ∀ k e, d' !! k = Some e
                 ↔ ∃ k0, d !! k0 = Some e
                         ∧ k = relocate dir archive_dir active_files k0.
Proof.
  revert d. induction active_files as [|p ps IH];
    intros d Harchive Hnodup Hchildren Hthere Hfree.
  { exists d. split; [done|]. intros k e. split.
    - intros Hk. exists k. split; [done|]. unfold relocate.
      destruct (Str.strip_prefix _ k); [|done].
      by rewrite bool_decide_eq_false_2 by apply not_elem_of_nil.
    - intros (k0 & Hk0 & ->). unfold relocate.
      destruct (Str.strip_prefix _ k0); [|done].
      by rewrite bool_decide_eq_false_2 by apply not_elem_of_nil. }
  apply NoDup_cons in Hnodup as [Hp Hnodup].
  apply Forall_cons in Hchildren as [(n & -> & Hne & Hn & Hna) Hchildren].
  apply Forall_cons in Hthere as [Hsrc Hthere].
  assert (Hfree1 : destinations_free d dir a [dir +:+ "/" +:+ n]).
  { intros s Hs. apply Hfree. apply list_elem_of_singleton in Hs. rewrite Hs. by left. }
  cbn [move_all]. rewrite shutil_move_child; try done.
  2:{ apply Hfree. rewrite (proj2 (before_id _ _) Hn). by left. }
  set (d1 := rename_tree _ _ d).
  assert (Hd1 : ∀ k e, d1 !! k = Some e
            ↔ ∃ k0, d !! k0 = Some e
                    ∧ k = relocate dir archive_dir [dir +:+ "/" +:+ n] k0)
    by (intros k e; by apply lookup_move).
  destruct (IH d1) as (d' & Hrun & Hd'); try done.
  - apply Hd1. exists archive_dir. split; [done|].
    symmetry. apply archive_dir_stays. constructor; [|done]. by exists n.
  - rewrite Forall_forall in Hthere, Hchildren. apply Forall_forall.
    intros p' Hp'. destruct (Hthere _ Hp') as [e He]. exists e.
    apply Hd1. exists p'. split; [done|].
    destruct (Hchildren _ Hp') as (n' & -> & _ & Hn' & _).
    symmetry. apply child_stays; [done|].
    intros Heq%list_elem_of_singleton. by rewrite Heq in Hp'.
  - intros s Hs. destruct (d1 !! _) as [e|] eqn:He; [|done]. exfalso.
    apply Hd1 in He as (k0 & Hk0 & Heq).
    unfold relocate in Heq.
    destruct (Str.strip_prefix (dir +:+ "/") k0) as [s0|] eqn:Hs0.
    + case_bool_decide as Hin.
      * apply join_inj in Heq as ->.
        apply list_elem_of_singleton in Hin. by rewrite Hin in Hs.
      * subst k0. rewrite Hfree in Hk0; [done|by right].
    + subst k0. rewrite Hfree in Hk0; [done|by right].
  - exists d'. split; [done|]. intros k e. rewrite Hd'. split.
    + intros (k1 & Hk1 & ->). apply Hd1 in Hk1 as (k0 & Hk0 & ->).
      exists k0. split; [done|]. by apply relocate_compose.
    + intros (k0 & Hk0 & ->). exists (relocate dir archive_dir [dir +:+ "/" +:+ n] k0).
      split; [apply Hd1; by exists k0|]. symmetry. by apply relocate_compose.
Qed.

End archive.

(** ** [check_for_prior_results] *)

Lemma elem_of_keys (d : disk) (p : string) :
  p ∈ (map_to_list d).*1 ↔ is_Some (d !! p).
Proof.
  rewrite list_elem_of_fmap. split.
  - intros ([k e] & -> & Hin). apply elem_of_map_to_list in Hin. by exists e.
  - intros [e He]. exists (p, e). split; [done|]. by apply elem_of_map_to_list.
Qed.

Lemma active_list (d : disk) (dir p : string) :
  p ∈ not_archived (glob_entries d dir "") ↔ active_entry d dir p = true.
Proof.
  unfold not_archived, glob_entries, active_entry.
  rewrite list_elem_of_In, !filter_In, <- list_elem_of_In, elem_of_keys.
  rewrite !andb_true_iff, bool_decide_eq_true. tauto.
Qed.

Lemma NoDup_filter_list {A} (f : A → bool) (l : list A) :
  NoDup l → NoDup (List.filter f l).
Proof.
  induction 1 as [|x l Hx _ IH]; simpl; [constructor|].
  destruct (f x); [|done]. constructor; [|done].
  rewrite list_elem_of_In, filter_In, <- list_elem_of_In. tauto.
Qed.

Lemma active_list_NoDup (d : disk) (dir : string) :
  NoDup (not_archived (glob_entries d dir "")).
Proof.
  unfold not_archived, glob_entries.
  do 2 apply NoDup_filter_list. apply NoDup_fst_map_to_list.
Qed.

Lemma active_entry_child (d : disk) (dir p : string) :
  active_entry d dir p = true →
  ∃ n, p = dir +:+ "/" +:+ n ∧ Str.has_char Path.slash n = false
       ∧ is_Some (d !! p) ∧ Str.contains prior_marker p = false.
Proof.
  unfold active_entry, glob_match.
  intros [[Hp Hglob]%andb_true_iff Hmark%negb_true_iff]%andb_true_iff.
  apply bool_decide_eq_true in Hp.
  destruct (Str.strip_prefix (dir +:+ "/") p) as [n|] eqn:Hn; [|done].
  apply strip_prefix_Some in Hn.
  apply andb_true_iff in Hglob as [[Hslash%negb_true_iff _]%andb_true_iff _].
  exists n. by rewrite join_assoc.
Qed.

Lemma NoDup_two {A} (l : list A) :
  NoDup l →
  (1 < length l)%nat ↔ ∃ x y, x ≠ y ∧ x ∈ l ∧ y ∈ l.
Proof.
  intros Hnodup. destruct l as [|x [|y l]]; simpl; split; try lia.
  - intros (x & _ & _ & Hx & _). by apply elem_of_nil in Hx.
  - intros (y & z & Hyz & Hy & Hz). apply list_elem_of_singleton in Hy, Hz. congruence.
  - intros _. exists x, y. apply NoDup_cons in Hnodup as [Hx _].
    split; [intros ->; apply Hx; by left|]. split; [by left|by right; left].
Qed.

(** X20: a lone result is not a prior result.  [check_for_prior_results]
    answers [True] exactly when the output directory holds at least two
    entries that are visible and whose paths do not hold the marker
    [prior_cello_result]; with one such entry, or none, it answers
    [False]. *)
Theorem check_for_prior_results_needs_two (q : CelloQuery) (d : disk) :
  check_for_prior_results q d = true
  ↔ ∃ p1 p2, p1 ≠ p2
             ∧ active_entry d (fmt (output_directory q)) p1 = true
             ∧ active_entry d (fmt (output_directory q)) p2 = true.
Proof.
  unfold check_for_prior_results. cbv zeta.
  rewrite bool_decide_eq_true, NoDup_two by apply active_list_NoDup.
  split; intros (p1 & p2 & Hne & Hp1 & Hp2); exists p1, p2;
    (split; [done|]); split; by apply active_list.
Qed.

(** X21: an output directory whose own path holds the marker never has
    prior results: the filter drops every path found in it, on any disk. *)
Theorem marked_output_directory_reports_nothing (q : CelloQuery) (d : disk) :
  Str.contains prior_marker (fmt (output_directory q)) = true →
  not_archived (glob_entries d (fmt (output_directory q)) "") = []
  ∧ check_for_prior_results q d = false.
Proof.
  intros Hmark.
  assert (Hnone : not_archived (glob_entries d (fmt (output_directory q)) "") = []).
  { destruct (not_archived _) as [|p l] eqn:Hl; [done|]. exfalso.
    assert (Hp : p ∈ not_archived (glob_entries d (fmt (output_directory q)) ""))
      by (rewrite Hl; by left).
    apply active_list, active_entry_child in Hp as (n & -> & _ & _ & Hn).
    by rewrite (contains_app_l _ _ _ Hmark) in Hn. }
  split; [done|]. unfold check_for_prior_results. cbv zeta. by rewrite Hnone.
Qed.

Lemma marked_output_directory_reports_nothing_witness :
  check_for_prior_results
    {| input_directory := Some "in"; output_directory := Some "out/prior_cello_result_1";
       verilog_file := None; compiler_options := None; input_ucf := None;
       input_sensors := None; output_device := None; logging := false |}
    (<["out/prior_cello_result_1/a.csv" := File "a"]>
       (<["out/prior_cello_result_1/b.csv" := File "b"]> Demo6.out))
  = false.
Proof.
  refine (proj2 (marked_output_directory_reports_nothing _ _ _)).
  vm_compute. reflexivity.
Defined.

(** ** [archive_prior_results] *)

Lemma app_nil_r_string (s : string) : s +:+ "" = s.
Proof. induction s as [|x s IH]; [done|]. by rewrite app_cons, IH. Qed.

Lemma app_neq_self (s r : string) : r ≠ EmptyString → s +:+ r ≠ s.
Proof.
  intros Hr Heq. apply (f_equal String.length) in Heq.
  rewrite length_app_string in Heq. destruct r; [done|]. simpl in Heq. lia.
Qed.

Lemma nothing_below_spec (d : disk) (root k : string) :
  nothing_below d root = true → is_Some (d !! k) → Path.below root k = None.
Proof.
  unfold nothing_below. rewrite forallb_forall. intros Hall Hk.
  apply elem_of_keys, list_elem_of_In, Hall in Hk.
  by apply bool_decide_eq_true in Hk.
Qed.

Lemma nothing_below_lookup (d : disk) (root rest : string) :
  nothing_below d root = true →
  rest = EmptyString ∨ Str.startswith "/" rest = true →
  d !! (root +:+ rest) = None.
Proof.
  intros Hfree Hrest. destruct (d !! (root +:+ rest)) as [e|] eqn:He; [|done].
  pose proof (nothing_below_spec _ _ _ Hfree (mk_is_Some _ _ He)) as Hnone.
  by rewrite below_app in Hnone.
Qed.

Lemma archive_name_plain (now : string) :
  Str.has_char Path.slash now = false →
  Str.has_char Path.slash ("prior_cello_result_" +:+ now) = false.
Proof. intros Hnow. simpl. exact Hnow. Qed.

Lemma archive_path_marked (q : CelloQuery) (now rest : string) :
  Str.contains prior_marker (archive_path q now +:+ rest) = true.
Proof.
  apply contains_app_l. unfold archive_path. apply contains_app_r. reflexivity.
Qed.

Lemma active_entry_insert_marked (d : disk) (dir path p : string) (e : entry) :
  Str.contains prior_marker path = true →
  active_entry (<[path := e]> d) dir p = active_entry d dir p.
Proof.
  intros Hmark. unfold active_entry.
  destruct (decide (p = path)) as [->|Hp].
  - by rewrite Hmark, !andb_false_r.
  - by rewrite lookup_insert_ne.
Qed.

Lemma relocate_active (d : disk) (dir archive_dir : string) (moved : list string)
    (k : string) :
  (∀ p, p ∈ moved ↔ active_entry d dir p = true) →
  relocate dir archive_dir moved k = archived_path d dir archive_dir k.
Proof.
  intros Hmoved. unfold relocate, archived_path.
  destruct (Str.strip_prefix _ k) as [s|]; [|done].
  destruct (active_entry d dir _) eqn:Hactive.
  - by rewrite bool_decide_eq_true_2 by (by apply Hmoved).
  - rewrite bool_decide_eq_false_2; [done|]. rewrite Hmoved. congruence.
Qed.

(** The run of [archive_prior_results] on a disk that has the output
    directory and nothing at the path of the archive directory. *)
Lemma archive_run (now : string) (q : CelloQuery) (d : disk) :
  Str.has_char Path.slash now = false →
  d !! fmt (output_directory q) = Some Directory →
  d !! (fmt (output_directory q) +:+ "/") = None →
  nothing_below d (archive_path q now) = true →
  ∃ d',
    archive_prior_results now q d = (Returns (archive_path q now), d')
    ∧ ∀ k e,
        d' !! k = Some e
        ↔ ∃ k0, <[archive_path q now := Directory]> d !! k0 = Some e
                ∧ k = archived_path d (fmt (output_directory q))
                        (archive_path q now) k0.
Proof.
  intros Hnow Hdir Hproper Hfree.
  set (dir := fmt (output_directory q)) in *.
  set (a := "prior_cello_result_" +:+ now).
  assert (Ha : Str.has_char Path.slash a = false) by (by apply archive_name_plain).
  assert (HA : archive_path q now = dir +:+ "/" +:+ a) by done.
  assert (Hnew : d !! archive_path q now = None).
  { rewrite <- (app_nil_r_string (archive_path q now)).
    apply nothing_below_lookup; [done|by left]. }
  set (d0 := <[archive_path q now := Directory]> d).
  set (moved := not_archived (glob_entries d0 dir "")).
  assert (Hmoved : ∀ p, p ∈ moved ↔ active_entry d dir p = true).
  { intros p. unfold moved. rewrite active_list. unfold d0.
    rewrite active_entry_insert_marked; [done|].
    rewrite <- (app_nil_r_string (archive_path q now)). apply archive_path_marked. }
  destruct (move_all_spec dir a Ha moved d0) as (d' & Hrun & Hd').
  - unfold d0. rewrite <- HA. apply lookup_insert_eq.
  - apply active_list_NoDup.
  - apply Forall_forall. intros p Hp. apply Hmoved in Hp.
    destruct (active_entry_child _ _ _ Hp) as (n & -> & Hn & Hthere & Hmark).
    exists n. repeat split; [|done|].
    + intros ->. fold dir in Hproper.
      change (dir +:+ "/" +:+ "") with (dir +:+ "/") in Hthere.
      rewrite Hproper in Hthere. by destruct Hthere.
    + intros ->. rewrite <- HA in Hmark.
      rewrite <- (app_nil_r_string (archive_path q now)) in Hmark.
      by rewrite archive_path_marked in Hmark.
  - apply Forall_forall. intros p Hp. apply active_list in Hp.
    by apply active_entry_child in Hp as (n & _ & _ & Hthere & _).
  - intros s _. rewrite <- HA. unfold d0.
    rewrite lookup_insert_ne by (symmetry; by apply app_neq_self).
    apply nothing_below_lookup; [done|by right].
  - exists d'. split.
    + unfold archive_prior_results, os_mkdir. cbv zeta.
      fold a. fold dir. rewrite (parent_child dir a Ha), Hdir.
      rewrite <- HA, Hnew. fold d0. fold moved. rewrite HA, Hrun. done.
    + intros k e. rewrite Hd', <- HA.
      split; intros (k0 & Hk0 & ->); exists k0; split; try done.
      * by apply relocate_active.
      * symmetry. by apply relocate_active.
Qed.

Lemma archived_path_marked_child (d : disk) (dir archive_dir n : string) :
  Str.has_char Path.slash n = false →
  Str.contains prior_marker (dir +:+ "/" +:+ n) = true →
  archived_path d dir archive_dir (dir +:+ "/" +:+ n) = dir +:+ "/" +:+ n.
Proof.
  intros Hn Hmark. unfold archived_path.
  rewrite (join_assoc dir n), strip_prefix_app, <- (join_assoc dir n).
  rewrite (proj2 (before_id _ _) Hn).
  unfold active_entry. by rewrite Hmark, andb_false_r.
Qed.

(** X22: what archiving does.  On a disk that has the output directory
    and nothing at the path of the archive directory,
    [archive_prior_results] returns that path, and the disk it leaves
    holds the new directory and, entry for entry, what the disk held
    before: an entry at or below a visible, unmarked path of the output
    directory is found below the archive directory, under the path it
    had from the output directory on; every other entry, hidden files and
    earlier archives among them, is where it was. *)
Theorem archive_prior_results_relocates (now : string) (q : CelloQuery) (d : disk) :
  Str.has_char Path.slash now = false →
  d !! fmt (output_directory q) = Some Directory →
  d !! (fmt (output_directory q) +:+ "/") = None →
  nothing_below d (archive_path q now) = true →
  ∃ d',
    archive_prior_results now q d = (Returns (archive_path q now), d')
    ∧ ∀ k e,
        d' !! k = Some e
        ↔ (k = archive_path q now ∧ e = Directory)
          ∨ ∃ k0, d !! k0 = Some e
                  ∧ k = archived_path d (fmt (output_directory q))
                          (archive_path q now) k0.
Proof.
  intros Hnow Hdir Hproper Hfree.
  destruct (archive_run now q d Hnow Hdir Hproper Hfree) as (d' & Hrun & Hd').
  assert (Hnew : d !! archive_path q now = None).
  { rewrite <- (app_nil_r_string (archive_path q now)).
    apply nothing_below_lookup; [done|by left]. }
  pose proof (archived_path_marked_child d (fmt (output_directory q))
                (archive_path q now) ("prior_cello_result_" +:+ now)
                (archive_name_plain _ Hnow)) as Hstays.
  change (fmt (output_directory q) +:+ "/" +:+ "prior_cello_result_" +:+ now)
    with (archive_path q now) in Hstays.
  rewrite <- (app_nil_r_string (archive_path q now)) in Hstays at 1.
  specialize (Hstays (archive_path_marked q now "")).
  exists d'. split; [done|]. intros k e. rewrite Hd'. split.
  - intros (k0 & Hk0 & ->). apply lookup_insert_Some in Hk0 as [[<- <-]|[Hne Hk0]].
    + left. by rewrite Hstays.
    + right. by exists k0.
  - intros [[-> ->]|(k0 & Hk0 & ->)].
    + exists (archive_path q now). by rewrite lookup_insert_eq, Hstays.
    + exists k0. split; [|done]. rewrite lookup_insert_ne; [done|]. congruence.
Qed.

Lemma archive_prior_results_relocates_witness :
  ∃ d',
    archive_prior_results Demo6.now Demo.query Demo6.out
    = (Returns "out/prior_cello_result_2020-11-03 10:15:00.000001", d')
    ∧ d' !! "out/prior_cello_result_2020-11-03 10:15:00.000001" = Some Directory
    ∧ d' !! "out/prior_cello_result_2020-11-03 10:15:00.000001/plots/response.png"
      = Some (File "png")
    ∧ d' !! "out/.cache" = Some (File "hidden")
    ∧ d' !! "out/prior_cello_result_2020-01-01/log.log" = Some (File "old log").
Proof.
  assert (Hnow : Str.has_char Path.slash Demo6.now = false) by (vm_compute; reflexivity).
  assert (Hdir : Demo6.out !! fmt (output_directory Demo.query) = Some Directory)
    by (vm_compute; reflexivity).
  assert (Hproper : Demo6.out !! (fmt (output_directory Demo.query) +:+ "/") = None)
    by (vm_compute; reflexivity).
  assert (Hfree : nothing_below Demo6.out (archive_path Demo.query Demo6.now) = true)
    by (vm_compute; reflexivity).
  destruct (archive_prior_results_relocates Demo6.now Demo.query Demo6.out
              Hnow Hdir Hproper Hfree) as (d' & Hrun & Hd').
  exists d'. refine (conj Hrun (conj _ (conj _ (conj _ _)))).
  - refine (proj2 (Hd' _ _) (or_introl (conj _ _))); vm_compute; reflexivity.
  - refine (proj2 (Hd' _ _) (or_intror (ex_intro _ "out/plots/response.png" (conj _ _))));
      vm_compute; reflexivity.
  - refine (proj2 (Hd' _ _) (or_intror (ex_intro _ "out/.cache" (conj _ _))));
      vm_compute; reflexivity.
  - refine (proj2 (Hd' _ _)
              (or_intror (ex_intro _ "out/prior_cello_result_2020-01-01/log.log"
                            (conj _ _))));
      vm_compute; reflexivity.
Defined.

Lemma archived_disk_clear (now : string) (q : CelloQuery) (d d' : disk) :
  (∀ k e,
     d' !! k = Some e
     ↔ ∃ k0, <[archive_path q now := Directory]> d !! k0 = Some e
             ∧ k = archived_path d (fmt (output_directory q))
                     (archive_path q now) k0) →
  not_archived (glob_entries d' (fmt (output_directory q)) "") = [].
Proof.
  intros Hd'.
  destruct (not_archived _) as [|p l] eqn:Hl; [done|]. exfalso.
  assert (Hp : p ∈ not_archived (glob_entries d' (fmt (output_directory q)) ""))
    by (rewrite Hl; by left).
  apply active_list in Hp.
  destruct (active_entry_child _ _ _ Hp) as (n & -> & Hn & [e He] & Hmark).
  apply Hd' in He as (k0 & Hk0 & Heq).
  unfold archived_path in Heq.
  destruct (Str.strip_prefix _ k0) as [s|] eqn:Hs.
  - destruct (active_entry d _ _) eqn:Hactive.
    + rewrite Heq in Hmark. fold (archive_path q now) in Hmark.
      by rewrite archive_path_marked in Hmark.
    + subst k0. rewrite (join_assoc _ n), strip_prefix_app in Hs.
      injection Hs as <-. rewrite (proj2 (before_id _ _) Hn) in Hactive.
      unfold active_entry in Hp, Hactive.
      apply andb_true_iff in Hp as [[_ Hglob]%andb_true_iff _].
      rewrite Hglob, Hmark in Hactive. simpl in Hactive.
      rewrite !andb_true_r in Hactive. apply bool_decide_eq_false in Hactive.
      apply Hactive. apply lookup_insert_Some in Hk0 as [[Heq _]|[_ Hk0]]; [|by eexists].
      rewrite <- Heq in Hmark.
      rewrite <- (app_nil_r_string (archive_path q now)) in Hmark.
      by rewrite archive_path_marked in Hmark.
  - subst k0. by rewrite (join_assoc _ n), strip_prefix_app in Hs.
Qed.

(** X23: after archiving nothing is left to archive.  Under the same
    conditions the output directory holds no visible, unmarked entry any
    more, so [check_for_prior_results] answers [False] on the disk that
    [archive_prior_results] leaves. *)
Theorem archive_leaves_no_prior_results (now : string) (q : CelloQuery) (d : disk) :
  Str.has_char Path.slash now = false →
  d !! fmt (output_directory q) = Some Directory →
  d !! (fmt (output_directory q) +:+ "/") = None →
  nothing_below d (archive_path q now) = true →
  ∃ d',
    archive_prior_results now q d = (Returns (archive_path q now), d')
    ∧ not_archived (glob_entries d' (fmt (output_directory q)) "") = []
    ∧ check_for_prior_results q d' = false.
Proof.
  intros Hnow Hdir Hproper Hfree.
  destruct (archive_run now q d Hnow Hdir Hproper Hfree) as (d' & Hrun & Hd').
  exists d'. split; [done|].
  pose proof (archived_disk_clear now q d d' Hd') as Hnone.
  split; [done|]. unfold check_for_prior_results. cbv zeta. by rewrite Hnone.
Qed.

Lemma archive_leaves_no_prior_results_witness :
  check_for_prior_results Demo.query Demo6.out = true
  ∧ ∃ d',
      archive_prior_results Demo6.now Demo.query Demo6.out
      = (Returns "out/prior_cello_result_2020-11-03 10:15:00.000001", d')
      ∧ check_for_prior_results Demo.query d' = false.
Proof.
  split; [vm_compute; reflexivity|].
  assert (Hnow : Str.has_char Path.slash Demo6.now = false) by (vm_compute; reflexivity).
  assert (Hdir : Demo6.out !! fmt (output_directory Demo.query) = Some Directory)
    by (vm_compute; reflexivity).
  assert (Hproper : Demo6.out !! (fmt (output_directory Demo.query) +:+ "/") = None)
    by (vm_compute; reflexivity).
  assert (Hfree : nothing_below Demo6.out (archive_path Demo.query Demo6.now) = true)
    by (vm_compute; reflexivity).
  destruct (archive_leaves_no_prior_results Demo6.now Demo.query Demo6.out
              Hnow Hdir Hproper Hfree) as (d' & Hrun & _ & Hcheck).
  exists d'. exact (conj Hrun Hcheck).
Defined.

(** X24: when the archive directory cannot be made.  Without the output
    directory on the disk [os.mkdir] raises [FileNotFoundError]; with an
    entry already at the path of the archive directory, as after an
    archive at the same clock reading, it raises [FileExistsError].  In
    both cases the exception ends the call and the disk is untouched. *)
Theorem archive_prior_results_mkdir_fails (now : string) (q : CelloQuery) (d : disk) :
  Str.has_char Path.slash now = false →
  (d !! fmt (output_directory q) = None →
   archive_prior_results now q d
   = (Raises (Python (FileNotFoundError (archive_path q now))), d))
  ∧ (d !! fmt (output_directory q) = Some Directory →
     is_Some (d !! archive_path q now) →
     archive_prior_results now q d
     = (Raises (OSError "EEXIST" (archive_path q now)), d)).
Proof.
  intros Hnow.
  pose proof (parent_child (fmt (output_directory q)) _
                (archive_name_plain _ Hnow)) as Hparent.
  split.
  - intros Hdir. unfold archive_prior_results, os_mkdir. cbv zeta.
    by rewrite Hparent, Hdir.
  - intros Hdir [e He]. unfold archive_prior_results, os_mkdir. cbv zeta.
    rewrite Hparent, Hdir. unfold archive_path in He. by rewrite He.
Qed.

Lemma archive_prior_results_mkdir_fails_witness :
  archive_prior_results "2020-01-01" Demo.query Demo6.out
  = (Raises (OSError "EEXIST" "out/prior_cello_result_2020-01-01"), Demo6.out).
Proof.
  refine (proj2 (archive_prior_results_mkdir_fails "2020-01-01" Demo.query Demo6.out _)
            _ _).
  - vm_compute. reflexivity.
  - vm_compute. reflexivity.
  - exists Directory. vm_compute. reflexivity.
Defined.

(** * [get_results] *)

Lemma check_attributes_first_unset (q : CelloQuery) :
  check_attributes (vars q)
  = match first_unset q with
    | Some query_attr => Raises (Python (RuntimeError (msg_unset query_attr)))
    | None => Returns ()
    end.
Proof. unfold first_unset, vars. simpl. by repeat case_bool_decide. Qed.

(** X25: an attribute that is [None] stops [get_results] at once.  The
    error names the first such attribute in the order in which [__init__]
    assigns them; nothing is printed, nothing is archived, and the
    container is not started. *)
Theorem get_results_names_first_unset (now : string) (popen : container)
    (q : CelloQuery) (m : machine) (query_attr : string) :
  first_unset q = Some query_attr →
  get_results now popen q m
  = (Raises (Python (RuntimeError (msg_unset query_attr))), m).
Proof.
  intros Hunset. unfold get_results, mbind, job_bind.
  by rewrite check_attributes_first_unset, Hunset.
Qed.

Lemma get_results_names_first_unset_witness :
  get_results Demo6.now Demo6.popen
    {| input_directory := Some "in"; output_directory := Some "out";
       verilog_file := None; compiler_options := Some "options.csv";
       input_ucf := None; input_sensors := Some "Eco.input.json";
       output_device := None; logging := true |}
    Demo6.start
  = (Raises (Python (RuntimeError
       "Unable to submit request, required attribute verilog_file is not set.")),
     Demo6.start).
Proof.
  apply (get_results_names_first_unset Demo6.now Demo6.popen _ Demo6.start
           "verilog_file").
  vm_compute. reflexivity.
Defined.

Lemma get_results_run (popen : container) (q : CelloQuery)
    (d : disk) (seen : string) :
  (if logging q then
     _ ← run_process popen (docker_cmd q) true; mret 1
   else
     _ ← print "Executing Cello Query... (This may take a moment)";
     _ ← run_process popen (docker_cmd q) false;
     _ ← print "Cello Query Finished!";
     mret 0) {| files := d; terminal := seen |}
  = (Returns (if logging q then 1 else 0),
     {| files := (popen (docker_cmd q) d).1;
        terminal :=
          if logging q then seen +:+ (popen (docker_cmd q) d).2
          else (seen +:+ "Executing Cello Query... (This may take a moment)"
                     +:+ String Str.newline EmptyString)
               +:+ "Cello Query Finished!" +:+ String Str.newline EmptyString |}).
Proof.
  destruct (logging q); unfold mbind, job_bind, run_process, print, mret, job_ret;
    cbn [files terminal]; by destruct (popen _ _).
Qed.

(** X26: a lone result is not protected.  With every attribute set and at
    most one visible, unmarked entry in the output directory,
    [get_results] archives nothing: the container is started on the disk
    as it is, and the call returns [1] with [logging] and [0] without. *)
Theorem get_results_runs_over_lone_result (now : string) (popen : container)
    (q : CelloQuery) (m : machine) :
  first_unset q = None →
  (∀ p1 p2, active_entry (files m) (fmt (output_directory q)) p1 = true →
            active_entry (files m) (fmt (output_directory q)) p2 = true →
            p1 = p2) →
  ∃ m',
    get_results now popen q m = (Returns (if logging q then 1 else 0), m')
    ∧ files m' = (popen (docker_cmd q) (files m)).1.
Proof.
  intros Hset Hlone.
  assert (Hcheck : check_for_prior_results q (files m) = false).
  { unfold check_for_prior_results. cbv zeta. apply bool_decide_eq_false.
    rewrite NoDup_two by apply active_list_NoDup.
    intros (p1 & p2 & Hne & Hp1 & Hp2). apply active_list in Hp1, Hp2. eauto. }
  unfold get_results, mbind at 1 2 3, job_bind at 1 2 3.
  rewrite check_attributes_first_unset, Hset, Hcheck.
  unfold mret at 1, job_ret at 1. destruct m as [d seen].
  rewrite get_results_run. by eexists.
Qed.

Lemma get_results_runs_over_lone_result_witness :
  ∃ m',
    get_results Demo6.now Demo6.popen Demo.query Demo6.lone = (Returns 0, m')
    ∧ files m' = (Demo6.popen (docker_cmd Demo.query) (files Demo6.lone)).1.
Proof.
  assert (Hactive : not_archived (glob_entries (files Demo6.lone)
                                    (fmt (output_directory Demo.query)) "")
                    = ["out/log.log"]) by (vm_compute; reflexivity).
  apply (get_results_runs_over_lone_result Demo6.now Demo6.popen Demo.query Demo6.lone).
  - vm_compute. reflexivity.
  - intros p1 p2 Hp1 Hp2. apply active_list in Hp1, Hp2.
    rewrite Hactive in Hp1, Hp2.
    apply list_elem_of_singleton in Hp1, Hp2. congruence.
Defined.

Lemma get_results_archive (now : string) (popen : container) (q : CelloQuery)
    (m : machine) :
  first_unset q = None →
  check_for_prior_results q (files m) = true →
  get_results now popen q m
  = match archive_prior_results now q (files m) with
    | (Returns dest, d') =>
        (Returns (if logging q then 1 else 0),
         {| files := (popen (docker_cmd q) d').1;
            terminal :=
              let seen :=
                ((terminal m +:+ "Prior results detected, moving to prevent clobber."
                             +:+ String Str.newline EmptyString)
                 +:+ ("Prior results move to " +:+ dest)
                 +:+ String Str.newline EmptyString) in
              if logging q then seen +:+ (popen (docker_cmd q) d').2
              else (seen +:+ "Executing Cello Query... (This may take a moment)"
                         +:+ String Str.newline EmptyString)
                   +:+ "Cello Query Finished!" +:+ String Str.newline EmptyString |})
    | (Raises e, d') =>
        (Raises e,
         {| files := d';
            terminal := terminal m +:+ "Prior results detected, moving to prevent clobber."
                                   +:+ String Str.newline EmptyString |})
    end.
Proof.
  intros Hset Hcheck.
  unfold get_results, mbind at 1 2 3, job_bind at 1 2 3.
  rewrite check_attributes_first_unset, Hset, Hcheck.
  unfold mbind at 1 2, job_bind at 1 2, print at 1, on_files. cbn [files terminal].
  destruct (archive_prior_results now q (files m)) as [[dest|e] d']; [|done].
  unfold print at 1. cbn [files terminal]. by rewrite get_results_run.
Qed.

(** X27: with prior results the container finds a cleared directory.
    With every attribute set, at least two entries to archive, the output
    directory on the disk and nothing at the path of the archive
    directory, [get_results] archives first: the container is started on
    the disk that [archive_prior_results] leaves, whose output directory
    holds no visible, unmarked entry, and the call returns [1] with
    [logging] and [0] without. *)
Theorem get_results_archives_then_runs (now : string) (popen : container)
    (q : CelloQuery) (m : machine) :
  first_unset q = None →
  check_for_prior_results q (files m) = true →
  Str.has_char Path.slash now = false →
  files m !! fmt (output_directory q) = Some Directory →
  files m !! (fmt (output_directory q) +:+ "/") = None →
  nothing_below (files m) (archive_path q now) = true →
  ∃ d' m',
    archive_prior_results now q (files m) = (Returns (archive_path q now), d')
    ∧ not_archived (glob_entries d' (fmt (output_directory q)) "") = []
    ∧ get_results now popen q m = (Returns (if logging q then 1 else 0), m')
    ∧ files m' = (popen (docker_cmd q) d').1.
Proof.
  intros Hset Hcheck Hnow Hdir Hproper Hfree.
  destruct (archive_run now q (files m) Hnow Hdir Hproper Hfree) as (d' & Hrun & Hd').
  exists d'. eexists. split; [done|].
  split; [by apply (archived_disk_clear now q (files m))|].
  rewrite get_results_archive, Hrun by done. done.
Qed.

Lemma get_results_archives_then_runs_witness :
  ∃ d' m',
    archive_prior_results Demo6.now Demo.query (files Demo6.start)
    = (Returns "out/prior_cello_result_2020-11-03 10:15:00.000001", d')
    ∧ not_archived (glob_entries d' "out" "") = []
    ∧ get_results Demo6.now Demo6.popen Demo.query Demo6.start = (Returns 0, m')
    ∧ files m' = (Demo6.popen (docker_cmd Demo.query) d').1.
Proof.
  assert (Hset : first_unset Demo.query = None) by (vm_compute; reflexivity).
  assert (Hcheck : check_for_prior_results Demo.query (files Demo6.start) = true)
    by (vm_compute; reflexivity).
  assert (Hnow : Str.has_char Path.slash Demo6.now = false) by (vm_compute; reflexivity).
  assert (Hdir : files Demo6.start !! fmt (output_directory Demo.query) = Some Directory)
    by (vm_compute; reflexivity).
  assert (Hproper : files Demo6.start !! (fmt (output_directory Demo.query) +:+ "/")
                    = None) by (vm_compute; reflexivity).
  assert (Hfree : nothing_below (files Demo6.start)
                    (archive_path Demo.query Demo6.now) = true)
    by (vm_compute; reflexivity).
  exact (get_results_archives_then_runs Demo6.now Demo6.popen Demo.query Demo6.start
           Hset Hcheck Hnow Hdir Hproper Hfree).
Defined.

(** X28: the integer that [get_results] returns says nothing about the
    run.  Whatever the container does to the disk and whatever it writes,
    a call that returns returns [1] when [logging] is set and [0] when it
    is not. *)
Theorem get_results_returns_the_logging_flag (now : string) (popen : container)
    (q : CelloQuery) (m m' : machine) (code : Z) :
  get_results now popen q m = (Returns code, m') →
  code = if logging q then 1 else 0.
Proof.
  destruct (first_unset q) as [query_attr|] eqn:Hset.
  { unfold get_results, mbind, job_bind.
    by rewrite check_attributes_first_unset, Hset. }
  destruct (check_for_prior_results q (files m)) eqn:Hcheck.
  - rewrite get_results_archive by done.
    destruct (archive_prior_results now q (files m)) as [[dest|e] d']; [|done].
    by intros [= <- _].
  - intros Hrun. revert Hrun.
    unfold get_results, mbind at 1 2 3, job_bind at 1 2 3.
    rewrite check_attributes_first_unset, Hset, Hcheck.
    unfold mret at 1, job_ret at 1. destruct m as [d seen].
    rewrite get_results_run. by intros [= <- _].
Qed.

Lemma get_results_returns_the_logging_flag_witness :
  get_results Demo6.now Demo6.popen Demo.query Demo6.lone
  = (Returns 0,
     {| files := <["out/log.log" := File (docker_cmd Demo.query)]> (files Demo6.lone);
        terminal := "Executing Cello Query... (This may take a moment)"
                    +:+ String Str.newline ("Cello Query Finished!"
                    +:+ String Str.newline EmptyString) |})
  ∧ 0 = (if logging Demo.query then 1 else 0).
Proof.
  assert (Hrun : get_results Demo6.now Demo6.popen Demo.query Demo6.lone
                 = (Returns 0,
                    {| files := <["out/log.log" := File (docker_cmd Demo.query)]>
                                  (files Demo6.lone);
                       terminal := "Executing Cello Query... (This may take a moment)"
                                   +:+ String Str.newline ("Cello Query Finished!"
                                   +:+ String Str.newline EmptyString) |}))
    by (vm_compute; reflexivity).
  exact (conj Hrun (get_results_returns_the_logging_flag _ _ _ _ _ _ Hrun)).
Defined.

(** X29: an archive that fails stops the call.  When prior results are
    detected and [archive_prior_results] raises, [get_results] ends with
    that exception after its first message; the container is not
    started, and the disk is the one the failed archive left. *)
Theorem get_results_stops_when_archive_fails (now : string) (popen : container)
    (q : CelloQuery) (m : machine) (e : failure) (d' : disk) :
  first_unset q = None →
  check_for_prior_results q (files m) = true →
  archive_prior_results now q (files m) = (Raises e, d') →
  get_results now popen q m
  = (Raises e,
     {| files := d';
        terminal := terminal m +:+ "Prior results detected, moving to prevent clobber."
                               +:+ String Str.newline EmptyString |}).
Proof.
  intros Hset Hcheck Hfail. by rewrite get_results_archive, Hfail.
Qed.

Lemma get_results_stops_when_archive_fails_witness :
  get_results "2020-01-01" Demo6.popen Demo.query Demo6.start
  = (Raises (OSError "EEXIST" "out/prior_cello_result_2020-01-01"),
     {| files := Demo6.out;
        terminal := "Prior results detected, moving to prevent clobber."
                    +:+ String Str.newline EmptyString |}).
Proof.
  apply (get_results_stops_when_archive_fails "2020-01-01" Demo6.popen Demo.query
           Demo6.start).
  - vm_compute. reflexivity.
  - vm_compute. reflexivity.
  - vm_compute. reflexivity.
Defined.

(** * From [set_input_signals] to the container *)

(** X30: the sensor file of the next run.  After a successful
    [set_input_signals] with [mutate] set, the command line of
    [get_results] names the file just written as [-inputSensorFile];
    with [mutate] unset the command line is the one it was before. *)
Theorem next_run_reads_selected_sensors `{Codec} (q : CelloQuery) (fs : filesystem)
    (input_signals available : list string) (output_filename : string)
    (mutate : bool) (data pruned : value) :
  get_input_signals q fs = Ok available →
  (∀ signal, signal ∈ input_signals → signal ∈ available) →
  _fix_input_json fs (in_input_directory q (fmt (input_sensors q))) false = Ok data →
  prune data input_signals = Ok pruned →
  ∃ q' fs',
    set_input_signals input_signals output_filename mutate (q, fs)
    = (Ok output_filename, (q', fs'))
    ∧ (mutate = true →
       Str.contains ("-inputSensorFile /root/input/" +:+ output_filename +:+ " ")
         (docker_cmd q') = true)
    ∧ (mutate = false → docker_cmd q' = docker_cmd q).
Proof.
  intros Havailable Hall Hdata Hpruned.
  eexists _, _. split; [by eapply set_input_signals_ok|].
  split; intros ->; [|done].
  unfold docker_cmd. cbn [input_sensors with_input_sensors].
  change (fmt (Some output_filename)) with output_filename.
  do 18 apply contains_app_r.
  set (rest := "-outputDeviceFile /root/input/" +:+ _).
  replace ("-inputSensorFile /root/input/" +:+ output_filename +:+ " " +:+ rest)
    with (("-inputSensorFile /root/input/" +:+ output_filename +:+ " ") +:+ rest)
    by (by rewrite !app_assoc_string).
  apply contains_app_l.
  generalize ("-inputSensorFile /root/input/" +:+ output_filename +:+ " ").
  intros needle. destruct needle as [|x needle]; [done|].
  cbn [Str.contains]. apply orb_true_iff. left.
  rewrite <- (app_nil_r_string (String x needle)) at 2. apply startswith_app.
Qed.

Lemma next_run_reads_selected_sensors_witness :
  ∃ q' fs',
    @set_input_signals Fragment.codec ["A"; "B"; "C"] "custom_input.input.json" true
      (Demo.query, Demo.inputs)
    = (Ok "custom_input.input.json", (q', fs'))
    ∧ Str.contains "-inputSensorFile /root/input/custom_input.input.json "
        (docker_cmd q') = true.
Proof.
  assert (Havailable : @get_input_signals Fragment.codec Demo.query Demo.inputs
                       = Ok ["A"; "B"; "C"]) by (vm_compute; reflexivity).
  assert (Hdata : @_fix_input_json Fragment.codec Demo.inputs
                    (in_input_directory Demo.query (fmt (input_sensors Demo.query)))
                    false
                  = Ok Demo.sensors_doc) by (vm_compute; reflexivity).
  assert (Hpruned : prune Demo.sensors_doc ["A"; "B"; "C"] = Ok Demo.sensors_doc)
    by (vm_compute; reflexivity).
  destruct (@next_run_reads_selected_sensors Fragment.codec Demo.query Demo.inputs
              ["A"; "B"; "C"] ["A"; "B"; "C"] "custom_input.input.json" true
              Demo.sensors_doc Demo.sensors_doc Havailable (λ _ Hin, Hin)
              Hdata Hpruned)
    as (q' & fs' & Hrun & Hcmd & _).
  exists q', fs'. exact (conj Hrun (Hcmd eq_refl)).
Defined.
